(** * buffer-serializer: a shallow embedding of the encode/decode engine

    The development follows the three source files of the package:
    [lib/buffer-writer.js], [lib/buffer-reader.js] and [lib/serializer.js].
    JavaScript values are modelled by an inductive type, the mutable writer
    and reader objects by explicit state passing, thrown errors by a result
    type.  The methods of Node's [Buffer] that the package calls are
    modelled in [NodeBuffer] from their documented behaviour. *)

From Stdlib Require Import ZArith List Lia ZifyBool Bool String Ascii FinFun.
Import ListNotations.
Open Scope list_scope.
Open Scope Z_scope.
Set Warnings "-register-all".

(** ** Outcomes *)

(** A JavaScript string is its sequence of UTF-16 code units. *)
Definition jsstring := list Z.

(** A [Buffer] is its sequence of octets. *)
Definition Buffer := list Z.

Inductive error : Type :=
| RangeError                          (* raised by Buffer read and write methods *)
| SizesMustBePositive                 (* "Sizes must be positive" *)
| SizeTooLarge (s : Z)                (* "Can not encode size; too large: " *)
| InvalidSize (b : Z)                 (* "Invalid size encountered: " *)
| UnexpectedEndOfStream               (* "Unexpected end of stream" *)
| InvalidVersion                      (* "Invalid version identifier" *)
| UnknownCode (code : Z)              (* "Unable to deserialize string, unknown code: " *)
| HelperNotDefined (name : jsstring)  (* "Serialized data uses custom helper but ..." *)
| InvalidType (type : String.string).        (* "Invalid type: " *)

(** What the model itself cannot decide: recursion budget used up, or a
    JavaScript conversion that is not part of the embedding. *)
Inductive limit : Type := OutOfFuel | NotModelled.

Inductive result (A : Type) : Type :=
| Ok (a : A)
| Throw (e : error)
| Stuck (l : limit).
Arguments Ok {A} a.
Arguments Throw {A} e.
Arguments Stuck {A} l.

Definition bind {A B} (r : result A) (f : A -> result B) : result B :=
  match r with
  | Ok a => f a
  | Throw e => Throw e
  | Stuck l => Stuck l
  end.

Definition str (s : String.string) : jsstring :=
  map (fun c => Z.of_N (N_of_ascii c)) (list_ascii_of_string s).

(** ** JavaScript numbers

    A number is an IEEE-754 binary64 value.  A finite one is kept as sign,
    53-bit significand [m] and exponent [e], standing for [m * 2^e]; the
    pair is the one the format itself stores, so that [ok] below holds. *)

Module Number.

Inductive t : Type :=
| NaN
| Infinity (negative : bool)
| Finite (negative : bool) (m e : Z).

Definition ok (x : t) : bool :=
  match x with
  | Finite _ m e =>
      (0 <=? m) && (m <? 2 ^ 53) && (-1074 <=? e) && (e <=? 971)
      && ((2 ^ 52 <=? m) || (e =? -1074))
  | _ => true
  end.

Definition signed (negative : bool) (m : Z) : Z := if negative then - m else m.

(** The value of a finite number, counted in units of [2^-1074]. *)
Definition scaled (negative : bool) (m e : Z) : Z :=
  signed negative m * 2 ^ (e + 1074).

(** The number nearest to an integer (ties to even), as for a numeric
    literal or a string converted by unary [+]. *)
Definition of_Z (z : Z) : t :=
  if z =? 0 then Finite false 0 (-1074)
  else
    let a := Z.abs z in
    let l := Z.log2 a in
    if l <=? 52 then Finite (z <? 0) (a * 2 ^ (52 - l)) (l - 52)
    else
      let shift := l - 52 in
      let q := a / 2 ^ shift in
      let r := a mod 2 ^ shift in
      let half := 2 ^ (shift - 1) in
      let q' := if (half <? r) || ((r =? half) && Z.odd q) then q + 1 else q in
      let me := if q' =? 2 ^ 53 then (2 ^ 52, shift + 1) else (q', shift) in
      if 971 <? snd me then Infinity (z <? 0)
      else Finite (z <? 0) (fst me) (snd me).

(** The integer a number holds when it has no fractional part; for a number
    with one, its integer part. *)
Definition to_Z (x : t) : Z :=
  match x with
  | Finite negative m e =>
      signed negative (if 0 <=? e then m * 2 ^ e else m / 2 ^ (- e))
  | _ => 0
  end.

Definition compare (x y : t) : option comparison :=
  match x, y with
  | NaN, _ | _, NaN => None
  | Infinity a, Infinity b =>
      Some (if a then (if b then Eq else Lt) else (if b then Gt else Eq))
  | Infinity a, Finite _ _ _ => Some (if a then Lt else Gt)
  | Finite _ _ _, Infinity b => Some (if b then Gt else Lt)
  | Finite a m e, Finite b m' e' => Some (scaled a m e ?= scaled b m' e')
  end.

(** [x == y], [x < y], [x <= y] on numbers. *)
Definition eqb (x y : t) : bool :=
  match compare x y with Some Eq => true | _ => false end.

Definition ltb (x y : t) : bool :=
  match compare x y with Some Lt => true | _ => false end.

Definition leb (x y : t) : bool :=
  match compare x y with Some Lt | Some Eq => true | _ => false end.

(** [Math.abs(x)], unary minus, [Math.floor(x)]. *)
Definition abs (x : t) : t :=
  match x with
  | NaN => NaN
  | Infinity _ => Infinity false
  | Finite _ m e => Finite false m e
  end.

Definition neg (x : t) : t :=
  match x with
  | NaN => NaN
  | Infinity s => Infinity (negb s)
  | Finite s m e => Finite (negb s) m e
  end.

Definition floor (x : t) : t :=
  match x with
  | Finite negative m e =>
      if 0 <=? e then x
      else
        let d := 2 ^ (- e) in
        if m mod d =? 0 then x else of_Z (signed negative m / d)
  | _ => x
  end.

(** The 64 bits of the binary64 encoding, as an unsigned integer. *)
Definition bits (x : t) : Z :=
  match x with
  | NaN => 0x7FF8000000000000
  | Infinity negative => (if negative then 2 ^ 63 else 0) + 0x7FF0000000000000
  | Finite negative m e =>
      (if negative then 2 ^ 63 else 0)
      + (if m <? 2 ^ 52 then m else (e + 1075) * 2 ^ 52 + (m - 2 ^ 52))
  end.

Definition of_bits (b : Z) : t :=
  let negative := 2 ^ 63 <=? b in
  let E := (b / 2 ^ 52) mod 2048 in
  let F := b mod 2 ^ 52 in
  if E =? 2047 then (if F =? 0 then Infinity negative else NaN)
  else if E =? 0 then Finite negative F (-1074)
  else Finite negative (F + 2 ^ 52) (E - 1075).

(** Decimal digits of a non-negative integer. *)
Fixpoint digits (fuel : nat) (z : Z) (acc : jsstring) : jsstring :=
  match fuel with
  | O => acc
  | S fuel' =>
      let acc' := (48 + z mod 10) :: acc in
      if z <? 10 then acc' else digits fuel' (z / 10) acc'
  end.

Definition decimal (z : Z) : jsstring :=
  digits (S (Z.to_nat (Z.log2 z))) z [].

Definition is_integer (x : t) : bool :=
  match x with
  | Finite _ m e => (0 <=? e) || (m mod 2 ^ (- e) =? 0)
  | _ => false
  end.

(** [String(x)], for the numbers whose text is plain: an integer up to
    [2^53] prints as its decimal digits.  Other finite numbers print in a
    shortest-digits form that is not part of the embedding (beyond [2^53]
    the digits printed need not be those of the exact value). *)
Definition toString (x : t) : option jsstring :=
  match x with
  | NaN => Some (str "NaN")
  | Infinity negative => Some (str (if negative then "-Infinity" else "Infinity"))
  | Finite negative m e =>
      let z := to_Z (abs x) in
      if is_integer x && (z <=? 2 ^ 53)
      then Some ((if negative && negb (z =? 0) then str "-" else []) ++ decimal z)
      else None
  end.

End Number.

(** ** Node's Buffer methods used by the package *)

Module NodeBuffer.

Definition in_range (val max : Z) : bool := (0 <=? val) && (val <=? max).

(** [buf.writeUInt8(val)] on a fresh one-byte buffer: out of range values
    raise. *)
Definition writeUInt8 (val : Z) : result Buffer :=
  if in_range val 0xFF then Ok [val] else Throw RangeError.

Definition writeUInt16BE (val : Z) : result Buffer :=
  if in_range val 0xFFFF
  then Ok [Z.shiftr val 8; Z.land val 0xFF]
  else Throw RangeError.

Definition writeUInt32BE (val : Z) : result Buffer :=
  if in_range val 0xFFFFFFFF
  then Ok [Z.shiftr val 24; Z.land (Z.shiftr val 16) 0xFF;
           Z.land (Z.shiftr val 8) 0xFF; Z.land val 0xFF]
  else Throw RangeError.

(** [buf[i]]: [None] stands for [undefined]. *)
Definition index (buf : Buffer) (i : nat) : option Z := nth_error buf i.

(** [buf.slice(start, end)] clamps both ends to the buffer. *)
Definition slice (buf : Buffer) (start stop : nat) : Buffer :=
  firstn (stop - start) (skipn start buf).

Definition be (bytes : Buffer) : Z :=
  fold_left (fun acc b => acc * 256 + b) bytes 0.

(** [buf.readUIntNBE(offset)]: reading past the end raises. *)
Definition readUInt (width : nat) (buf : Buffer) (offset : nat) : result Z :=
  if Nat.leb (offset + width) (List.length buf)
  then Ok (be (slice buf offset (offset + width)))
  else Throw RangeError.

Definition readUInt8 := readUInt 1.
Definition readUInt16BE := readUInt 2.
Definition readUInt32BE := readUInt 4.

(** [buf.writeDoubleBE(val)] on a fresh eight-byte buffer and
    [buf.readDoubleBE(offset)]. *)
Definition writeDoubleBE (val : Number.t) : Buffer :=
  let b := Number.bits val in
  map (fun i => Z.land (Z.shiftr b (8 * i)) 0xFF) [7; 6; 5; 4; 3; 2; 1; 0].

Definition readDoubleBE (buf : Buffer) (offset : nat) : result Number.t :=
  bind (readUInt 8 buf offset) (fun b => Ok (Number.of_bits b)).

(** [Buffer.from(str, "binary")]: one byte per code unit, its low 8 bits. *)
Definition from_binary (s : jsstring) : Buffer :=
  map (fun c => Z.land c 0xFF) s.

(** [buf.toString("binary")]: one code unit per byte. *)
Definition toString_binary (buf : Buffer) : jsstring := buf.

End NodeBuffer.

(** ** lib/buffer-writer.js *)

Module BufferWriter.

Record t : Type := { bufferList : list Buffer }.

Definition new : t := {| bufferList := [] |}.

(** A method that mutates the writer maps the state before to the state
    after, or fails. *)
Definition action := t -> result t.

Definition seq (a b : action) : action := fun w => bind (a w) b.

Definition push (buff : Buffer) : action :=
  fun w => Ok {| bufferList := bufferList w ++ [buff] |}.

Definition buffer (buff : Buffer) : action := push buff.

Definition double (val : Number.t) : action :=
  push (NodeBuffer.writeDoubleBE val).

Definition uint8 (val : Z) : action :=
  fun w => bind (NodeBuffer.writeUInt8 val) (fun buff => push buff w).

Definition uint16 (val : Z) : action :=
  fun w => bind (NodeBuffer.writeUInt16BE val) (fun buff => push buff w).

Definition uint32 (val : Z) : action :=
  fun w => bind (NodeBuffer.writeUInt32BE val) (fun buff => push buff w).

Definition size (s : Z) : action :=
  if s <? 0 then fun _ => Throw SizesMustBePositive
  else if s <? 0x7F then uint8 s
  else if s <? 0x3FFF then uint16 (Z.lor s 0x8000)
  else if s <? 0x1FFFFFFF then uint32 (s + 0xC0000000)
  else fun _ => Throw (SizeTooLarge s).

Definition string (s : jsstring) : action := push (NodeBuffer.from_binary s).

Definition toBuffer (w : t) : Buffer := List.concat (bufferList w).

End BufferWriter.

(** ** lib/buffer-reader.js *)

Module BufferReader.

Record t : Type := { readBuffer : Buffer; offset : nat }.

Definition new (buff : Buffer) (off : nat) : t :=
  {| readBuffer := buff; offset := off |}.

(** A method returns a value and the reader with its cursor moved. *)
Definition action (A : Type) := t -> result (A * t).

Definition ret {A} (a : A) : action A := fun r => Ok (a, r).

Definition throw {A} (e : error) : action A := fun _ => Throw e.

Definition bind {A B} (m : action A) (f : A -> action B) : action B :=
  fun r => match m r with
           | Ok (a, r') => f a r'
           | Throw e => Throw e
           | Stuck l => Stuck l
           end.

Definition advance (r : t) (n : Z) : t :=
  {| readBuffer := readBuffer r;
     offset := Z.to_nat (Z.of_nat (offset r) + n) |}.

Definition buffer (length : Z) : action Buffer :=
  fun r =>
    let buff := NodeBuffer.slice (readBuffer r) (offset r)
                  (Z.to_nat (Z.of_nat (offset r) + length)) in
    Ok (buff, advance r length).

Definition double : action Number.t :=
  fun r => match NodeBuffer.readDoubleBE (readBuffer r) (offset r) with
           | Ok v => Ok (v, advance r 8)
           | Throw e => Throw e
           | Stuck l => Stuck l
           end.

Definition peek : action Z :=
  fun r => match NodeBuffer.index (readBuffer r) (offset r) with
           | None => Throw UnexpectedEndOfStream
           | Some val => Ok (val, r)
           end.

Definition skip : action unit := fun r => Ok (tt, advance r 1).

Definition string (length : Z) : action jsstring :=
  fun r =>
    let buff := NodeBuffer.slice (readBuffer r) (offset r)
                  (Z.to_nat (Z.of_nat (offset r) + length)) in
    Ok (NodeBuffer.toString_binary buff, advance r length).

Definition uint8 : action Z :=
  fun r => match NodeBuffer.readUInt8 (readBuffer r) (offset r) with
           | Ok v => Ok (v, advance r 1)
           | Throw e => Throw e
           | Stuck l => Stuck l
           end.

Definition uint16 : action Z :=
  fun r => match NodeBuffer.readUInt16BE (readBuffer r) (offset r) with
           | Ok v => Ok (v, advance r 2)
           | Throw e => Throw e
           | Stuck l => Stuck l
           end.

Definition uint32 : action Z :=
  fun r => match NodeBuffer.readUInt32BE (readBuffer r) (offset r) with
           | Ok v => Ok (v, advance r 4)
           | Throw e => Throw e
           | Stuck l => Stuck l
           end.

(** [x & mask] is non-zero. *)
Definition bit_set (x mask : Z) : bool := negb (Z.land x mask =? 0).

Definition size : action Z :=
  bind peek (fun b =>
    if negb (bit_set b 0x80) then uint8
    else if negb (bit_set b 0x40)
    then bind uint16 (fun v => ret (Z.land v 0x3FFF))
    else if negb (bit_set b 0x20)
    then bind uint32 (fun v => ret (Z.land v 0x1FFFFFFF))
    else throw (InvalidSize b)).

End BufferReader.

(** Encoding a size into a fresh writer, decoding it from the start of a
    buffer: the two halves of the size codec. *)
Definition encodeSize (n : Z) : result Buffer :=
  bind (BufferWriter.size n BufferWriter.new)
       (fun w => Ok (BufferWriter.toBuffer w)).

Definition decodeSize (buff : Buffer) : result Z :=
  bind (BufferReader.size (BufferReader.new buff 0)) (fun p => Ok (fst p)).

(** ** JavaScript values *)

(** The values the serializer can be handed.  An array or object is its
    list of own enumerable properties, in the order [Object.keys] lists
    them; an array also has its [length], and indices with no property are
    its holes.  An object carries the name of its constructor, ["Object"]
    for a plain one.  A [Date] is its time value in milliseconds, or is
    invalid when that is [NaN].  A [RegExp] is its source, the three flags
    the serializer looks at, and the letters of the other flags it has
    (among d, s, u, v, y). *)
Inductive value : Type :=
| VUndefined
| VNull
| VBoolean (b : bool)
| VNumber (n : Number.t)
| VBigInt (z : Z)
| VString (s : jsstring)
| VSymbol
| VFunction
| VBuffer (bytes : Buffer)
| VDate (time : Z)
| VInvalidDate
| VRegExp (source : jsstring) (global ignoreCase multiline : bool)
          (others : jsstring)
| VArray (length : nat) (props : list (jsstring * value))
| VObject (class : String.string) (props : list (jsstring * value)).

Definition properties := list (jsstring * value).

Definition typeof (thing : value) : String.string :=
  match thing with
  | VUndefined => "undefined"
  | VBoolean _ => "boolean"
  | VNumber _ => "number"
  | VBigInt _ => "bigint"
  | VString _ => "string"
  | VSymbol => "symbol"
  | VFunction => "function"
  | _ => "object"
  end.

Fixpoint jsstring_eqb (a b : jsstring) : bool :=
  match a, b with
  | [], [] => true
  | x :: a', y :: b' => (x =? y) && jsstring_eqb a' b'
  | _, _ => false
  end.

(** [thing[key]]: the first property under that key, [undefined] if none. *)
Fixpoint get (props : properties) (key : jsstring) : value :=
  match props with
  | [] => VUndefined
  | (k, v) :: rest => if jsstring_eqb k key then v else get rest key
  end.

Definition Object_keys (props : properties) : list jsstring := map fst props.

Definition is_undefined (v : value) : bool :=
  match v with VUndefined => true | _ => false end.

(** Property keys that look like numbers. *)
Definition is_digit (c : Z) : bool := (48 <=? c) && (c <=? 57).

(** The test of [toBufferInternalKey]'s regular expression: the whole key
    is a single digit, or a digit other than 0 followed by digits. *)
Definition looks_like_index (s : jsstring) : bool :=
  match s with
  | [] => false
  | [c] => is_digit c
  | c :: rest => (49 <=? c) && (c <=? 57) && forallb is_digit rest
  end.

Definition parse_decimal (s : jsstring) : Z :=
  fold_left (fun acc c => acc * 10 + (c - 48)) s 0.

(** The key of array slot [i]. *)
Definition index_key (i : nat) : jsstring := Number.decimal (Z.of_nat i).

(** A value's nesting depth; the top-level entry points give the recursion
    that many steps and two more. *)
Fixpoint depth (v : value) : nat :=
  match v with
  | VArray _ props | VObject _ props =>
      S ((fix members (l : properties) : nat :=
            match l with
            | [] => O
            | (_, x) :: rest => Nat.max (depth x) (members rest)
            end) props)
  | _ => O
  end.

(** ** lib/serializer.js: helpers *)

(** A registered helper.  Its two conversion functions receive the
    serializer's own [toBufferInternal] / [fromBufferInternal] so that they
    can encode and decode nested values with it. *)
Record helper : Type := {
  checkFn : value -> bool;
  fromBufferFn : BufferReader.action value -> BufferReader.action value;
  name : jsstring;
  toBufferFn : (value -> BufferWriter.action) -> value -> BufferWriter.action
}.

Record BufferSerializer : Type := { helpers : list helper }.

Definition constructor : BufferSerializer := {| helpers := [] |}.

Definition register (serializer : BufferSerializer) (name : jsstring)
    (checkFn : value -> bool)
    (toBufferFn : (value -> BufferWriter.action) -> value -> BufferWriter.action)
    (fromBufferFn : BufferReader.action value -> BufferReader.action value)
  : BufferSerializer :=
  {| helpers := helpers serializer ++
                [ {| checkFn := checkFn; fromBufferFn := fromBufferFn;
                     name := name; toBufferFn := toBufferFn |} ] |}.

(** ** lib/serializer.js: encoding *)

Module Import WriterNotations.
Notation "a ;; b" := (BufferWriter.seq a b) (at level 61, right associativity).
End WriterNotations.

Definition done : BufferWriter.action := fun w => Ok w.

Definition raise (e : error) : BufferWriter.action := fun _ => Throw e.

(** [for (...) { body }] over the elements of a list, in order. *)
Fixpoint forEach {A} (l : list A) (body : A -> BufferWriter.action)
  : BufferWriter.action :=
  match l with
  | [] => done
  | x :: rest => body x ;; forEach rest body
  end.

Section Encode.

(** [serializer.toBufferInternal], as the functions below call it. *)
Variable toBufferInternal : value -> BufferWriter.action.

Definition toBufferInternalKey (thing : jsstring) : BufferWriter.action :=
  if looks_like_index thing
  then toBufferInternal (VNumber (Number.of_Z (parse_decimal thing)))
  else toBufferInternal (VString thing).

Definition toBufferInternalArray (length : nat) (props : properties)
  : BufferWriter.action :=
  let keys := Object_keys props in
  let indices := seq 0 length in
  if Nat.eqb (List.length keys) length
     && negb (existsb (fun i => is_undefined (get props (index_key i))) indices)
  then
    BufferWriter.string (str "a") ;;
    forEach indices (fun i => toBufferInternal (get props (index_key i))) ;;
    BufferWriter.string (str "!")
  else
    BufferWriter.string (str "A") ;;
    forEach keys (fun key => toBufferInternalKey key ;;
                             toBufferInternal (get props key)) ;;
    BufferWriter.string (str "!").

Definition toBufferInternalBoolean (thing : bool) : BufferWriter.action :=
  if thing then BufferWriter.uint8 0x74 else BufferWriter.uint8 0x66.

Definition toBufferInternalNumber (thing : Number.t) : BufferWriter.action :=
  let double := BufferWriter.uint8 0x64 ;; BufferWriter.double thing in
  if Number.eqb (Number.floor thing) thing then
    if Number.ltb thing (Number.of_Z 0) then
      let abs := Number.abs thing in
      if Number.leb abs (Number.of_Z 0xFF) then
        BufferWriter.uint8 0x2D ;; BufferWriter.uint8 (Number.to_Z abs)
      else if Number.leb abs (Number.of_Z 0xFFFF) then
        BufferWriter.uint8 0x69 ;; BufferWriter.uint16 (Number.to_Z abs)
      else if Number.leb abs (Number.of_Z 0xFFFFFFFF) then
        BufferWriter.uint8 0x49 ;; BufferWriter.uint32 (Number.to_Z abs)
      else double
    else
      if Number.leb thing (Number.of_Z 0xFF) then
        BufferWriter.uint8 0x2B ;; BufferWriter.uint8 (Number.to_Z thing)
      else if Number.leb thing (Number.of_Z 0xFFFF) then
        BufferWriter.uint8 0x70 ;; BufferWriter.uint16 (Number.to_Z thing)
      else if Number.leb thing (Number.of_Z 0xFFFFFFFF) then
        BufferWriter.uint8 0x50 ;; BufferWriter.uint32 (Number.to_Z thing)
      else double
  else double.

Definition toBufferInternalObjectBuffer (thing : Buffer) : BufferWriter.action :=
  BufferWriter.uint8 0x42 ;;
  BufferWriter.size (Z.of_nat (List.length thing)) ;;
  BufferWriter.buffer thing.

(** [thing.getTime()]: [None] stands for [NaN], the time of an invalid
    date. *)
Definition getTime (thing : value) : option Z :=
  match thing with
  | VDate time => Some time
  | _ => None
  end.

(** For an invalid date [ms] and [seconds] are [NaN]: [ms] is falsy, and
    [writeUInt32BE] stores [NaN] as zero, no comparison of its range check
    being true of it. *)
Definition toBufferInternalObjectDate (time : option Z) : BufferWriter.action :=
  match time with
  | Some seconds =>
      let ms := Z.rem seconds 1000 in
      let seconds := seconds / 1000 in
      if negb (ms =? 0) then
        BufferWriter.uint8 0x44 ;;
        BufferWriter.uint32 seconds ;;
        BufferWriter.uint16 ms
      else
        BufferWriter.uint8 0x54 ;;
        BufferWriter.uint32 seconds
  | None =>
      BufferWriter.uint8 0x54 ;;
      BufferWriter.uint32 0
  end.

Definition toBufferInternalObjectGeneric (props : properties)
  : BufferWriter.action :=
  BufferWriter.string (str "O") ;;
  forEach (Object_keys props)
          (fun key => toBufferInternalKey key ;;
                      toBufferInternal (get props key)) ;;
  BufferWriter.string (str "!").

Definition toBufferInternalObjectRegExp (source : jsstring)
    (global ignoreCase multiline : bool) : BufferWriter.action :=
  BufferWriter.uint8 0x52 ;;
  BufferWriter.size (Z.of_nat (List.length source)) ;;
  BufferWriter.string source ;;
  let flags := 0 in
  let flags := if global then flags + 0x01 else flags in
  let flags := if ignoreCase then flags + 0x02 else flags in
  let flags := if multiline then flags + 0x04 else flags in
  BufferWriter.uint8 flags.

Definition toBufferInternalString (thing : jsstring) : BufferWriter.action :=
  BufferWriter.uint8 0x73 ;;
  BufferWriter.size (Z.of_nat (List.length thing)) ;;
  BufferWriter.string thing.

(** The loop over [serializer.helpers]: the first helper whose [checkFn]
    accepts the value writes it; with none, the built-in object kinds are
    told apart, and what is left is written as a generic object. *)
Fixpoint toBufferInternalObject (helpers : list helper) (thing : value)
  : BufferWriter.action :=
  match helpers with
  | helper :: rest =>
      if checkFn helper thing then
        BufferWriter.uint8 0x5A ;;
        BufferWriter.size (Z.of_nat (List.length (name helper))) ;;
        BufferWriter.string (name helper) ;;
        toBufferFn helper toBufferInternal thing
      else toBufferInternalObject rest thing
  | [] =>
      match thing with
      | VBuffer bytes => toBufferInternalObjectBuffer bytes
      | VDate _ | VInvalidDate => toBufferInternalObjectDate (getTime thing)
      | VRegExp source global ignoreCase multiline _ =>
          toBufferInternalObjectRegExp source global ignoreCase multiline
      | VObject _ props => toBufferInternalObjectGeneric props
      | _ => toBufferInternalObjectGeneric []
      end
  end.

End Encode.

(** [BufferSerializer.prototype.toBufferInternal].  [typeof thing] is
    ["object"] for [null], arrays, buffers, dates, patterns and objects;
    every other type than string, number and boolean is refused. *)
Fixpoint toBufferInternal (fuel : nat) (serializer : BufferSerializer)
    (thing : value) : BufferWriter.action :=
  match fuel with
  | O => fun _ => Stuck OutOfFuel
  | S fuel' =>
      let self := toBufferInternal fuel' serializer in
      match thing with
      | VNull => BufferWriter.uint8 0x6e
      | VArray length props => toBufferInternalArray self length props
      | VBuffer _ | VDate _ | VInvalidDate | VRegExp _ _ _ _ _ | VObject _ _ =>
          toBufferInternalObject self (helpers serializer) thing
      | VString s => toBufferInternalString s
      | VNumber n => toBufferInternalNumber n
      | VBoolean b => toBufferInternalBoolean b
      | VUndefined | VBigInt _ | VSymbol | VFunction =>
          raise (InvalidType (typeof thing))
      end
  end.

(** [BufferSerializer.prototype.toBuffer], with the depth the recursion
    may reach.  [Stuck OutOfFuel] says that this budget was too small; it
    says nothing about the code. *)
Definition toBufferWith (fuel : nat) (serializer : BufferSerializer)
    (thing : value) : result Buffer :=
  bind ((BufferWriter.uint8 0 ;;
         toBufferInternal fuel serializer thing) BufferWriter.new)
       (fun buffWriter => Ok (BufferWriter.toBuffer buffWriter)).

(** [toBuffer] at the budget of the value's own nesting and two more.  It
    is enough for the built-in kinds and for helpers that hand nothing
    back to [toBufferInternal] that is nested deeper than the object they
    were given; for other helpers [toBufferWith] takes a larger one. *)
Definition toBuffer (serializer : BufferSerializer) (thing : value)
  : result Buffer :=
  toBufferWith (2 + depth thing) serializer thing.

(** ** lib/serializer.js: decoding *)

Module Import ReaderNotations.
Notation "'let*' x ':=' m 'in' k" := (BufferReader.bind m (fun x => k))
  (at level 10, x name, m at level 100, k at level 200).
End ReaderNotations.

Definition stuck {A} (l : limit) : BufferReader.action A := fun _ => Stuck l.

(** *** Assigning properties: [result[key] = value] *)

(** A key that is an array index: a number-like key below [2^32 - 1]. *)
Definition array_index (key : jsstring) : option Z :=
  if looks_like_index key && (parse_decimal key <? 2 ^ 32 - 1)
  then Some (parse_decimal key) else None.

Fixpoint has_key (props : properties) (key : jsstring) : bool :=
  match props with
  | [] => false
  | (k, _) :: rest => jsstring_eqb k key || has_key rest key
  end.

Fixpoint replace (props : properties) (key : jsstring) (v : value) : properties :=
  match props with
  | [] => []
  | (k, x) :: rest =>
      if jsstring_eqb k key then (k, v) :: rest else (k, x) :: replace rest key v
  end.

(** A new index key goes after the smaller indices, before everything else. *)
Fixpoint insert_index (props : properties) (i : Z) (key : jsstring) (v : value)
  : properties :=
  match props with
  | [] => [(key, v)]
  | (k, x) :: rest =>
      match array_index k with
      | Some j => if j <? i then (k, x) :: insert_index rest i key v
                  else (key, v) :: props
      | None => (key, v) :: props
      end
  end.

(** Own properties are listed with the array indices first, in ascending
    order, then the other keys in the order they were created. *)
Definition set_property (props : properties) (key : jsstring) (v : value)
  : properties :=
  if has_key props key then replace props key v
  else match array_index key with
       | Some i => insert_index props i key v
       | None => props ++ [(key, v)]
       end.

(** The property key a value used as a key converts to.  Objects convert
    through their own [toString], which is not part of the embedding. *)
Definition ToPropertyKey (key : value) : option jsstring :=
  match key with
  | VString s => Some s
  | VNumber n => Number.toString n
  | VBoolean b => Some (str (if b then "true" else "false"))
  | VNull => Some (str "null")
  | VUndefined => Some (str "undefined")
  | _ => None
  end.

(** [result[key] = v] on an array under construction, kept as its length
    and properties.  Assigning to ["length"] resizes the array and
    assigning to ["__proto__"] runs the inherited setter; neither creates
    a property, and both are left out. *)
Definition Array_set (result : nat * properties) (key v : value)
  : BufferReader.action (nat * properties) :=
  match ToPropertyKey key with
  | None => stuck NotModelled
  | Some k =>
      if jsstring_eqb k (str "length") || jsstring_eqb k (str "__proto__")
      then stuck NotModelled
      else
        let length :=
          match array_index k with
          | Some i => Nat.max (fst result) (S (Z.to_nat i))
          | None => fst result
          end in
        BufferReader.ret (length, set_property (snd result) k v)
  end.

(** [result.push(v)] *)
Definition Array_push (result : nat * properties) (v : value)
  : nat * properties :=
  (S (fst result), set_property (snd result) (index_key (fst result)) v).

(** [result[key] = v] on a plain object.  Assigning to ["__proto__"]
    runs the inherited setter and creates no property; it is left out. *)
Definition Object_set (result : properties) (key v : value)
  : BufferReader.action properties :=
  match ToPropertyKey key with
  | None => stuck NotModelled
  | Some k =>
      if jsstring_eqb k (str "__proto__") then stuck NotModelled
      else BufferReader.ret (set_property result k v)
  end.

(** *** Sources of patterns *)

(** The characters a pattern gives a meaning of their own,
    [^ $ \ . * + ? ( ) [ ] { } |], the slash, and the line breaks. *)
Definition special_chars : list Z :=
  [0x5E; 0x24; 0x5C; 0x2E; 0x2A; 0x2B; 0x3F; 0x28; 0x29; 0x5B; 0x5D; 0x7B;
   0x7D; 0x7C; 0x2F; 0x0A; 0x0D].

(** An ordinary character of a pattern: one byte, none of the above. *)
Definition plain_char (c : Z) : bool :=
  (0 <=? c) && (c <=? 0xFF) && negb (existsb (Z.eqb c) special_chars).

Definition plain_source (pattern : jsstring) : bool :=
  match pattern with
  | [] => false
  | _ => forallb plain_char pattern
  end.

Section Decode.

(** [serializer.fromBufferInternal], as the functions below call it, and
    the number of rounds a loop may take. *)
Variable fromBufferInternal : BufferReader.action value.
Variable rounds : nat.

(** [while (buffReader.peek() !== 0x21) { body }] *)
Fixpoint untilEnd {A} (n : nat) (body : A -> BufferReader.action A) (acc : A)
  : BufferReader.action A :=
  match n with
  | O => stuck OutOfFuel
  | S n' =>
      let* b := BufferReader.peek in
      if b =? 0x21 then BufferReader.ret acc
      else let* acc' := body acc in untilEnd n' body acc'
  end.

Definition fromBufferInternalArrayDense : BufferReader.action value :=
  let* result :=
    untilEnd rounds
      (fun result => let* v := fromBufferInternal in
                     BufferReader.ret (Array_push result v))
      (O, []) in
  let* _ := BufferReader.skip in
  BufferReader.ret (VArray (fst result) (snd result)).

Definition fromBufferInternalArraySparse : BufferReader.action value :=
  let* result :=
    untilEnd rounds
      (fun result => let* key := fromBufferInternal in
                     let* v := fromBufferInternal in
                     Array_set result key v)
      (O, []) in
  let* _ := BufferReader.skip in
  BufferReader.ret (VArray (fst result) (snd result)).

Definition fromBufferInternalObjectDateD : BufferReader.action value :=
  let* s := BufferReader.uint32 in
  let seconds := s * 1000 in
  let* ms := BufferReader.uint16 in
  BufferReader.ret (VDate (seconds + ms)).

Definition fromBufferInternalObjectDateT : BufferReader.action value :=
  let* s := BufferReader.uint32 in
  BufferReader.ret (VDate (s * 1000)).

Definition fromBufferInternalObjectGeneric : BufferReader.action value :=
  let* result :=
    untilEnd rounds
      (fun result => let* key := fromBufferInternal in
                     let* v := fromBufferInternal in
                     Object_set result key v)
      [] in
  let* _ := BufferReader.skip in
  BufferReader.ret (VObject "Object" result).

Fixpoint findHelper (helpers : list helper) (wanted : jsstring)
  : BufferReader.action value :=
  match helpers with
  | [] => BufferReader.throw (HelperNotDefined wanted)
  | helper :: rest =>
      if jsstring_eqb (name helper) wanted
      then fromBufferFn helper fromBufferInternal
      else findHelper rest wanted
  end.

Definition fromBufferInternalObjectHelper (helpers : list helper)
  : BufferReader.action value :=
  let* n := BufferReader.size in
  let* wanted := BufferReader.string n in
  findHelper helpers wanted.

(** [new RegExp(pattern, patternFlags)] on a source made of ordinary
    characters only: the pattern is valid and its [source] is the text it
    was built from.  Any other source may be refused with a syntax error
    or come back rewritten (an empty one, a slash, a line break); that is
    not part of the embedding. *)
Definition fromBufferInternalObjectRegExp : BufferReader.action value :=
  let* n := BufferReader.size in
  let* pattern := BufferReader.string n in
  let* flags := BufferReader.uint8 in
  if plain_source pattern
  then BufferReader.ret
         (VRegExp pattern (BufferReader.bit_set flags 0x01)
                  (BufferReader.bit_set flags 0x02)
                  (BufferReader.bit_set flags 0x04) [])
  else stuck NotModelled.

End Decode.

(** [BufferSerializer.prototype.fromBufferInternal] *)
Fixpoint fromBufferInternal (fuel : nat) (serializer : BufferSerializer)
  : BufferReader.action value :=
  match fuel with
  | O => stuck OutOfFuel
  | S fuel' =>
      let self := fromBufferInternal fuel' serializer in
      let* code := BufferReader.uint8 in
      match code with
      | 0x2B => let* v := BufferReader.uint8 in
                BufferReader.ret (VNumber (Number.of_Z v))
      | 0x2D => let* v := BufferReader.uint8 in
                BufferReader.ret (VNumber (Number.neg (Number.of_Z v)))
      | 0x41 => fromBufferInternalArraySparse self fuel'
      | 0x42 => let* n := BufferReader.size in
                let* b := BufferReader.buffer n in
                BufferReader.ret (VBuffer b)
      | 0x44 => fromBufferInternalObjectDateD
      | 0x49 => let* v := BufferReader.uint32 in
                BufferReader.ret (VNumber (Number.neg (Number.of_Z v)))
      | 0x4f => fromBufferInternalObjectGeneric self fuel'
      | 0x50 => let* v := BufferReader.uint32 in
                BufferReader.ret (VNumber (Number.of_Z v))
      | 0x52 => fromBufferInternalObjectRegExp
      | 0x54 => fromBufferInternalObjectDateT
      | 0x5A => fromBufferInternalObjectHelper self (helpers serializer)
      | 0x61 => fromBufferInternalArrayDense self fuel'
      | 0x64 => let* v := BufferReader.double in
                BufferReader.ret (VNumber v)
      | 0x66 => BufferReader.ret (VBoolean false)
      | 0x69 => let* v := BufferReader.uint16 in
                BufferReader.ret (VNumber (Number.neg (Number.of_Z v)))
      | 0x6e => BufferReader.ret VNull
      | 0x70 => let* v := BufferReader.uint16 in
                BufferReader.ret (VNumber (Number.of_Z v))
      | 0x73 => let* n := BufferReader.size in
                let* s := BufferReader.string n in
                BufferReader.ret (VString s)
      | 0x74 => BufferReader.ret (VBoolean true)
      | _ => BufferReader.throw (UnknownCode code)
      end
  end.

(** [BufferSerializer.prototype.fromBuffer]: the value
    [fromBufferInternal] returns is returned as it is.  Every nested value
    takes at least its tag byte and every round of a loop at least one
    byte, so the length of the buffer bounds the recursion. *)
Definition fromBuffer (serializer : BufferSerializer) (buff : Buffer)
    (offset : nat) : result value :=
  match NodeBuffer.index buff offset with
  | Some 0 =>
      let buffReader := BufferReader.new buff (offset + 1) in
      bind (fromBufferInternal (List.length buff) serializer buffReader)
           (fun p => Ok (fst p))
  | _ => Throw InvalidVersion
  end.

(** ** Notions used to state the properties *)

(** An action of the writer appends exactly [bytes] to what was written. *)
Definition writes (a : BufferWriter.action) (bytes : Buffer) : Prop :=
  forall w, exists w',
    a w = Ok w' /\ BufferWriter.toBuffer w' = BufferWriter.toBuffer w ++ bytes.

(** An action of the reader consumes exactly [bytes], wherever they sit in
    the buffer, and returns [a]. *)
Definition reads {A} (m : BufferReader.action A) (bytes : Buffer) (a : A) : Prop :=
  forall pre post,
    m (BufferReader.new (pre ++ bytes ++ post) (List.length pre))
    = Ok (a, BufferReader.new (pre ++ bytes ++ post)
                              (List.length pre + List.length bytes)).

(** Big-endian bytes of an unsigned integer. *)
Fixpoint big_endian (width : nat) (z : Z) : Buffer :=
  match width with
  | O => []
  | S width' => big_endian width' (z / 256) ++ [z mod 256]
  end.

(** The bytes of a size value, as the writer lays them out. *)
Definition size_bytes (n : Z) : Buffer :=
  if n <? 0x7F then [n]
  else if n <? 0x3FFF then big_endian 2 (n + 0x8000)
  else big_endian 4 (n + 0xC0000000).

(** An array with a property at every index and nothing else: the array
    literal [[x0, x1, ...]]. *)
Definition dense (l : list value) : value :=
  VArray (List.length l) (combine (map index_key (seq 0 (List.length l))) l).

(** No registered helper accepts the value. *)
Definition unclaimed (serializer : BufferSerializer) (thing : value) : bool :=
  forallb (fun h => negb (checkFn h thing)) (helpers serializer).

(** The first helper, in registration order, whose predicate accepts. *)
Definition first_match (serializer : BufferSerializer) (thing : value)
  : option helper :=
  find (fun h => checkFn h thing) (helpers serializer).

(** Code units of a string are 16 bits wide. *)
Definition is_code_unit (c : Z) : bool := (0 <=? c) && (c <=? 0xFFFF).

Definition is_latin1 (c : Z) : bool := (0 <=? c) && (c <=? 0xFF).

(** What [toBufferInternalObject] writes for a value a helper accepts. *)
Definition extension_record (self : value -> BufferWriter.action)
    (h : helper) (thing : value) : BufferWriter.action :=
  BufferWriter.uint8 0x5A ;;
  BufferWriter.size (Z.of_nat (List.length (name h))) ;;
  BufferWriter.string (name h) ;;
  toBufferFn h self thing.

(** A serializer with one helper, named "any", that accepts every value
    and writes nothing for it. *)
Definition accepts_all : helper :=
  {| checkFn := fun _ => true;
     fromBufferFn := fun _ => BufferReader.ret VNull;
     name := str "any";
     toBufferFn := fun _ _ => done |}.

Definition greedy : BufferSerializer :=
  register constructor (name accepts_all) (checkFn accepts_all)
           (toBufferFn accepts_all) (fromBufferFn accepts_all).

(** An action of the writer never runs out of the model's budget. *)
Definition steady (a : BufferWriter.action) : Prop :=
  forall w l, a w <> Stuck l.


Fixpoint depth_members (l : properties) : nat :=
  match l with
  | [] => O
  | (_, x) :: rest => Nat.max (depth x) (depth_members rest)
  end.

(** An action of the writer throws [e], whatever was written before. *)
Definition throws (a : BufferWriter.action) (e : error) : Prop :=
  forall w, a w = Throw e.

(** The bytes of a timestamp: tag D, seconds and milliseconds when the
    time has a millisecond part, tag T and seconds when it has none. *)
Definition date_bytes (time : Z) : Buffer :=
  if time mod 1000 =? 0
  then 0x54 :: big_endian 4 (time / 1000)
  else 0x44 :: big_endian 4 (time / 1000) ++ big_endian 2 (time mod 1000).

(** The bytes of a text value: tag s, the size of the text, and one byte
    per code unit holding its low 8 bits. *)
Definition string_bytes (thing : jsstring) : Buffer :=
  0x73 :: size_bytes (Z.of_nat (List.length thing))
       ++ map (fun c => c mod 256) thing.

(** The integer a number holds, when it is finite and has no fractional
    part. *)
Definition integer_value (x : Number.t) : option Z :=
  if Number.is_integer x then Some (Number.to_Z x) else None.

(** The bytes of a number: an integer of magnitude up to 32 bits takes the
    narrowest of the 8-, 16- and 32-bit tags for its sign, followed by its
    magnitude; every other number is tagged as a double. *)
Definition number_bytes (x : Number.t) : Buffer :=
  let double := 0x64 :: NodeBuffer.writeDoubleBE x in
  match integer_value x with
  | Some z =>
      if z <? 0 then
        if - z <=? 0xFF then [0x2D; - z]
        else if - z <=? 0xFFFF then 0x69 :: big_endian 2 (- z)
        else if - z <=? 0xFFFFFFFF then 0x49 :: big_endian 4 (- z)
        else double
      else
        if z <=? 0xFF then [0x2B; z]
        else if z <=? 0xFFFF then 0x70 :: big_endian 2 z
        else if z <=? 0xFFFFFFFF then 0x50 :: big_endian 4 z
        else double
  | None => double
  end.

(** The six integer codes of [fromBufferInternal], each with the bytes of
    its payload and whether it holds the negation of the payload. *)
Definition integer_codes : list (Z * nat * bool) :=
  [(0x2B, 1%nat, false); (0x2D, 1%nat, true); (0x70, 2%nat, false);
   (0x69, 2%nat, true); (0x50, 4%nat, false); (0x49, 4%nat, true)].

(** Negative zero: the one number that compares equal to another ([0])
    without being it. *)
Definition negative_zero (x : Number.t) : bool :=
  match x with
  | Number.Finite true 0 _ => true
  | _ => false
  end.

(** The bytes of a byte-blob and of a pattern. *)
Definition buffer_bytes (b : Buffer) : Buffer :=
  0x42 :: size_bytes (Z.of_nat (List.length b)) ++ b.



(** Text the size prefix and the one-byte-per-unit payload carry
    unchanged. *)
Definition latin1_text (s : jsstring) : bool :=
  forallb is_latin1 s && (Z.of_nat (List.length s) <? 0x1FFFFFFF).

(** Keys in the order [Object.keys] lists them: array indices first, in
    ascending order, then the other keys. *)
Fixpoint ordered_keys (lo : Z) (named : bool) (keys : list jsstring) : bool :=
  match keys with
  | [] => true
  | k :: rest =>
      match array_index k with
      | Some i => negb named && (lo <=? i) && ordered_keys (i + 1) false rest
      | None => ordered_keys lo true rest
      end
  end.

Definition own_key_order (keys : list jsstring) : bool :=
  ordered_keys 0 false keys.

(** A key that comes back as it was: Latin-1 text, and when it looks like
    an index, a number below [2^53]. *)
Definition key_ok (k : jsstring) : bool :=
  latin1_text k && (if looks_like_index k then parse_decimal k <? 2 ^ 53 else true).

Definition key_bytes (k : jsstring) : Buffer :=
  if looks_like_index k then number_bytes (Number.of_Z (parse_decimal k))
  else string_bytes k.

(** The length an array has once its index properties are assigned. *)
Definition implied_length (keys : list jsstring) : nat :=
  fold_left (fun len k => match array_index k with
                          | Some i => Nat.max len (S (Z.to_nat i))
                          | None => len
                          end) keys O.

(** Bytes that start with a tag, not with the terminator. *)
Definition tagged (bytes : Buffer) : Prop :=
  exists t rest, bytes = t :: rest /\ t <> 0x21.

(** The quick check of [toBufferInternalArray]. *)
Definition is_dense (length : nat) (props : properties) : bool :=
  Nat.eqb (List.length (Object_keys props)) length
  && negb (existsb (fun i => is_undefined (get props (index_key i)))
                   (seq 0 length)).

(** The rounds of a decoding loop: with the members in [done] read, the
    body reads the bytes of the next member and reaches the state for
    [done] and that member. *)
Fixpoint steps {A X} (state : list X -> A) (body : A -> BufferReader.action A)
    (done todo : list X) (chunks : list Buffer) : Prop :=
  match todo, chunks with
  | [], [] => True
  | x :: todo', b :: chunks' =>
      tagged b
      /\ reads (body (state done)) b (state (done ++ [x]))
      /\ steps state body (done ++ [x]) todo' chunks'
  | _, _ => False
  end.

(** [bytes] is the encoding of [v]: it starts with a tag, the encoder
    writes it given fuel beyond the value's depth, and the decoder reads
    the value back given fuel for its bytes. *)
Definition encoding (s : BufferSerializer) (v : value) (bytes : Buffer) : Prop :=
  tagged bytes
  /\ (forall fuel, (S (depth v) < fuel)%nat ->
                   writes (toBufferInternal fuel s v) bytes)
  /\ (forall fuel, (List.length bytes <= fuel)%nat ->
                   reads (fromBufferInternal fuel s) bytes v).

Definition object_kind (v : value) : bool :=
  match v with
  | VBuffer _ | VDate _ | VInvalidDate | VRegExp _ _ _ _ _ | VObject _ _ => true
  | _ => false
  end.

(** Keys of a container that come back in place: distinct, in own-key
    order, each one a key that survives, none the [reserved] name. *)
Definition keys_ok (reserved : jsstring) (props : properties) : Prop :=
  NoDup (Object_keys props)
  /\ own_key_order (Object_keys props) = true
  /\ Forall (fun k => key_ok k = true /\ k <> reserved) (Object_keys props).


(** The properties of the array literal of [l], counted from index [a]. *)
Definition props_from (a : nat) (l : list value) : properties :=
  combine (map index_key (seq a (List.length l))) l.

(** What a dense-array decoding loop holds after reading [done]. *)
Definition dense_state (done : list value) : nat * properties :=
  (List.length done, props_from 0 done).

(** What a sparse-array decoding loop holds after assigning [done]. *)
Definition sparse_state (done : properties) : nat * properties :=
  (implied_length (Object_keys done), done).

(** The chunks of a key/value stream: each key followed by its value. *)
Fixpoint pair_chunks (props : properties) (chunks : list Buffer) : list Buffer :=
  match props, chunks with
  | (k, _) :: props', b :: chunks' => (key_bytes k ++ b) :: pair_chunks props' chunks'
  | _, _ => []
  end.

(** The helper of the package's tests: instances of a class [Klass] are
    written as the size held in their property [val]. *)
Definition is_Klass (thing : value) : bool :=
  match thing with
  | VObject class _ => String.eqb class "Klass"
  | _ => false
  end.

Definition Klass (val : Z) : value :=
  VObject "Klass" [(str "val", VNumber (Number.of_Z val))].

Definition getVal (thing : value) : Z :=
  match thing with
  | VObject _ props =>
      match get props (str "val") with
      | VNumber n => Number.to_Z n
      | _ => 0
      end
  | _ => 0
  end.

Definition with_Klass : BufferSerializer :=
  register constructor (str "Klass") is_Klass
    (fun _ thing => BufferWriter.size (getVal thing))
    (fun _ => let* n := BufferReader.size in BufferReader.ret (Klass n)).


(** ** Notions used for the further properties *)

(** The outcome [r] of writing into a fresh writer, seen from a writer that
    already holds output: what was written comes after that output. *)
Definition onto (w : BufferWriter.t) (r : result BufferWriter.t)
  : result BufferWriter.t :=
  bind r (fun w1 => Ok {| BufferWriter.bufferList :=
                            BufferWriter.bufferList w ++ BufferWriter.bufferList w1 |}).

(** An action of the writer only appends: on any writer it does what it
    does on a fresh one, after the output already there. *)
Definition appends (a : BufferWriter.action) : Prop :=
  forall w, a w = onto w (a BufferWriter.new).

(** Every helper's [toBufferFn] only appends, when the [toBufferInternal]
    it may call does. *)
Definition helpers_append (s : BufferSerializer) : Prop :=
  Forall (fun h => forall self thing,
                     (forall v, appends (self v)) -> appends (toBufferFn h self thing))
         (helpers s).

(** The errors encoding can end in. *)
Definition encode_error (e : error) : bool :=
  match e with
  | InvalidType type =>
      String.eqb type "undefined" || String.eqb type "bigint"
      || String.eqb type "symbol" || String.eqb type "function"
  | RangeError | SizeTooLarge _ => true
  | _ => false
  end.

(** The type codes a value of each kind can be written under by the
    built-in encoders. *)
Definition tags (thing : value) : list Z :=
  match thing with
  | VNull => [0x6E]
  | VBoolean b => [if b then 0x74 else 0x66]
  | VNumber _ => [0x2B; 0x2D; 0x70; 0x69; 0x50; 0x49; 0x64]
  | VString _ => [0x73]
  | VBuffer _ => [0x42]
  | VDate _ => [0x44; 0x54]
  | VInvalidDate => [0x54]
  | VRegExp _ _ _ _ _ => [0x52]
  | VArray _ _ => [0x61; 0x41]
  | VObject _ _ => [0x4F]
  | VUndefined | VBigInt _ | VSymbol | VFunction => []
  end.

(** An action of the writer throws nothing but the errors of encoding. *)
Definition only_encode_errors (a : BufferWriter.action) : Prop :=
  forall w e, a w = Throw e -> encode_error e = true.

(** The type codes [fromBufferInternal] knows. *)
Definition type_codes : list Z :=
  [0x2B; 0x2D; 0x41; 0x42; 0x44; 0x49; 0x4F; 0x50; 0x52; 0x54; 0x5A; 0x61;
   0x64; 0x66; 0x69; 0x6E; 0x70; 0x73; 0x74].

(** Negative zero. *)
Definition minus_zero : Number.t := Number.Finite true 0 (-1074).

(** The number a negative integer code holds for the payload [v]. *)
Definition negated (v : Z) : Number.t :=
  if v =? 0 then minus_zero else Number.of_Z (- v).

(** The errors decoding can end in. *)
Definition decode_error (e : error) : bool :=
  match e with
  | InvalidVersion | RangeError | UnexpectedEndOfStream
  | InvalidSize _ | UnknownCode _ | HelperNotDefined _ => true
  | _ => false
  end.

(** A buffer holds octets. *)
Definition is_octet (b : Z) : bool := (0 <=? b) && (b <=? 0xFF).

(** The bytes between the reader's cursor and the end of its buffer. *)
Definition remaining (r : BufferReader.t) : nat :=
  List.length (BufferReader.readBuffer r) - BufferReader.offset r.

(** How an action of the reader ends, from the reader [r]: with a result
    that satisfies [Q], the same buffer and at least [k] bytes fewer left;
    or with an error of decoding; or at a conversion that is not part of
    the embedding.  It does not use up the recursion budget. *)
Definition outcome {A} (k : nat) (Q : A -> Prop) (m : BufferReader.action A)
    (r : BufferReader.t) : Prop :=
  match m r with
  | Ok (a, r') =>
      BufferReader.readBuffer r' = BufferReader.readBuffer r
      /\ (remaining r' + k <= remaining r)%nat
      /\ Q a
  | Throw e => decode_error e = true
  | Stuck l => l = NotModelled
  end.

(** The reader's buffer holds octets. *)
Definition octets (r : BufferReader.t) : Prop :=
  forallb is_octet (BufferReader.readBuffer r) = true.

(** A helper that hands the serializer a value nested deeper than the
    object it was given: an instance of [Klass] is written as the list
    [[[val]]] and read back from it. *)
Definition unbox (l : value) : Z :=
  match l with
  | VArray _ [(_, VArray _ [(_, VNumber n)])] => Number.to_Z n
  | _ => 0
  end.

Definition boxed : BufferSerializer :=
  register constructor (str "Box") is_Klass
    (fun self thing => self (dense [dense [VNumber (Number.of_Z (getVal thing))]]))
    (fun self => let* l := self in BufferReader.ret (Klass (unbox l))).

(** * Properties *)

(** ** Bytes and bit masks *)

Lemma land_byte (a : Z) : Z.land a 0xFF = a mod 256.
Proof. change 0xFF with (Z.ones 8). rewrite Z.land_ones by lia. reflexivity. Qed.

Lemma shiftr_div (a k : Z) : 0 <= k -> Z.shiftr a k = a / 2 ^ k.
Proof. intros. apply Z.shiftr_div_pow2; assumption. Qed.

Lemma land_pow2 (a k : Z) :
  0 <= k -> Z.land a (2 ^ k) = if Z.testbit a k then 2 ^ k else 0.
Proof.
  intros Hk. apply Z.bits_inj'. intros n Hn.
  rewrite Z.land_spec, Z.pow2_bits_eqb by assumption.
  destruct (Z.eqb_spec k n) as [->|Hne].
  - destruct (Z.testbit a n) eqn:E; rewrite ?E.
    + rewrite Z.pow2_bits_true by assumption. reflexivity.
    + rewrite Z.bits_0. reflexivity.
  - rewrite andb_false_r. destruct (Z.testbit a k).
    + rewrite Z.pow2_bits_false by lia. reflexivity.
    + rewrite Z.bits_0. reflexivity.
Qed.

Lemma bit_set_pow2 (a k : Z) :
  0 <= k -> BufferReader.bit_set a (2 ^ k) = Z.odd (a / 2 ^ k).
Proof.
  intros Hk. unfold BufferReader.bit_set. rewrite land_pow2 by assumption.
  rewrite Z.testbit_odd, shiftr_div by assumption.
  destruct (Z.odd (a / 2 ^ k)).
  - assert (0 < 2 ^ k) by (apply Z.pow_pos_nonneg; lia).
    destruct (Z.eqb_spec (2 ^ k) 0); [lia | reflexivity].
  - reflexivity.
Qed.

Lemma bit_set_0x80 (a : Z) : BufferReader.bit_set a 0x80 = Z.odd (a / 128).
Proof. apply (bit_set_pow2 a 7). lia. Qed.

Lemma bit_set_0x40 (a : Z) : BufferReader.bit_set a 0x40 = Z.odd (a / 64).
Proof. apply (bit_set_pow2 a 6). lia. Qed.

Lemma bit_set_0x20 (a : Z) : BufferReader.bit_set a 0x20 = Z.odd (a / 32).
Proof. apply (bit_set_pow2 a 5). lia. Qed.

Lemma lor_disjoint (a k : Z) :
  0 <= a < 2 ^ k -> 0 <= k -> Z.lor a (2 ^ k) = a + 2 ^ k.
Proof.
  intros Ha Hk.
  assert (Z.land a (2 ^ k) = 0) as Hland.
  { rewrite land_pow2 by assumption.
    destruct (Z.eq_dec a 0) as [->|Hne]; [rewrite Z.bits_0; reflexivity|].
    rewrite Z.bits_above_log2; [reflexivity | lia |].
    apply Z.log2_lt_pow2; lia. }
  rewrite <- Z.lxor_lor by assumption.
  symmetry. apply Z.add_nocarry_lxor. assumption.
Qed.

Lemma be_snoc (l : Buffer) (b : Z) : NodeBuffer.be (l ++ [b]) = NodeBuffer.be l * 256 + b.
Proof. unfold NodeBuffer.be. rewrite fold_left_app. reflexivity. Qed.

Lemma big_endian_length (n : nat) (z : Z) : List.length (big_endian n z) = n.
Proof.
  revert z. induction n as [|n IH]; intros z; simpl; [reflexivity|].
  rewrite length_app, IH. simpl. lia.
Qed.

Lemma be_big_endian (n : nat) (z : Z) :
  0 <= z -> NodeBuffer.be (big_endian n z) = z mod 256 ^ Z.of_nat n.
Proof.
  revert z. induction n as [|n IH]; intros z Hz.
  - simpl. rewrite Z.mod_1_r. reflexivity.
  - cbn [big_endian]. rewrite be_snoc, IH by (apply Z.div_pos; lia).
    assert (0 < 256 ^ Z.of_nat n) by (apply Z.pow_pos_nonneg; lia).
    rewrite Nat2Z.inj_succ, Z.pow_succ_r by lia.
    rewrite Z.rem_mul_r by lia. lia.
Qed.

Lemma writeUInt8_spec (v : Z) :
  0 <= v <= 0xFF -> NodeBuffer.writeUInt8 v = Ok (big_endian 1 v).
Proof.
  intros H. unfold NodeBuffer.writeUInt8, NodeBuffer.in_range.
  replace ((0 <=? v) && (v <=? 255)) with true by lia.
  cbn [big_endian app]. rewrite Z.mod_small by lia. reflexivity.
Qed.

Lemma writeUInt16BE_spec (v : Z) :
  0 <= v <= 0xFFFF -> NodeBuffer.writeUInt16BE v = Ok (big_endian 2 v).
Proof.
  intros H. unfold NodeBuffer.writeUInt16BE, NodeBuffer.in_range.
  replace ((0 <=? v) && (v <=? 65535)) with true by lia.
  cbn [big_endian app]. rewrite land_byte, shiftr_div by lia. change (2 ^ 8) with 256.
  rewrite (Z.mod_small (v / 256)) by (split; [apply Z.div_pos | apply Z.div_lt_upper_bound]; lia).
  reflexivity.
Qed.

Lemma writeUInt32BE_spec (v : Z) :
  0 <= v <= 0xFFFFFFFF -> NodeBuffer.writeUInt32BE v = Ok (big_endian 4 v).
Proof.
  intros H. unfold NodeBuffer.writeUInt32BE, NodeBuffer.in_range.
  replace ((0 <=? v) && (v <=? 4294967295)) with true by lia.
  cbn [big_endian app]. rewrite !land_byte, !shiftr_div by lia.
  change (2 ^ 8) with 256. change (2 ^ 16) with (256 * 256).
  change (2 ^ 24) with (256 * 256 * 256).
  rewrite <- !Z.div_div by lia.
  rewrite (Z.mod_small (v / 256 / 256 / 256))
    by (split; [repeat apply Z.div_pos | repeat apply Z.div_lt_upper_bound]; lia).
  reflexivity.
Qed.

(** ** The writer: what each method appends *)

Lemma toBuffer_push (w : BufferWriter.t) (buff : Buffer) :
  BufferWriter.toBuffer {| BufferWriter.bufferList := BufferWriter.bufferList w ++ [buff] |}
  = BufferWriter.toBuffer w ++ buff.
Proof.
  unfold BufferWriter.toBuffer. simpl. rewrite concat_app. simpl.
  rewrite app_nil_r. reflexivity.
Qed.

Lemma writes_push (buff : Buffer) : writes (BufferWriter.push buff) buff.
Proof. intros w. eexists. split; [reflexivity | apply toBuffer_push]. Qed.

Lemma writes_done : writes done [].
Proof. intros w. exists w. split; [reflexivity | rewrite app_nil_r; reflexivity]. Qed.

Lemma writes_seq (a b : BufferWriter.action) (x y : Buffer) :
  writes a x -> writes b y -> writes (a ;; b) (x ++ y).
Proof.
  intros Ha Hb w. destruct (Ha w) as (w1 & E1 & B1).
  destruct (Hb w1) as (w2 & E2 & B2). exists w2. split.
  - unfold BufferWriter.seq. rewrite E1. exact E2.
  - rewrite B2, B1, app_assoc. reflexivity.
Qed.

Lemma writes_buffer (buff : Buffer) : writes (BufferWriter.buffer buff) buff.
Proof. apply writes_push. Qed.

Lemma writes_string (s : jsstring) :
  writes (BufferWriter.string s) (NodeBuffer.from_binary s).
Proof. apply writes_push. Qed.

Lemma writes_double (x : Number.t) :
  writes (BufferWriter.double x) (NodeBuffer.writeDoubleBE x).
Proof. apply writes_push. Qed.

Lemma writes_uint8 (v : Z) : 0 <= v <= 0xFF -> writes (BufferWriter.uint8 v) [v].
Proof.
  intros H w. unfold BufferWriter.uint8. rewrite writeUInt8_spec by assumption.
  cbn [big_endian app bind]. rewrite Z.mod_small by lia. apply writes_push.
Qed.

Lemma writes_uint16 (v : Z) :
  0 <= v <= 0xFFFF -> writes (BufferWriter.uint16 v) (big_endian 2 v).
Proof.
  intros H w. unfold BufferWriter.uint16. rewrite writeUInt16BE_spec by assumption.
  apply writes_push.
Qed.

Lemma writes_uint32 (v : Z) :
  0 <= v <= 0xFFFFFFFF -> writes (BufferWriter.uint32 v) (big_endian 4 v).
Proof.
  intros H w. unfold BufferWriter.uint32. rewrite writeUInt32BE_spec by assumption.
  apply writes_push.
Qed.

Lemma writes_size (n : Z) :
  0 <= n < 0x1FFFFFFF -> writes (BufferWriter.size n) (size_bytes n).
Proof.
  intros H. unfold BufferWriter.size, size_bytes.
  destruct (Z.ltb_spec n 0); [lia|].
  destruct (Z.ltb_spec n 0x7F); [apply writes_uint8; lia|].
  destruct (Z.ltb_spec n 0x3FFF).
  - change 0x8000 with (2 ^ 15). rewrite lor_disjoint by lia.
    apply writes_uint16. lia.
  - destruct (Z.ltb_spec n 0x1FFFFFFF); [|lia]. apply writes_uint32. lia.
Qed.

(** ** The reader: what each method consumes *)

Lemma slice_middle (pre bytes post : Buffer) :
  NodeBuffer.slice (pre ++ bytes ++ post) (List.length pre)
                   (List.length pre + List.length bytes) = bytes.
Proof.
  unfold NodeBuffer.slice.
  rewrite skipn_app, skipn_all, Nat.sub_diag. simpl.
  replace (List.length pre + List.length bytes - List.length pre)%nat
    with (List.length bytes + 0)%nat by lia.
  rewrite firstn_app_2. simpl. apply app_nil_r.
Qed.

Lemma index_middle (pre post : Buffer) (b : Z) :
  NodeBuffer.index (pre ++ b :: post) (List.length pre) = Some b.
Proof.
  unfold NodeBuffer.index. rewrite nth_error_app2 by lia.
  rewrite Nat.sub_diag. reflexivity.
Qed.

Lemma advance_new (buff : Buffer) (off : nat) (n : nat) :
  BufferReader.advance (BufferReader.new buff off) (Z.of_nat n)
  = BufferReader.new buff (off + n).
Proof.
  unfold BufferReader.advance, BufferReader.new. simpl. f_equal. lia.
Qed.

Lemma reads_ret {A} (a : A) : reads (BufferReader.ret a) [] a.
Proof.
  intros pre post. unfold BufferReader.ret. simpl. rewrite Nat.add_0_r. reflexivity.
Qed.

Lemma reads_bind {A B} (m : BufferReader.action A) (k : A -> BufferReader.action B)
    (x y : Buffer) (a : A) (b : B) :
  reads m x a -> reads (k a) y b -> reads (BufferReader.bind m k) (x ++ y) b.
Proof.
  intros Hm Hk pre post. unfold BufferReader.bind.
  rewrite <- app_assoc. rewrite (Hm pre (y ++ post)).
  specialize (Hk (pre ++ x) post).
  rewrite <- !app_assoc, length_app in Hk. rewrite Hk.
  rewrite length_app, Nat.add_assoc. reflexivity.
Qed.

Lemma reads_then_ret {A B} (m : BufferReader.action A) (f : A -> B)
    (x : Buffer) (a : A) :
  reads m x a -> reads (BufferReader.bind m (fun v => BufferReader.ret (f v))) x (f a).
Proof.
  intros Hm. rewrite <- (app_nil_r x).
  eapply reads_bind; [exact Hm | apply reads_ret].
Qed.

Lemma readUInt_middle (width : nat) (pre bytes post : Buffer) :
  List.length bytes = width ->
  NodeBuffer.readUInt width (pre ++ bytes ++ post) (List.length pre)
  = Ok (NodeBuffer.be bytes).
Proof.
  intros <-. unfold NodeBuffer.readUInt.
  rewrite slice_middle.
  replace (Nat.leb _ _) with true; [reflexivity|].
  symmetry. apply Nat.leb_le. rewrite !length_app. lia.
Qed.

Lemma reads_uint8 (b : Z) : reads BufferReader.uint8 [b] b.
Proof.
  intros pre post. unfold BufferReader.uint8. cbn [BufferReader.new BufferReader.readBuffer BufferReader.offset].
  unfold NodeBuffer.readUInt8. rewrite readUInt_middle by reflexivity.
  change (NodeBuffer.be [b]) with (0 * 256 + b). rewrite Z.mul_0_l, Z.add_0_l.
  change 1 with (Z.of_nat 1). rewrite (advance_new _ _ 1). reflexivity.
Qed.

Lemma reads_uint16 (v : Z) :
  0 <= v <= 0xFFFF -> reads BufferReader.uint16 (big_endian 2 v) v.
Proof.
  intros H pre post. unfold BufferReader.uint16.
  cbn [BufferReader.new BufferReader.readBuffer BufferReader.offset].
  unfold NodeBuffer.readUInt16BE.
  rewrite readUInt_middle by apply big_endian_length.
  rewrite be_big_endian by lia. rewrite Z.mod_small by (simpl; lia).
  change 2 with (Z.of_nat 2) at 1. rewrite (advance_new _ _ 2), big_endian_length.
  reflexivity.
Qed.

Lemma reads_uint32 (v : Z) :
  0 <= v <= 0xFFFFFFFF -> reads BufferReader.uint32 (big_endian 4 v) v.
Proof.
  intros H pre post. unfold BufferReader.uint32.
  cbn [BufferReader.new BufferReader.readBuffer BufferReader.offset].
  unfold NodeBuffer.readUInt32BE.
  rewrite readUInt_middle by apply big_endian_length.
  rewrite be_big_endian by lia. rewrite Z.mod_small by (simpl; lia).
  change 4 with (Z.of_nat 4) at 1. rewrite (advance_new _ _ 4), big_endian_length.
  reflexivity.
Qed.

Lemma reads_buffer (bytes : Buffer) :
  reads (BufferReader.buffer (Z.of_nat (List.length bytes))) bytes bytes.
Proof.
  intros pre post. unfold BufferReader.buffer.
  cbn [BufferReader.new BufferReader.readBuffer BufferReader.offset].
  rewrite <- Nat2Z.inj_add, Nat2Z.id, slice_middle, advance_new. reflexivity.
Qed.

Lemma reads_string (bytes : Buffer) :
  reads (BufferReader.string (Z.of_nat (List.length bytes))) bytes
        (NodeBuffer.toString_binary bytes).
Proof.
  intros pre post. unfold BufferReader.string.
  cbn [BufferReader.new BufferReader.readBuffer BufferReader.offset].
  rewrite <- Nat2Z.inj_add, Nat2Z.id, slice_middle, advance_new. reflexivity.
Qed.

Lemma peek_middle (pre post : Buffer) (b : Z) :
  BufferReader.peek (BufferReader.new (pre ++ b :: post) (List.length pre))
  = Ok (b, BufferReader.new (pre ++ b :: post) (List.length pre)).
Proof.
  unfold BufferReader.peek. cbn [BufferReader.new BufferReader.readBuffer BufferReader.offset].
  rewrite index_middle. reflexivity.
Qed.

Lemma peek_head (pre bytes post : Buffer) (b : Z) :
  hd_error bytes = Some b ->
  BufferReader.peek (BufferReader.new (pre ++ bytes ++ post) (List.length pre))
  = Ok (b, BufferReader.new (pre ++ bytes ++ post) (List.length pre)).
Proof.
  destruct bytes as [|b' rest]; [discriminate|]. intros [= ->].
  apply (peek_middle pre (rest ++ post) b).
Qed.

Lemma reads_size (n : Z) :
  0 <= n < 0x1FFFFFFF -> reads BufferReader.size (size_bytes n) n.
Proof.
  intros H pre post. unfold BufferReader.size, BufferReader.bind at 1, size_bytes.
  destruct (Z.ltb_spec n 0x7F) as [H1|H1].
  - rewrite (peek_head _ _ _ n) by reflexivity.
    rewrite bit_set_0x80, Z.div_small by lia. cbn [Z.odd negb].
    apply (reads_uint8 n pre post).
  - destruct (Z.ltb_spec n 0x3FFF) as [H2|H2].
    + assert (big_endian 2 (n + 0x8000) = [128 + n / 256; n mod 256]) as E.
      { cbn [big_endian app]. f_equal; [|f_equal].
        - replace (n + 32768) with (n + 128 * 256) by lia.
          rewrite Z.div_add by lia.
          rewrite Z.mod_small; [lia|].
          assert (0 <= n / 256 < 64)
            by (split; [apply Z.div_pos | apply Z.div_lt_upper_bound]; lia). lia.
        - replace (n + 32768) with (n + 128 * 256) by lia.
          apply Z.mod_add. lia. }
      assert (0 <= n / 256 < 64) as Hq
        by (split; [apply Z.div_pos | apply Z.div_lt_upper_bound]; lia).
      rewrite (peek_head _ _ _ (128 + n / 256)) by (rewrite E; reflexivity).
      rewrite bit_set_0x80, bit_set_0x40.
      replace ((128 + n / 256) / 128) with 1
        by (apply Z.div_unique with (r := n / 256); lia).
      replace ((128 + n / 256) / 64) with 2
        by (apply Z.div_unique with (r := n / 256); lia).
      cbn [Z.odd negb].
      rewrite (reads_then_ret BufferReader.uint16 (fun v => Z.land v 16383) _ _
                 (reads_uint16 (n + 32768) ltac:(lia)) pre post).
      do 2 f_equal.
      change 16383 with (Z.ones 14). rewrite Z.land_ones by lia.
      replace (n + 32768) with (n + 2 * 2 ^ 14) by lia.
      rewrite Z.mod_add by lia. rewrite Z.mod_small; lia.
    + set (q := n / 2 ^ 24).
      assert (0 <= q < 32) as Hq
        by (subst q; split; [apply Z.div_pos | apply Z.div_lt_upper_bound]; lia).
      assert (exists rest, big_endian 4 (n + 0xC0000000) = (192 + q) :: rest) as (rest & E).
      { cbn [big_endian app]. eexists. f_equal.
        rewrite !Z.div_div by lia. change (256 * (256 * 256)) with (2 ^ 24).
        replace (n + 3221225472) with (n + 192 * 2 ^ 24) by lia.
        rewrite Z.div_add by lia. fold q. rewrite Z.mod_small; lia. }
      rewrite (peek_head _ _ _ (192 + q)) by (rewrite E; reflexivity).
      rewrite bit_set_0x80, bit_set_0x40, bit_set_0x20.
      replace ((192 + q) / 128) with 1
        by (apply Z.div_unique with (r := 64 + q); lia).
      replace ((192 + q) / 64) with 3
        by (apply Z.div_unique with (r := q); lia).
      replace ((192 + q) / 32) with 6
        by (apply Z.div_unique with (r := q); lia).
      cbn [Z.odd negb].
      rewrite (reads_then_ret BufferReader.uint32 (fun v => Z.land v 536870911) _ _
                 (reads_uint32 (n + 3221225472) ltac:(lia)) pre post).
      do 2 f_equal.
      change 536870911 with (Z.ones 29). rewrite Z.land_ones by lia.
      replace (n + 3221225472) with (n + 6 * 2 ^ 29) by lia.
      rewrite Z.mod_add by lia. rewrite Z.mod_small; lia.
Qed.

(** ** Decimal keys *)

Lemma jsstring_eqb_eq (a b : jsstring) : jsstring_eqb a b = true <-> a = b.
Proof.
  revert b. induction a as [|x a IH]; intros [|y b]; simpl; split;
    try congruence; try discriminate.
  - intros H. apply andb_prop in H as [H1 H2].
    apply Z.eqb_eq in H1. apply IH in H2. congruence.
  - intros [= -> ->]. rewrite Z.eqb_refl. simpl. apply IH. reflexivity.
Qed.

Lemma jsstring_eqb_refl (a : jsstring) : jsstring_eqb a a = true.
Proof. apply jsstring_eqb_eq. reflexivity. Qed.

Lemma jsstring_eqb_neq (a b : jsstring) : a <> b -> jsstring_eqb a b = false.
Proof.
  intros H. destruct (jsstring_eqb a b) eqn:E; [|reflexivity].
  apply jsstring_eqb_eq in E. contradiction.
Qed.

Lemma parse_snoc (s : jsstring) (d : Z) :
  parse_decimal (s ++ [d]) = parse_decimal s * 10 + (d - 48).
Proof. unfold parse_decimal. rewrite fold_left_app. reflexivity. Qed.

Lemma parse_single (c : Z) : parse_decimal [c] = c - 48.
Proof. unfold parse_decimal. cbn [fold_left]. lia. Qed.

Lemma is_digit_spec (c : Z) : is_digit c = true <-> 48 <= c <= 57.
Proof. unfold is_digit. lia. Qed.

(** A key that looks like an index: digits only, not empty, and no
    leading zero unless it is the single digit 0. *)
Lemma looks_like_index_spec (s : jsstring) :
  looks_like_index s = true <->
  s <> [] /\ forallb is_digit s = true
  /\ (hd 0 s <> 48 \/ List.length s = 1%nat).
Proof.
  destruct s as [|c [|c' rest]].
  - simpl. split; [discriminate | intros (H & _); contradiction].
  - cbn [looks_like_index forallb hd List.length]. rewrite andb_true_r.
    split; [intros H; repeat split; [discriminate | assumption | now right]
           | intros (_ & H & _); assumption].
  - cbn [looks_like_index hd List.length].
    change (forallb is_digit (c :: c' :: rest))
      with (is_digit c && forallb is_digit (c' :: rest)).
    unfold is_digit at 2. split.
    + intros H. apply andb_prop in H as [H1 H2]. repeat split.
      * discriminate.
      * rewrite H2, andb_true_r. lia.
      * left. lia.
    + intros (_ & H & [Hh | Hl]); [|discriminate].
      apply andb_prop in H as [H1 H2]. rewrite H2, andb_true_r. lia.
Qed.

Lemma fold_digits_lower (r : jsstring) (a : Z) :
  forallb is_digit r = true -> 1 <= a ->
  a * 10 ^ Z.of_nat (List.length r)
  <= fold_left (fun acc c => acc * 10 + (c - 48)) r a.
Proof.
  revert a. induction r as [|c r IH]; intros a Hd Ha.
  - simpl. lia.
  - cbn [forallb] in Hd. apply andb_prop in Hd as [Hc Hr].
    apply is_digit_spec in Hc. cbn [fold_left List.length].
    rewrite Nat2Z.inj_succ, Z.pow_succ_r by lia.
    specialize (IH (a * 10 + (c - 48)) Hr ltac:(lia)).
    assert (0 < 10 ^ Z.of_nat (List.length r)) by (apply Z.pow_pos_nonneg; lia).
    nia.
Qed.

Lemma parse_nonneg (s : jsstring) :
  forallb is_digit s = true -> 0 <= parse_decimal s.
Proof.
  induction s as [|d s IH] using rev_ind; intros H.
  - simpl. unfold parse_decimal. simpl. lia.
  - rewrite forallb_app in H. apply andb_prop in H as [H1 H2].
    cbn [forallb] in H2. rewrite andb_true_r in H2. apply is_digit_spec in H2.
    rewrite parse_snoc. specialize (IH H1). lia.
Qed.

Lemma parse_lower (s : jsstring) :
  forallb is_digit s = true -> s <> [] -> hd 0 s <> 48 ->
  10 ^ (Z.of_nat (List.length s) - 1) <= parse_decimal s.
Proof.
  destruct s as [|c r]; [contradiction|]. intros Hd _ Hh.
  cbn [forallb] in Hd. apply andb_prop in Hd as [Hc Hr].
  apply is_digit_spec in Hc. cbn [hd] in Hh.
  unfold parse_decimal. cbn [fold_left List.length].
  replace (Z.of_nat (S (List.length r)) - 1) with (Z.of_nat (List.length r)) by lia.
  pose proof (fold_digits_lower r (0 * 10 + (c - 48)) Hr ltac:(lia)).
  assert (0 < 10 ^ Z.of_nat (List.length r)) by (apply Z.pow_pos_nonneg; lia).
  nia.
Qed.

Lemma digits_parse (s : jsstring) :
  forallb is_digit s = true -> s <> [] ->
  (hd 0 s <> 48 \/ List.length s = 1%nat) ->
  forall fuel acc, (List.length s <= fuel)%nat ->
    Number.digits fuel (parse_decimal s) acc = s ++ acc.
Proof.
  induction s as [|d s IH] using rev_ind; intros Hd Hne Hh fuel acc Hf;
    [contradiction|].
  rewrite forallb_app in Hd. apply andb_prop in Hd as [Hs Hdd].
  cbn [forallb] in Hdd. rewrite andb_true_r in Hdd. apply is_digit_spec in Hdd.
  rewrite length_app in Hf. cbn [List.length] in Hf.
  destruct fuel as [|fuel]; [lia|].
  rewrite parse_snoc. cbn [Number.digits].
  destruct s as [|c r].
  - change (parse_decimal []) with 0.
    replace (0 * 10 + (d - 48)) with (d - 48) by lia.
    rewrite Z.mod_small by lia.
    destruct (Z.ltb_spec (d - 48) 10); [|lia].
    cbn [app]. f_equal. lia.
  - assert (hd 0 (c :: r) <> 48) as Hc.
    { destruct Hh as [Hh | Hh]; [exact Hh|].
      rewrite length_app in Hh. cbn [List.length] in Hh. lia. }
    pose proof (parse_lower (c :: r) Hs ltac:(discriminate) Hc) as Hlow.
    assert (1 <= parse_decimal (c :: r)) as Hone.
    { assert (0 < 10 ^ (Z.of_nat (List.length (c :: r)) - 1))
        by (apply Z.pow_pos_nonneg; cbn [List.length]; lia). lia. }
    replace ((parse_decimal (c :: r) * 10 + (d - 48)) mod 10) with (d - 48)
      by (rewrite Z.add_comm, Z.mod_add by lia; rewrite Z.mod_small; lia).
    replace ((parse_decimal (c :: r) * 10 + (d - 48)) / 10)
      with (parse_decimal (c :: r))
      by (rewrite Z.add_comm, Z.div_add by lia; rewrite Z.div_small; lia).
    destruct (Z.ltb_spec (parse_decimal (c :: r) * 10 + (d - 48)) 10); [lia|].
    rewrite IH by (try assumption; try discriminate; try (left; assumption); lia).
    rewrite <- app_assoc. cbn [app]. do 3 f_equal. lia.
Qed.

(** Printing what was parsed from an index-like key gives the key back. *)
Lemma decimal_parse (s : jsstring) :
  looks_like_index s = true -> Number.decimal (parse_decimal s) = s.
Proof.
  intros H. apply looks_like_index_spec in H as (Hne & Hd & Hh).
  unfold Number.decimal. rewrite digits_parse; try assumption.
  - apply app_nil_r.
  - destruct Hh as [Hh | Hh]; [|lia].
    pose proof (parse_lower s Hd Hne Hh) as Hlow.
    assert (Z.of_nat (List.length s) - 1 <= Z.log2 (parse_decimal s)).
    { apply Z.log2_le_pow2.
      - assert (0 <= Z.of_nat (List.length s) - 1)
          by (destruct s; [contradiction | cbn [List.length]; lia]).
        assert (0 < 10 ^ (Z.of_nat (List.length s) - 1))
          by (apply Z.pow_pos_nonneg; lia).
        lia.
      - eapply Z.le_trans; [|exact Hlow].
        apply Z.pow_le_mono_l. lia. }
    lia.
Qed.

Lemma digits_spec (fuel : nat) :
  forall z acc, 0 <= z < 10 ^ Z.of_nat (S fuel) ->
    exists ds, Number.digits (S fuel) z acc = ds ++ acc
               /\ parse_decimal ds = z /\ looks_like_index ds = true.
Proof.
  induction fuel as [|fuel IH]; intros z acc Hz.
  - exists [48 + z]. change (10 ^ Z.of_nat 1) with 10 in Hz.
    cbn [Number.digits]. rewrite Z.mod_small by lia.
    destruct (z <? 10); repeat split; try reflexivity;
      try (rewrite parse_single; lia);
      cbn [looks_like_index]; apply is_digit_spec; lia.
  - cbn [Number.digits]. destruct (Z.ltb_spec z 10) as [Hlt | Hge].
    + exists [48 + z mod 10]. rewrite Z.mod_small by lia. repeat split.
      * rewrite parse_single. lia.
      * cbn [looks_like_index]. apply is_digit_spec. lia.
    + assert (0 <= z / 10 < 10 ^ Z.of_nat (S fuel)) as Hq.
      { split; [apply Z.div_pos; lia|]. apply Z.div_lt_upper_bound; [lia|].
        rewrite (Nat2Z.inj_succ (S fuel)), Z.pow_succ_r in Hz by lia. lia. }
      destruct (IH (z / 10) ((48 + z mod 10) :: acc) Hq) as (ds & E & P & C).
      exists (ds ++ [48 + z mod 10]). split; [|split].
      * change (Number.digits (S fuel) (z / 10) ((48 + z mod 10) :: acc) = (ds ++ [48 + z mod 10]) ++ acc).
        rewrite E, <- app_assoc. reflexivity.
      * rewrite parse_snoc, P. pose proof (Z.div_mod z 10 ltac:(lia)). lia.
      * apply looks_like_index_spec in C as (Hne & Hd & Hh).
        pose proof (Z.mod_pos_bound z 10 ltac:(lia)).
        apply looks_like_index_spec. repeat split.
        -- destruct ds; discriminate.
        -- rewrite forallb_app, Hd. cbn [forallb andb].
           rewrite andb_true_r. apply is_digit_spec. lia.
        -- left. destruct ds as [|c r]; [contradiction|]. cbn [app hd].
           destruct Hh as [Hh | Hh]; [exact Hh|].
           destruct r; [|discriminate]. cbn [hd].
           rewrite parse_single in P.
           assert (1 <= z / 10) by (apply Z.div_le_lower_bound; lia). lia.
Qed.

Lemma decimal_spec (z : Z) :
  0 <= z -> parse_decimal (Number.decimal z) = z
            /\ looks_like_index (Number.decimal z) = true.
Proof.
  intros Hz. unfold Number.decimal.
  destruct (digits_spec (Z.to_nat (Z.log2 z)) z []) as (ds & E & P & C).
  - split; [assumption|]. rewrite Nat2Z.inj_succ, Z2Nat.id by apply Z.log2_nonneg.
    destruct (Z.eq_dec z 0) as [->|Hnz]; [reflexivity|].
    eapply Z.lt_le_trans; [apply Z.log2_spec; lia|].
    apply Z.pow_le_mono_l. lia.
  - rewrite E, app_nil_r. split; assumption.
Qed.

Lemma index_key_inj (i j : nat) : index_key i = index_key j -> i = j.
Proof.
  intros H. unfold index_key in H.
  assert (parse_decimal (Number.decimal (Z.of_nat i))
          = parse_decimal (Number.decimal (Z.of_nat j))) as E by (rewrite H; reflexivity).
  rewrite !(proj1 (decimal_spec _ (Nat2Z.is_nonneg _))) in E. lia.
Qed.

Lemma array_index_index_key (i : nat) :
  Z.of_nat i < 2 ^ 32 - 1 -> array_index (index_key i) = Some (Z.of_nat i).
Proof.
  intros H. unfold array_index, index_key.
  destruct (decimal_spec (Z.of_nat i) (Nat2Z.is_nonneg _)) as [P C].
  rewrite C, P. destruct (Z.ltb_spec (Z.of_nat i) (2 ^ 32 - 1)); [reflexivity | lia].
Qed.

(** ** Numbers *)

Lemma ok_spec (s : bool) (m e : Z) :
  Number.ok (Number.Finite s m e) = true <->
  0 <= m < 2 ^ 53 /\ -1074 <= e <= 971 /\ (2 ^ 52 <= m \/ e = -1074).
Proof. unfold Number.ok. lia. Qed.

Lemma pow2_pos (k : Z) : 0 <= k -> 0 < 2 ^ k.
Proof. intros. apply Z.pow_pos_nonneg; lia. Qed.

Lemma pow2_split (e : Z) :
  -1074 <= e < 0 -> 2 ^ 1074 = 2 ^ (- e) * 2 ^ (e + 1074).
Proof. intros H. rewrite <- Z.pow_add_r by lia. f_equal. lia. Qed.

Lemma mul_compare_pos (a c p : Z) : 0 < p -> (a * p ?= c * p) = (a ?= c).
Proof.
  intros Hp. destruct (Z.compare_spec a c) as [-> | H | H].
  - apply Z.compare_refl.
  - apply Z.compare_lt_iff. nia.
  - apply Z.compare_gt_iff. nia.
Qed.

Lemma signed_mul (s : bool) (m k : Z) :
  Number.signed s m * k = Number.signed s (m * k).
Proof. destruct s; unfold Number.signed; lia. Qed.

(** A number without fractional part is its integer, in units of
    [2^-1074]. *)
Lemma scaled_integer (s : bool) (m e : Z) :
  Number.ok (Number.Finite s m e) = true ->
  Number.is_integer (Number.Finite s m e) = true ->
  Number.scaled s m e = Number.to_Z (Number.Finite s m e) * 2 ^ 1074.
Proof.
  intros Hok Hint. apply ok_spec in Hok as (Hm & He & _).
  unfold Number.is_integer in Hint. unfold Number.scaled, Number.to_Z.
  destruct (Z.leb_spec 0 e) as [Hpos | Hneg].
  - rewrite (Z.pow_add_r 2 e 1074) by lia. rewrite !signed_mul. f_equal. lia.
  - cbn [orb] in Hint. apply Z.eqb_eq in Hint.
    rewrite (pow2_split e) by lia. rewrite !signed_mul. f_equal.
    pose proof (pow2_pos (- e) ltac:(lia)) as Hd.
    pose proof (Z.div_mod m (2 ^ (- e)) ltac:(lia)) as Hdm.
    rewrite Hint in Hdm. rewrite Z.mul_assoc. f_equal. lia.
Qed.

Lemma log2_small (a : Z) : 0 < a < 2 ^ 53 -> 0 <= Z.log2 a <= 52.
Proof.
  intros H. split; [apply Z.log2_nonneg|].
  assert (Z.log2 a < 53) by (apply Z.log2_lt_pow2; lia). lia.
Qed.

(** An integer below [2^53] in magnitude is a number exactly. *)
Lemma of_Z_exact (z : Z) :
  Z.abs z < 2 ^ 53 ->
  exists m e, Number.of_Z z = Number.Finite (z <? 0) m e
              /\ Number.scaled (z <? 0) m e = z * 2 ^ 1074
              /\ Number.ok (Number.Finite (z <? 0) m e) = true.
Proof.
  intros Hz. unfold Number.of_Z. destruct (Z.eqb_spec z 0) as [-> | Hnz].
  - exists 0, (-1074). repeat split.
  - pose proof (log2_small (Z.abs z) ltac:(lia)) as Hl.
    destruct (Z.leb_spec (Z.log2 (Z.abs z)) 52); [|lia].
    set (l := Z.log2 (Z.abs z)) in *.
    exists (Z.abs z * 2 ^ (52 - l)), (l - 52).
    pose proof (Z.log2_spec (Z.abs z) ltac:(lia)) as Hspec. fold l in Hspec.
    pose proof (pow2_pos (52 - l) ltac:(lia)) as Hp.
    assert (2 ^ l * 2 ^ (52 - l) = 2 ^ 52) as E1
      by (rewrite <- Z.pow_add_r by lia; f_equal; lia).
    assert (2 ^ (Z.succ l) * 2 ^ (52 - l) = 2 ^ 53) as E2
      by (rewrite <- Z.pow_add_r by lia; f_equal; lia).
    repeat split.
    + unfold Number.scaled. rewrite signed_mul.
      replace (Z.abs z * 2 ^ (52 - l) * 2 ^ (l - 52 + 1074))
        with (Z.abs z * 2 ^ 1074).
      * unfold Number.signed. destruct (Z.ltb_spec z 0); lia.
      * rewrite <- Z.mul_assoc. f_equal. rewrite <- Z.pow_add_r by lia. f_equal. lia.
    + apply ok_spec. split; [|split].
      * split; [nia|].
        rewrite <- E2. apply Z.mul_lt_mono_pos_r; lia.
      * lia.
      * left. rewrite <- E1. apply Z.mul_le_mono_nonneg_r; lia.
Qed.

Lemma compare_finite (a b : bool) (m e m' e' : Z) :
  Number.compare (Number.Finite a m e) (Number.Finite b m' e')
  = Some (Number.scaled a m e ?= Number.scaled b m' e').
Proof. reflexivity. Qed.

Lemma compare_of_Z (s : bool) (m e c : Z) :
  Z.abs c < 2 ^ 53 ->
  Number.compare (Number.Finite s m e) (Number.of_Z c)
  = Some (Number.scaled s m e ?= c * 2 ^ 1074).
Proof.
  intros Hc. destruct (of_Z_exact c Hc) as (m' & e' & -> & E & _).
  rewrite compare_finite, E. reflexivity.
Qed.

Lemma compare_integer (s : bool) (m e c : Z) :
  Number.ok (Number.Finite s m e) = true ->
  Number.is_integer (Number.Finite s m e) = true ->
  Z.abs c < 2 ^ 53 ->
  Number.compare (Number.Finite s m e) (Number.of_Z c)
  = Some (Number.to_Z (Number.Finite s m e) ?= c).
Proof.
  intros Hok Hint Hc. rewrite compare_of_Z by assumption.
  rewrite scaled_integer by assumption. f_equal.
  apply mul_compare_pos. apply pow2_pos. lia.
Qed.

Lemma ltb_integer (x : Number.t) (c : Z) :
  Number.ok x = true -> Number.is_integer x = true -> Z.abs c < 2 ^ 53 ->
  Number.ltb x (Number.of_Z c) = (Number.to_Z x <? c).
Proof.
  destruct x as [| |s m e]; try discriminate. intros Hok Hint Hc.
  unfold Number.ltb. rewrite compare_integer by assumption.
  unfold Z.ltb. destruct (_ ?= c); reflexivity.
Qed.

Lemma leb_integer (x : Number.t) (c : Z) :
  Number.ok x = true -> Number.is_integer x = true -> Z.abs c < 2 ^ 53 ->
  Number.leb x (Number.of_Z c) = (Number.to_Z x <=? c).
Proof.
  destruct x as [| |s m e]; try discriminate. intros Hok Hint Hc.
  unfold Number.leb. rewrite compare_integer by assumption.
  unfold Z.leb. destruct (_ ?= c); reflexivity.
Qed.

Lemma floor_integer (x : Number.t) :
  Number.is_integer x = true -> Number.floor x = x.
Proof.
  destruct x as [| |s m e]; try reflexivity. unfold Number.is_integer, Number.floor.
  destruct (0 <=? e); [reflexivity|]. cbn [orb]. intros ->. reflexivity.
Qed.

Lemma eqb_refl_finite (s : bool) (m e : Z) :
  Number.eqb (Number.Finite s m e) (Number.Finite s m e) = true.
Proof. unfold Number.eqb. rewrite compare_finite, Z.compare_refl. reflexivity. Qed.

(** [Math.floor(x) == x] fails for a finite number with a fractional
    part. *)
Lemma floor_fraction (s : bool) (m e : Z) :
  Number.ok (Number.Finite s m e) = true ->
  Number.is_integer (Number.Finite s m e) = false ->
  Number.eqb (Number.floor (Number.Finite s m e)) (Number.Finite s m e) = false.
Proof.
  intros Hok Hint. apply ok_spec in Hok as (Hm & He & _).
  unfold Number.is_integer in Hint. unfold Number.floor.
  destruct (Z.leb_spec 0 e) as [Hpos | Hneg]; [discriminate|]. cbn [orb] in Hint.
  rewrite Hint. apply Z.eqb_neq in Hint.
  pose proof (pow2_pos (- e) ltac:(lia)) as Hd.
  set (d := 2 ^ (- e)) in *. set (q := Number.signed s m / d).
  assert (Z.abs q < 2 ^ 53) as Hq.
  { assert (- 2 ^ 53 + 1 <= q < 2 ^ 53); [|lia]. subst q.
    assert (- 2 ^ 53 + 1 <= Number.signed s m < 2 ^ 53) as Hsm
      by (unfold Number.signed; destruct s; lia).
    split.
    - apply Z.div_le_lower_bound; [lia | nia].
    - apply Z.div_lt_upper_bound; [lia | nia]. }
  destruct (of_Z_exact q Hq) as (m' & e' & -> & E & _).
  unfold Number.eqb. rewrite compare_finite, E.
  destruct (Z.compare_spec (q * 2 ^ 1074) (Number.scaled s m e)) as [Heq | |];
    try reflexivity.
  exfalso. unfold Number.scaled in Heq. rewrite (pow2_split e) in Heq by lia.
  fold d in Heq. pose proof (pow2_pos (e + 1074) ltac:(lia)) as Hk.
  assert (q * d = Number.signed s m) as Hdiv by nia.
  apply Hint. destruct s; unfold Number.signed in Hdiv.
  - replace m with ((- q) * d) by lia. apply Z.mod_mul. lia.
  - rewrite <- Hdiv. apply Z.mod_mul. lia.
Qed.

Lemma abs_integer (x : Number.t) :
  Number.is_integer (Number.abs x) = Number.is_integer x
  /\ Number.ok (Number.abs x) = Number.ok x.
Proof. destruct x; split; reflexivity. Qed.

Lemma to_Z_abs (x : Number.t) :
  Number.ok x = true -> Number.to_Z (Number.abs x) = Z.abs (Number.to_Z x).
Proof.
  destruct x as [| |s m e]; try reflexivity. intros Hok.
  apply ok_spec in Hok as (Hm & He & _). unfold Number.abs, Number.to_Z.
  assert (0 <= (if 0 <=? e then m * 2 ^ e else m / 2 ^ (- e))) as Hn.
  { destruct (Z.leb_spec 0 e).
    - pose proof (pow2_pos e ltac:(lia)). nia.
    - apply Z.div_pos; [lia | apply pow2_pos; lia]. }
  destruct s; unfold Number.signed; lia.
Qed.

(** ** Numbers read back *)

(** A finite number has one representation. *)
Lemma canonical_unique (s : bool) (m e m' e' : Z) :
  Number.ok (Number.Finite s m e) = true ->
  Number.ok (Number.Finite s m' e') = true ->
  m * 2 ^ (e + 1074) = m' * 2 ^ (e' + 1074) ->
  m = m' /\ e = e'.
Proof.
  intros Hok Hok' Heq.
  apply ok_spec in Hok as (Hm & He & Hn). apply ok_spec in Hok' as (Hm' & He' & Hn').
  assert (forall m1 e1 m2 e2,
            0 <= m1 < 2 ^ 53 -> 0 <= m2 < 2 ^ 53 -> -1074 <= e1 -> e1 < e2 ->
            (2 ^ 52 <= m2 \/ e2 = -1074) -> 0 < m1 \/ 0 < m2 ->
            m1 * 2 ^ (e1 + 1074) = m2 * 2 ^ (e2 + 1074) -> False) as Hlt.
  { intros m1 e1 m2 e2 H1 H2 Hlo Hee Hnorm Hpos E.
    replace (e2 + 1074) with ((e1 + 1074) + (e2 - e1)) in E by lia.
    rewrite (Z.pow_add_r 2 (e1 + 1074) (e2 - e1)) in E by lia.
    pose proof (pow2_pos (e1 + 1074) ltac:(lia)) as Hk.
    assert (2 <= 2 ^ (e2 - e1)) as Hge.
    { change 2 with (2 ^ 1) at 1. apply Z.pow_le_mono_r; lia. }
    assert (m1 = m2 * 2 ^ (e2 - e1)) as Hm1 by nia.
    destruct Hnorm as [Hnorm | Hnorm]; [nia | lia]. }
  destruct (Z.eq_dec m 0) as [-> | Hmz].
  - assert (m' = 0) as ->.
    { pose proof (pow2_pos (e' + 1074) ltac:(lia)). nia. }
    split; [reflexivity | lia].
  - assert (m' <> 0) as Hmz'.
    { intros ->. pose proof (pow2_pos (e + 1074) ltac:(lia)). nia. }
    destruct (Z.lt_trichotomy e e') as [Hl | [-> | Hg]].
    + exfalso. apply (Hlt m e m' e'); try assumption; lia.
    + split; [|reflexivity]. pose proof (pow2_pos (e' + 1074) ltac:(lia)). nia.
    + exfalso. apply (Hlt m' e' m e); try assumption; try lia.
Qed.

(** Converting an integer-valued number to its integer and back. *)
Lemma of_Z_to_Z (x : Number.t) :
  Number.ok x = true -> Number.is_integer x = true ->
  negative_zero x = false -> Z.abs (Number.to_Z x) < 2 ^ 53 ->
  Number.of_Z (Number.to_Z x) = x.
Proof.
  destruct x as [| |s m e]; try discriminate. intros Hok Hint Hnz Hz.
  destruct (of_Z_exact _ Hz) as (m' & e' & E & Hsc & Hok').
  rewrite E. rewrite <- scaled_integer in Hsc by assumption.
  set (z := Number.to_Z (Number.Finite s m e)) in *.
  pose proof Hok as Hok0. apply ok_spec in Hok0 as (Hm & He & _).
  pose proof Hok' as Hok1. apply ok_spec in Hok1 as (Hm' & He' & _).
  pose proof (pow2_pos (e + 1074) ltac:(lia)) as Hk.
  pose proof (pow2_pos (e' + 1074) ltac:(lia)) as Hk'.
  pose proof (pow2_pos 1074 ltac:(lia)) as HP.
  pose proof (scaled_integer s m e Hok Hint) as Hzs. fold z in Hzs.
  assert ((z <? 0) = s) as Hsign.
  { unfold Number.scaled, Number.signed in Hzs. destruct s.
    - destruct (Z.eq_dec m 0) as [-> | Hne].
      + cbn in Hnz. discriminate.
      + destruct (Z.ltb_spec z 0); [reflexivity | nia].
    - destruct (Z.ltb_spec z 0); [nia | reflexivity]. }
  rewrite Hsign in *.
  assert (m' * 2 ^ (e' + 1074) = m * 2 ^ (e + 1074)) as Hmag.
  { unfold Number.scaled, Number.signed in Hsc. destruct s; lia. }
  destruct (canonical_unique s m' e' m e Hok' Hok Hmag) as [-> ->]. reflexivity.
Qed.

Lemma neg_abs (s : bool) (m e : Z) :
  s = true -> Number.neg (Number.abs (Number.Finite s m e)) = Number.Finite s m e.
Proof. intros ->. reflexivity. Qed.

Lemma to_Z_sign (s : bool) (m e : Z) :
  Number.ok (Number.Finite s m e) = true ->
  (Number.to_Z (Number.Finite s m e) < 0 -> s = true)
  /\ (0 < Number.to_Z (Number.Finite s m e) -> s = false).
Proof.
  intros Hok. apply ok_spec in Hok as (Hm & He & _). unfold Number.to_Z.
  assert (0 <= (if 0 <=? e then m * 2 ^ e else m / 2 ^ (- e))) as Hn.
  { destruct (Z.leb_spec 0 e).
    - pose proof (pow2_pos e ltac:(lia)). nia.
    - apply Z.div_pos; [lia | apply pow2_pos; lia]. }
  destruct s; unfold Number.signed; split; intros; try reflexivity; lia.
Qed.

(** *** Doubles *)

Lemma writeDoubleBE_big_endian (x : Number.t) :
  NodeBuffer.writeDoubleBE x = big_endian 8 (Number.bits x).
Proof.
  unfold NodeBuffer.writeDoubleBE. generalize (Number.bits x). intros b.
  cbn [map big_endian app]. rewrite !land_byte, !shiftr_div by lia.
  rewrite !Z.div_div by lia.
  change (2 ^ (8 * 0)) with 1. rewrite Z.div_1_r.
  repeat f_equal.
Qed.

Lemma bits_range (x : Number.t) :
  Number.ok x = true -> 0 <= Number.bits x < 2 ^ 64.
Proof.
  destruct x as [|s|s m e]; intros Hok.
  - cbn. lia.
  - destruct s; cbn; lia.
  - apply ok_spec in Hok as (Hm & He & Hn). unfold Number.bits.
    destruct (Z.ltb_spec m (2 ^ 52)); destruct s; lia.
Qed.

Lemma of_bits_bits (x : Number.t) :
  Number.ok x = true -> Number.of_bits (Number.bits x) = x.
Proof.
  destruct x as [|s|s m e]; intros Hok.
  - reflexivity.
  - destruct s; reflexivity.
  - apply ok_spec in Hok as (Hm & He & Hn). unfold Number.bits, Number.of_bits.
    set (S := if s then 2 ^ 63 else 0).
    assert (S = 0 /\ s = false \/ S = 2 ^ 63 /\ s = true) as HS
      by (destruct s; [right | left]; split; reflexivity).
    destruct (Z.ltb_spec m (2 ^ 52)) as [Hsub | Hnorm].
    + assert (e = -1074) as -> by lia.
      assert ((S + m) / 2 ^ 52 = S / 2 ^ 52 /\ (S + m) mod 2 ^ 52 = m) as [Eq Er].
      { destruct HS as [[-> _] | [-> _]].
        - rewrite Z.add_0_l, Z.div_small, Z.mod_small by lia. split; reflexivity.
        - change (2 ^ 63) with (2048 * 2 ^ 52). rewrite Z.add_comm.
          rewrite Z.div_add, Z.mod_add by lia.
          rewrite Z.div_small, Z.mod_small by lia.
          rewrite Z.div_mul by lia. split; reflexivity. }
      rewrite Eq, Er.
      destruct HS as [[-> ->] | [-> ->]].
      * destruct (Z.leb_spec (2 ^ 63) (0 + m)); [lia|]. reflexivity.
      * destruct (Z.leb_spec (2 ^ 63) (2 ^ 63 + m)); [|lia]. reflexivity.
    + set (E := e + 1075). set (F := m - 2 ^ 52).
      assert (1 <= E <= 2046) as HE by (subst E; lia).
      assert (0 <= F < 2 ^ 52) as HF by (subst F; lia).
      assert ((S + (E * 2 ^ 52 + F)) / 2 ^ 52 = S / 2 ^ 52 + E
              /\ (S + (E * 2 ^ 52 + F)) mod 2 ^ 52 = F) as [Eq Er].
      { destruct HS as [[-> _] | [-> _]].
        - rewrite Z.add_0_l. rewrite (Z.add_comm (E * 2 ^ 52)).
          rewrite Z.div_add, Z.mod_add by lia.
          rewrite Z.div_small, Z.mod_small by lia. split; reflexivity.
        - change (2 ^ 63) with (2048 * 2 ^ 52).
          replace (2048 * 2 ^ 52 + (E * 2 ^ 52 + F)) with (F + (2048 + E) * 2 ^ 52) by lia.
          rewrite Z.div_add, Z.mod_add by lia.
          rewrite Z.div_small, Z.mod_small by lia.
          rewrite Z.div_mul by lia. split; [lia | reflexivity]. }
      rewrite Eq, Er.
      assert ((S / 2 ^ 52 + E) mod 2048 = E) as Em.
      { destruct HS as [[-> _] | [-> _]].
        - rewrite Z.div_0_l by lia. rewrite Z.add_0_l. apply Z.mod_small. lia.
        - change (2 ^ 63 / 2 ^ 52) with (1 * 2048).
          rewrite Z.add_comm, Z.mod_add by lia. apply Z.mod_small. lia. }
      rewrite Em.
      destruct (Z.eqb_spec E 2047); [lia|]. destruct (Z.eqb_spec E 0); [lia|].
      replace (F + 2 ^ 52) with m by (subst F; lia).
      replace (E - 1075) with e by (subst E; lia).
      destruct HS as [[-> ->] | [-> ->]].
      * destruct (Z.leb_spec (2 ^ 63) (0 + (E * 2 ^ 52 + F))); [lia|]. reflexivity.
      * destruct (Z.leb_spec (2 ^ 63) (2 ^ 63 + (E * 2 ^ 52 + F))); [|lia]. reflexivity.
Qed.

Lemma reads_double (x : Number.t) :
  Number.ok x = true -> reads BufferReader.double (NodeBuffer.writeDoubleBE x) x.
Proof.
  intros Hok pre post. unfold BufferReader.double.
  cbn [BufferReader.new BufferReader.readBuffer BufferReader.offset].
  unfold NodeBuffer.readDoubleBE. rewrite writeDoubleBE_big_endian.
  rewrite readUInt_middle by apply big_endian_length.
  pose proof (bits_range x Hok) as Hb.
  rewrite be_big_endian by lia. rewrite Z.mod_small by (simpl; lia).
  cbn [bind]. rewrite of_bits_bits by exact Hok.
  change 8 with (Z.of_nat 8) at 1. rewrite (advance_new _ _ 8), big_endian_length.
  reflexivity.
Qed.

(** ** The size codec *)

Lemma size_codec_roundtrip (n : Z) :
  0 <= n < 0x1FFFFFFF -> bind (encodeSize n) decodeSize = Ok n.
Proof.
  intros H. unfold encodeSize, decodeSize.
  destruct (writes_size n H BufferWriter.new) as (w & E & B).
  rewrite E. cbn [bind]. rewrite B.
  change (BufferWriter.toBuffer BufferWriter.new) with (@nil Z).
  pose proof (reads_size n H [] []) as R. cbn [List.length app] in R.
  rewrite app_nil_r in R. cbn [app]. rewrite R. reflexivity.
Qed.

(** The widths the writer really picks. *)
Lemma size_widths (n : Z) :
  (0 <= n <= 0x7E -> encodeSize n = Ok [n])
  /\ (0x7F <= n <= 0x3FFE -> encodeSize n = Ok (big_endian 2 (Z.lor n 0x8000)))
  /\ (0x3FFF <= n <= 0x1FFFFFFE -> encodeSize n = Ok (big_endian 4 (n + 0xC0000000)))
  /\ (n < 0 \/ 0x1FFFFFFF <= n -> exists e, encodeSize n = Throw e).
Proof.
  unfold encodeSize, BufferWriter.size. repeat split; intros H.
  - destruct (Z.ltb_spec n 0); [lia|]. destruct (Z.ltb_spec n 0x7F); [|lia].
    destruct (writes_uint8 n ltac:(lia) BufferWriter.new) as (w & E & B).
    rewrite E. cbn [bind]. rewrite B. reflexivity.
  - destruct (Z.ltb_spec n 0); [lia|]. destruct (Z.ltb_spec n 0x7F); [lia|].
    destruct (Z.ltb_spec n 0x3FFF); [|lia].
    assert (Z.lor n 0x8000 = n + 0x8000) as L
      by (change 0x8000 with (2 ^ 15); apply lor_disjoint; lia).
    destruct (writes_uint16 (Z.lor n 0x8000) ltac:(lia) BufferWriter.new) as (w & E & B).
    rewrite E. cbn [bind]. rewrite B. reflexivity.
  - destruct (Z.ltb_spec n 0); [lia|]. destruct (Z.ltb_spec n 0x7F); [lia|].
    destruct (Z.ltb_spec n 0x3FFF); [lia|].
    destruct (Z.ltb_spec n 0x1FFFFFFF); [|lia].
    destruct (writes_uint32 (n + 0xC0000000) ltac:(lia) BufferWriter.new) as (w & E & B).
    rewrite E. cbn [bind]. rewrite B. reflexivity.
  - destruct (Z.ltb_spec n 0); [eexists; reflexivity|].
    destruct (Z.ltb_spec n 0x7F); [lia|]. destruct (Z.ltb_spec n 0x3FFF); [lia|].
    destruct (Z.ltb_spec n 0x1FFFFFFF); [lia|]. eexists. reflexivity.
Qed.

(** C5, at the inputs where the writer departs from the stated widths:
    [0x3FFF], which the documented ranges place in the two-byte form
    ([0xBF 0xFF]), is written in four bytes, and [0x1FFFFFFF], documented
    as the largest size, is refused.  The neighbours [0x3FFE] and
    [0x1FFFFFFE] behave as documented. *)
Theorem size_thresholds_off_by_one :
  encodeSize 0x3FFF = Ok [0xC0; 0x00; 0x3F; 0xFF]
  /\ encodeSize 0x3FFF <> Ok (big_endian 2 (Z.lor 0x3FFF 0x8000))
  /\ encodeSize 0x1FFFFFFF = Throw (SizeTooLarge 0x1FFFFFFF)
  /\ encodeSize 0x3FFE = Ok [0xBF; 0xFE]
  /\ encodeSize 0x1FFFFFFE = Ok [0xDF; 0xFF; 0xFF; 0xFE].
Proof.
  repeat split; try reflexivity. vm_compute. discriminate.
Qed.

(** C6: encoding then decoding a size is the identity at each of
    0, 0x7E, 0x7F, 0x3FFF, 0x4000 and 0x1FFFFFFE, and encoding fails for
    -1 and for 0x20000000. *)
Theorem size_codec_boundary_law :
  Forall (fun n => bind (encodeSize n) decodeSize = Ok n)
         [0; 0x7E; 0x7F; 0x3FFF; 0x4000; 0x1FFFFFFE]
  /\ encodeSize (-1) = Throw SizesMustBePositive
  /\ encodeSize 0x20000000 = Throw (SizeTooLarge 0x20000000).
Proof.
  split; [|split; reflexivity].
  repeat constructor; apply size_codec_roundtrip; lia.
Qed.

(** ** Top-level entry points *)

Lemma toBuffer_of_writes (s : BufferSerializer) (thing : value) (bytes : Buffer) :
  writes (toBufferInternal (2 + depth thing) s thing) bytes ->
  toBuffer s thing = Ok (0 :: bytes).
Proof.
  intros H. unfold toBuffer, toBufferWith.
  destruct (writes_seq _ _ _ _ (writes_uint8 0 ltac:(lia)) H BufferWriter.new)
    as (w & E & B).
  rewrite E. cbn [bind]. rewrite B. reflexivity.
Qed.

Lemma fromBuffer_of_reads (s : BufferSerializer) (bytes post : Buffer) (v : value) :
  reads (fromBufferInternal (S (List.length (bytes ++ post))) s) bytes v ->
  fromBuffer s (0 :: bytes ++ post) 0 = Ok v.
Proof.
  intros H. unfold fromBuffer. cbn [NodeBuffer.index nth_error].
  specialize (H [0] post). cbn [List.length app Nat.add] in H.
  change (List.length (0 :: bytes ++ post)) with (S (List.length (bytes ++ post))).
  change (0 + 1)%nat with 1%nat.
  rewrite H. reflexivity.
Qed.

Lemma reads_tag {A} (code : Z) (k : Z -> BufferReader.action A)
    (rest : Buffer) (a : A) :
  reads (k code) rest a ->
  reads (BufferReader.bind BufferReader.uint8 k) (code :: rest) a.
Proof.
  intros H. change (code :: rest) with ([code] ++ rest).
  eapply reads_bind; [apply reads_uint8 | exact H].
Qed.

Lemma seq_assoc (a b c : BufferWriter.action) (w : BufferWriter.t) :
  ((a ;; b) ;; c) w = (a ;; b ;; c) w.
Proof.
  unfold BufferWriter.seq. destruct (a w); reflexivity.
Qed.

Lemma seq_cong_r (a b b' : BufferWriter.action) :
  (forall w, b w = b' w) -> forall w, (a ;; b) w = (a ;; b') w.
Proof.
  intros E w. unfold BufferWriter.seq. destruct (a w); cbn [bind]; auto.
Qed.

Lemma writes_ext (a b : BufferWriter.action) (x : Buffer) :
  (forall w, a w = b w) -> writes b x -> writes a x.
Proof. intros E H w. rewrite E. apply H. Qed.

(** ** Lists: dense and sparse form *)

(** C8: the list [[1, true]] is written in dense form, as the bytes
    61 2B 01 74 21, after the version byte 00 in a full record; an array of
    length 3 whose only property is index 2 is written in sparse form, the
    tag 41 followed by the key as the number 2 (2B 02), the value and the
    terminator 21. *)
Theorem dense_and_sparse_bytes (serializer : BufferSerializer) :
  toBuffer serializer (dense [VNumber (Number.of_Z 1); VBoolean true])
    = Ok [0x00; 0x61; 0x2B; 0x01; 0x74; 0x21]
  /\ (forall fuel,
        writes (toBufferInternal (2 + fuel) serializer
                  (dense [VNumber (Number.of_Z 1); VBoolean true]))
               [0x61; 0x2B; 0x01; 0x74; 0x21])
  /\ toBuffer serializer (VArray 3 [(str "2", VString (str "two"))])
    = Ok [0x00; 0x41; 0x2B; 0x02; 0x73; 0x03; 0x74; 0x77; 0x6F; 0x21]
  /\ (forall fuel x w,
        toBufferInternal (2 + fuel) serializer (VArray 3 [(str "2", x)]) w
        = (BufferWriter.string (str "A") ;;
           (BufferWriter.uint8 0x2B ;; BufferWriter.uint8 2) ;;
           toBufferInternal (1 + fuel) serializer x ;;
           BufferWriter.string (str "!")) w).
Proof.
  split; [vm_compute; reflexivity|]. split.
  - intros fuel.
    apply (writes_ext _ (BufferWriter.string (str "a") ;;
                         (BufferWriter.uint8 0x2B ;; BufferWriter.uint8 1) ;;
                         BufferWriter.uint8 0x74 ;;
                         BufferWriter.string (str "!"))).
    + intros w. vm_compute. reflexivity.
    + apply (writes_seq _ _ [0x61] [0x2B; 0x01; 0x74; 0x21]); [apply writes_string|].
      apply (writes_seq _ _ [0x2B; 0x01] [0x74; 0x21]).
      { apply (writes_seq _ _ [0x2B] [0x01]); apply writes_uint8; lia. }
      apply (writes_seq _ _ [0x74] [0x21]); [apply writes_uint8; lia|].
      apply writes_string.
  - split; [vm_compute; reflexivity|]. intros fuel x.
    change (toBufferInternal (2 + fuel) serializer (VArray 3 [(str "2", x)]))
      with (toBufferInternalArray (toBufferInternal (1 + fuel) serializer) 3
              [(str "2", x)]).
    unfold toBufferInternalArray.
    change (Nat.eqb (List.length (Object_keys [(str "2", x)])) 3) with false.
    cbv beta iota zeta. cbn [andb forEach Object_keys map fst].
    unfold toBufferInternalKey.
    change (looks_like_index (str "2")) with true. cbv iota.
    change (get [(str "2", x)] (str "2")) with x.
    change (toBufferInternal (1 + fuel) serializer
              (VNumber (Number.of_Z (parse_decimal (str "2")))))
      with (toBufferInternalNumber (Number.of_Z (parse_decimal (str "2")))).
    assert (toBufferInternalNumber (Number.of_Z (parse_decimal (str "2")))
            = (BufferWriter.uint8 0x2B ;; BufferWriter.uint8 2)) as E
      by (vm_compute; reflexivity).
    rewrite E. apply seq_cong_r. intros w.
    rewrite !seq_assoc. apply seq_cong_r. intros w'. apply seq_cong_r.
    intros w''. reflexivity.
Qed.

(** ** Dispatch on the kind of value *)

Lemma toBufferInternalObject_claimed (self : value -> BufferWriter.action)
    (s : BufferSerializer) (thing : value) (h : helper) :
  first_match s thing = Some h ->
  toBufferInternalObject self (helpers s) thing = extension_record self h thing.
Proof.
  unfold first_match. induction (helpers s) as [|h' rest IH]; [discriminate|].
  cbn [find toBufferInternalObject]. destruct (checkFn h' thing).
  - intros [= ->]. reflexivity.
  - exact IH.
Qed.

Lemma toBufferInternalObject_unclaimed (self : value -> BufferWriter.action)
    (s : BufferSerializer) (thing : value) :
  first_match s thing = None ->
  toBufferInternalObject self (helpers s) thing
  = toBufferInternalObject self [] thing.
Proof.
  unfold first_match. induction (helpers s) as [|h' rest IH]; [reflexivity|].
  cbn [find toBufferInternalObject]. destruct (checkFn h' thing).
  - discriminate.
  - exact IH.
Qed.

Lemma unclaimed_first_match (s : BufferSerializer) (thing : value) :
  unclaimed s thing = true <-> first_match s thing = None.
Proof.
  unfold unclaimed, first_match. induction (helpers s) as [|h rest IH].
  - split; reflexivity.
  - cbn [forallb find]. destruct (checkFn h thing); cbn [negb andb].
    + split; discriminate.
    + exact IH.
Qed.

(** A helper registered later is tried after those registered before. *)
Lemma first_match_register (s : BufferSerializer) (thing : value)
    (nm : jsstring) (check : value -> bool)
    (enc : (value -> BufferWriter.action) -> value -> BufferWriter.action)
    (dec : BufferReader.action value -> BufferReader.action value) :
  first_match (register s nm check enc dec) thing
  = match first_match s thing with
    | Some h => Some h
    | None => if check thing
              then Some {| checkFn := check; fromBufferFn := dec;
                           name := nm; toBufferFn := enc |}
              else None
    end.
Proof.
  unfold first_match, register. cbn [helpers].
  induction (helpers s) as [|h rest IH]; cbn [app find checkFn].
  - reflexivity.
  - destruct (checkFn h thing); [reflexivity | exact IH].
Qed.

Lemma writes_same (a b : BufferWriter.action) (x y : Buffer) (w : BufferWriter.t) :
  writes a x -> writes b y -> a w = b w -> x = y.
Proof.
  intros Ha Hb E. destruct (Ha w) as (w1 & E1 & B1).
  destruct (Hb w) as (w2 & E2 & B2).
  rewrite E1, E2 in E. injection E as ->. rewrite B1 in B2.
  apply app_inv_head in B2. exact B2.
Qed.

(** C3, refuted as stated: a helper that accepts every value is registered,
    and yet a boolean, [null], a string, a number and a list are written
    with their own tags; only the object reaches the helper. *)
Lemma helpers_skipped_for_non_objects :
  first_match greedy (VBoolean true) = Some accepts_all
  /\ toBuffer greedy (VBoolean true) = Ok [0x00; 0x74]
  /\ toBuffer greedy VNull = Ok [0x00; 0x6E]
  /\ toBuffer greedy (VString (str "abc")) = Ok [0x00; 0x73; 0x03; 0x61; 0x62; 0x63]
  /\ toBuffer greedy (VNumber (Number.of_Z 62)) = Ok [0x00; 0x2B; 0x3E]
  /\ toBuffer greedy (dense [VBoolean true]) = Ok [0x00; 0x61; 0x74; 0x21]
  /\ toBuffer greedy (VObject "Object" []) = Ok [0x00; 0x5A; 0x03; 0x61; 0x6E; 0x79]
  /\ (forall w, toBufferInternal 1 greedy (VBoolean true) w
                <> extension_record (toBufferInternal 0 greedy) accepts_all
                                    (VBoolean true) w).
Proof.
  repeat split; try (vm_compute; reflexivity).
  intros w E.
  assert ([0x74] = [0x5A] ++ [0x03] ++ [0x61; 0x6E; 0x79] ++ []) as F; [|discriminate F].
  refine (writes_same _ _ _ _ w _ _ E).
  - apply (writes_uint8 0x74). lia.
  - unfold extension_record.
    apply writes_seq; [apply writes_uint8; lia|].
    apply writes_seq; [apply (writes_uint8 3); lia|].
    apply writes_seq; [apply (writes_string (str "any"))|].
    apply writes_done.
Qed.

(** C3, as the code has it: helpers are consulted for a non-null,
    non-array object only.  Registering a helper puts it behind those
    registered before.  For such an object the first helper in
    registration order whose predicate accepts it writes the extension tag,
    the size-prefixed name and its own payload, before any built-in kind is
    considered; with no such helper the built-in kinds and the generic
    object form apply.  A list is written by [toBufferInternalArray], and
    [null], strings, numbers and booleans are written the same way whatever
    helpers are registered. *)
Theorem helpers_first_for_objects (serializer : BufferSerializer)
    (fuel : nat) (thing : value) :
  (forall nm check enc dec,
     first_match (register serializer nm check enc dec) thing
     = match first_match serializer thing with
       | Some h => Some h
       | None => if check thing
                 then Some {| checkFn := check; fromBufferFn := dec;
                              name := nm; toBufferFn := enc |}
                 else None
       end)
  /\
  match thing with
  | VBuffer _ | VDate _ | VInvalidDate | VRegExp _ _ _ _ _ | VObject _ _ =>
      match first_match serializer thing with
      | Some h =>
          toBufferInternal (S fuel) serializer thing
          = extension_record (toBufferInternal fuel serializer) h thing
      | None =>
          toBufferInternal (S fuel) serializer thing
          = toBufferInternalObject (toBufferInternal fuel serializer) [] thing
      end
  | VArray length props =>
      toBufferInternal (S fuel) serializer thing
      = toBufferInternalArray (toBufferInternal fuel serializer) length props
  | _ =>
      forall other : BufferSerializer,
        toBufferInternal (S fuel) serializer thing
        = toBufferInternal (S fuel) other thing
  end.
Proof.
  split; [intros nm check enc dec; apply first_match_register|].
  destruct thing; try (intros other; reflexivity); try reflexivity;
    cbn [toBufferInternal];
    (destruct (first_match serializer _) eqn:E;
     [apply toBufferInternalObject_claimed | apply toBufferInternalObject_unclaimed];
     exact E).
Qed.

(** ** Properties of an object and their values *)

Lemma depth_VArray (n : nat) (props : properties) :
  depth (VArray n props) = S (depth_members props).
Proof.
  reflexivity.
Qed.

Lemma depth_VObject (c : String.string) (props : properties) :
  depth (VObject c props) = S (depth_members props).
Proof.
  reflexivity.
Qed.

Lemma get_absent (props : properties) (key : jsstring) :
  ~ In key (Object_keys props) -> get props key = VUndefined.
Proof.
  induction props as [|[k x] r IH]; intros H; [reflexivity|].
  cbn [get]. cbn [Object_keys map fst In] in H.
  rewrite jsstring_eqb_neq by (intros ->; apply H; now left).
  apply IH. intros Hin. apply H. now right.
Qed.

Lemma depth_get (props : properties) (key : jsstring) :
  (depth (get props key) <= depth_members props)%nat.
Proof.
  induction props as [|[k x] r IH]; [cbn; lia|].
  cbn [get depth_members]. destruct (jsstring_eqb k key); lia.
Qed.

(** If the quick check for a dense array passes, the keys are exactly the
    indices below the length. *)
Lemma dense_check_keys (length : nat) (props : properties) (key : jsstring) :
  List.length (Object_keys props) = length ->
  existsb (fun i => is_undefined (get props (index_key i))) (seq 0 length) = false ->
  In key (Object_keys props) ->
  exists i, (i < length)%nat /\ key = index_key i.
Proof.
  intros Hlen Hdef Hin.
  assert (incl (Object_keys props) (map index_key (seq 0 length))) as Hincl.
  { apply NoDup_length_incl.
    - apply Injective_map_NoDup; [|apply seq_NoDup].
      intros i j. apply index_key_inj.
    - rewrite length_map, length_seq. lia.
    - intros k Hk. apply in_map_iff in Hk as (i & <- & Hi).
      destruct (in_dec (list_eq_dec Z.eq_dec) (index_key i) (Object_keys props))
        as [Hy | Hn]; [exact Hy|].
      apply get_absent in Hn.
      assert (existsb (fun i => is_undefined (get props (index_key i))) (seq 0 length) = true)
        as Ht by (apply existsb_exists; exists i; rewrite Hn; split; [exact Hi | reflexivity]).
      congruence. }
  apply Hincl in Hin. apply in_map_iff in Hin as (i & <- & Hi).
  apply in_seq in Hi. exists i. split; [lia | reflexivity].
Qed.

(** ** Actions that cannot succeed, actions that cannot get stuck *)





Lemma steady_seq (a b : BufferWriter.action) : steady a -> steady b -> steady (a ;; b).
Proof.
  intros Ha Hb w l. unfold BufferWriter.seq. specialize (Ha w).
  destruct (a w) as [w1| |l']; cbn [bind]; [apply Hb | discriminate |].
  exfalso. apply (Ha l'). reflexivity.
Qed.

Lemma steady_forEach {A} (l : list A) (body : A -> BufferWriter.action) :
  (forall x, In x l -> steady (body x)) -> steady (forEach l body).
Proof.
  induction l as [|y l IH]; intros H.
  - intros w l'. discriminate.
  - cbn [forEach]. apply steady_seq; [apply H; now left|].
    apply IH. intros x Hx. apply H. now right.
Qed.

Lemma steady_push (buff : Buffer) : steady (BufferWriter.push buff).
Proof. intros w l. discriminate. Qed.

Lemma steady_uint8 (v : Z) : steady (BufferWriter.uint8 v).
Proof.
  intros w l. unfold BufferWriter.uint8, NodeBuffer.writeUInt8.
  destruct (NodeBuffer.in_range v 255); discriminate.
Qed.

Lemma steady_uint16 (v : Z) : steady (BufferWriter.uint16 v).
Proof.
  intros w l. unfold BufferWriter.uint16, NodeBuffer.writeUInt16BE.
  destruct (NodeBuffer.in_range v 65535); discriminate.
Qed.

Lemma steady_uint32 (v : Z) : steady (BufferWriter.uint32 v).
Proof.
  intros w l. unfold BufferWriter.uint32, NodeBuffer.writeUInt32BE.
  destruct (NodeBuffer.in_range v 4294967295); discriminate.
Qed.

Lemma steady_size (n : Z) : steady (BufferWriter.size n).
Proof.
  unfold BufferWriter.size.
  destruct (n <? 0); [intros w l; discriminate|].
  destruct (n <? 127); [apply steady_uint8|].
  destruct (n <? 16383); [apply steady_uint16|].
  destruct (n <? 536870911); [apply steady_uint32|].
  intros w l. discriminate.
Qed.

Create HintDb steady.
#[local] Hint Resolve steady_seq steady_push steady_uint8 steady_uint16
  steady_uint32 steady_size : steady.

Lemma steady_number (n : Number.t) : steady (toBufferInternalNumber n).
Proof.
  unfold toBufferInternalNumber, BufferWriter.double.
  repeat match goal with |- steady (if ?c then _ else _) => destruct c end;
    auto with steady.
Qed.

Lemma steady_string (s : jsstring) : steady (toBufferInternalString s).
Proof. unfold toBufferInternalString, BufferWriter.string. auto with steady. Qed.

(** With no helper registered, encoding with enough fuel ends: it returns
    the writer or throws. *)
Lemma encode_steady (s : BufferSerializer) :
  helpers s = [] ->
  forall fuel v, (depth v < fuel)%nat -> steady (toBufferInternal fuel s v).
Proof.
  intros Hs. induction fuel as [|fuel IH]; intros v Hd; [lia|].
  assert (forall props, (depth_members props < fuel)%nat ->
            steady (forEach (Object_keys props)
                      (fun key => toBufferInternalKey (toBufferInternal fuel s) key ;;
                                  toBufferInternal fuel s (get props key)))) as Hloop.
  { intros props Hp. apply steady_forEach. intros key _. apply steady_seq.
    - unfold toBufferInternalKey. destruct (looks_like_index key); apply IH; cbn; lia.
    - apply IH. pose proof (depth_get props key). lia. }
  destruct v; cbn [toBufferInternal]; rewrite ?Hs; cbn [toBufferInternalObject].
  - intros w l. discriminate.
  - apply steady_uint8.
  - unfold toBufferInternalBoolean. destruct b; apply steady_uint8.
  - apply steady_number.
  - intros w l. discriminate.
  - apply steady_string.
  - intros w l. discriminate.
  - intros w l. discriminate.
  - unfold toBufferInternalObjectBuffer, BufferWriter.buffer. auto with steady.
  - unfold toBufferInternalObjectDate, getTime.
    destruct (negb (Z.rem time 1000 =? 0)); auto with steady.
  - unfold toBufferInternalObjectDate, getTime. auto with steady.
  - unfold toBufferInternalObjectRegExp, BufferWriter.string. auto 6 with steady.
  - rewrite depth_VArray in Hd. unfold toBufferInternalArray.
    destruct (_ && _).
    + apply steady_seq; [apply steady_push|]. apply steady_seq; [|apply steady_push].
      apply steady_forEach. intros i _. apply IH.
      pose proof (depth_get props (index_key i)). lia.
    + apply steady_seq; [apply steady_push|]. apply steady_seq; [|apply steady_push].
      apply Hloop. lia.
  - rewrite depth_VObject in Hd. unfold toBufferInternalObjectGeneric.
    apply steady_seq; [apply steady_push|]. apply steady_seq; [|apply steady_push].
    apply Hloop. lia.
Qed.


(** ** Absent values *)






(** ** Thrown errors *)

Lemma throws_seq_l (a b : BufferWriter.action) (e : error) :
  throws a e -> throws (a ;; b) e.
Proof. intros H w. unfold BufferWriter.seq. rewrite H. reflexivity. Qed.

Lemma throws_seq_r (a b : BufferWriter.action) (x : Buffer) (e : error) :
  writes a x -> throws b e -> throws (a ;; b) e.
Proof.
  intros Ha Hb w. destruct (Ha w) as (w1 & E1 & _).
  unfold BufferWriter.seq. rewrite E1. apply Hb.
Qed.

Lemma throws_uint32 (v : Z) :
  v < 0 \/ 0xFFFFFFFF < v -> throws (BufferWriter.uint32 v) RangeError.
Proof.
  intros H w.
  unfold BufferWriter.uint32, NodeBuffer.writeUInt32BE, NodeBuffer.in_range.
  replace ((0 <=? v) && (v <=? 4294967295)) with false by lia. reflexivity.
Qed.

Lemma toBuffer_of_throws (s : BufferSerializer) (thing : value) (e : error) :
  throws (toBufferInternal (2 + depth thing) s thing) e ->
  toBuffer s thing = Throw e.
Proof.
  intros H. unfold toBuffer, toBufferWith.
  rewrite (throws_seq_r _ _ _ e (writes_uint8 0 ltac:(lia)) H). reflexivity.
Qed.

(** ** Text *)

Lemma from_binary_mod (s : jsstring) :
  NodeBuffer.from_binary s = map (fun c => c mod 256) s.
Proof. unfold NodeBuffer.from_binary. apply map_ext. intros c. apply land_byte. Qed.

Lemma writes_toBufferInternalString (thing : jsstring) :
  Z.of_nat (List.length thing) < 0x1FFFFFFF ->
  writes (toBufferInternalString thing) (string_bytes thing).
Proof.
  intros H. unfold toBufferInternalString, string_bytes.
  apply (writes_seq _ _ [0x73]); [apply writes_uint8; lia|].
  apply writes_seq; [apply writes_size; lia|].
  rewrite <- from_binary_mod. apply writes_string.
Qed.

Lemma reads_sized_string (bytes : Buffer) :
  Z.of_nat (List.length bytes) < 0x1FFFFFFF ->
  reads (let* n := BufferReader.size in BufferReader.string n)
        (size_bytes (Z.of_nat (List.length bytes)) ++ bytes) bytes.
Proof.
  intros H. eapply reads_bind; [apply reads_size; lia|].
  apply reads_string.
Qed.

Lemma reads_string_value (s : BufferSerializer) (fuel : nat) (thing : jsstring) :
  Z.of_nat (List.length thing) < 0x1FFFFFFF ->
  reads (fromBufferInternal (S fuel) s) (string_bytes thing)
        (VString (map (fun c => c mod 256) thing)).
Proof.
  intros H. unfold string_bytes. cbn [fromBufferInternal].
  apply reads_tag. cbv beta iota.
  pose proof (reads_size (Z.of_nat (List.length thing)) ltac:(lia)) as Hs.
  eapply reads_bind; [exact Hs|].
  pose proof (reads_string (map (fun c => c mod 256) thing)) as Hb.
  rewrite length_map in Hb.
  rewrite <- (app_nil_r (map _ thing)) at 1.
  eapply reads_bind; [exact Hb | apply reads_ret].
Qed.

Lemma latin1_fixed (thing : jsstring) :
  forallb is_code_unit thing = true ->
  (map (fun c => c mod 256) thing = thing <-> forallb is_latin1 thing = true).
Proof.
  induction thing as [|c r IH]; intros Hcu; [split; reflexivity|].
  cbn [forallb map] in *. apply andb_prop in Hcu as [Hc Hr].
  specialize (IH Hr). unfold is_code_unit in Hc. unfold is_latin1 at 1. split.
  - intros [= Hm Hrest]. apply IH in Hrest. rewrite Hrest, andb_true_r.
    pose proof (Z.mod_pos_bound c 256 ltac:(lia)). lia.
  - intros H. apply andb_prop in H as [H1 H2]. apply IH in H2. rewrite H2.
    rewrite Z.mod_small by lia. reflexivity.
Qed.

(** C9: a string whose length the size prefix can hold (every string the
    host can build is shorter than [0x1FFFFFFF] code units) is written as
    the tag, its code-unit length as the size, and one byte per code unit,
    the unit's low 8 bits; decoding these bytes gives the string of those
    low bytes, so that the round trip returns the string itself exactly
    when every code unit is at most [0xFF]. *)
Theorem string_one_byte_per_code_unit (serializer : BufferSerializer)
    (thing : jsstring) :
  forallb is_code_unit thing = true ->
  Z.of_nat (List.length thing) < 0x1FFFFFFF ->
  let payload := map (fun c => Z.land c 0xFF) thing in
  let record := 0x00 :: 0x73 :: size_bytes (Z.of_nat (List.length thing)) ++ payload in
  (forall fuel, writes (toBufferInternal (S fuel) serializer (VString thing))
                       (0x73 :: size_bytes (Z.of_nat (List.length thing)) ++ payload))
  /\ List.length payload = List.length thing
  /\ (forall i c, nth_error thing i = Some c ->
                  nth_error payload i = Some (c mod 256))
  /\ toBuffer serializer (VString thing) = Ok record
  /\ fromBuffer serializer record 0 = Ok (VString payload)
  /\ (fromBuffer serializer record 0 = Ok (VString thing)
      <-> forallb is_latin1 thing = true).
Proof.
  intros Hcu Hlen payload record.
  assert (payload = map (fun c => c mod 256) thing) as Hp
    by (apply map_ext; intros c; apply land_byte).
  assert (fromBuffer serializer record 0 = Ok (VString payload)) as Hback.
  { subst record. rewrite Hp. fold (string_bytes thing).
    rewrite <- (app_nil_r (string_bytes thing)).
    apply fromBuffer_of_reads. apply reads_string_value. exact Hlen. }
  split; [|split; [|split; [|split; [|split]]]].
  - intros fuel. rewrite Hp. apply (writes_toBufferInternalString thing Hlen).
  - apply length_map.
  - intros i c Hi. rewrite Hp, nth_error_map, Hi. reflexivity.
  - subst record. rewrite Hp. apply toBuffer_of_writes.
    apply (writes_toBufferInternalString thing Hlen).
  - exact Hback.
  - rewrite Hback, <- (latin1_fixed thing Hcu), <- Hp. split.
    + intros [= E]. exact E.
    + intros E. rewrite E. reflexivity.
Qed.

Lemma string_one_byte_per_code_unit_witness :
  toBuffer constructor (VString [0x48; 0x100; 0xE9])
    = Ok [0x00; 0x73; 0x03; 0x48; 0x00; 0xE9]
  /\ fromBuffer constructor [0x00; 0x73; 0x03; 0x48; 0x00; 0xE9] 0
     = Ok (VString [0x48; 0x00; 0xE9]).
Proof.
  destruct (string_one_byte_per_code_unit constructor [0x48; 0x100; 0xE9])
    as (_ & _ & _ & He & Hd & _).
  - reflexivity.
  - cbn. lia.
  - split; [exact He | exact Hd].
Defined.

(** ** Timestamps *)

Lemma writes_toBufferInternalObjectDate (time : Z) :
  0 <= time < 2 ^ 32 * 1000 ->
  writes (toBufferInternalObjectDate (Some time)) (date_bytes time).
Proof.
  intros H. unfold toBufferInternalObjectDate, date_bytes.
  rewrite Z.rem_mod_nonneg by lia.
  assert (0 <= time / 1000 <= 0xFFFFFFFF) as Hs.
  { split; [apply Z.div_pos; lia|].
    assert (time / 1000 < 2 ^ 32) by (apply Z.div_lt_upper_bound; lia). lia. }
  pose proof (Z.mod_pos_bound time 1000 ltac:(lia)) as Hm.
  destruct (time mod 1000 =? 0); cbn [negb].
  - apply (writes_seq _ _ [0x54]); [apply writes_uint8; lia|].
    apply writes_uint32. exact Hs.
  - apply (writes_seq _ _ [0x44]); [apply writes_uint8; lia|].
    apply writes_seq; [apply writes_uint32; exact Hs|].
    apply writes_uint16. lia.
Qed.

Lemma throws_toBufferInternalObjectDate (time : Z) :
  time < 0 \/ 2 ^ 32 * 1000 <= time ->
  throws (toBufferInternalObjectDate (Some time)) RangeError.
Proof.
  intros H. unfold toBufferInternalObjectDate.
  assert (time / 1000 < 0 \/ 0xFFFFFFFF < time / 1000) as Hs.
  { destruct H as [H | H].
    - left. apply Z.div_lt_upper_bound; lia.
    - right. assert (2 ^ 32 <= time / 1000) by (apply Z.div_le_lower_bound; lia). lia. }
  destruct (negb (Z.rem time 1000 =? 0)).
  - apply (throws_seq_r _ _ [0x44]); [apply writes_uint8; lia|].
    apply throws_seq_l. apply throws_uint32. exact Hs.
  - apply (throws_seq_r _ _ [0x54]); [apply writes_uint8; lia|].
    apply throws_uint32. exact Hs.
Qed.

Lemma reads_date_value (s : BufferSerializer) (fuel : nat) (time : Z) :
  0 <= time < 2 ^ 32 * 1000 ->
  reads (fromBufferInternal (S fuel) s) (date_bytes time) (VDate time).
Proof.
  intros H. unfold date_bytes.
  assert (0 <= time / 1000 <= 0xFFFFFFFF) as Hs.
  { split; [apply Z.div_pos; lia|].
    assert (time / 1000 < 2 ^ 32) by (apply Z.div_lt_upper_bound; lia). lia. }
  pose proof (Z.mod_pos_bound time 1000 ltac:(lia)) as Hm.
  pose proof (Z.div_mod time 1000 ltac:(lia)) as Hdm.
  cbn [fromBufferInternal].
  destruct (Z.eqb_spec (time mod 1000) 0) as [Hz | Hnz].
  - apply reads_tag. cbv beta iota. unfold fromBufferInternalObjectDateT.
    replace (VDate time) with (VDate (time / 1000 * 1000)) by (f_equal; lia).
    apply (reads_then_ret BufferReader.uint32 (fun s => VDate (s * 1000))).
    apply reads_uint32. exact Hs.
  - apply reads_tag. cbv beta iota. unfold fromBufferInternalObjectDateD.
    eapply reads_bind; [apply reads_uint32; exact Hs|]. cbv zeta.
    replace (VDate time) with (VDate (time / 1000 * 1000 + time mod 1000))
      by (f_equal; lia).
    apply (reads_then_ret BufferReader.uint16
             (fun ms => VDate (time / 1000 * 1000 + ms))).
    apply reads_uint16. lia.
Qed.

(** C10: a timestamp no helper claims is encoded only when its time lies
    between the epoch and [2^32] seconds after it.  Within that range the
    record is the version byte and [date_bytes], and decoding it gives the
    timestamp back; a time before the epoch or from [2^32] seconds on makes
    the 32-bit write of the seconds raise a range error. *)
Theorem date_range_checked (serializer : BufferSerializer) (time : Z) :
  unclaimed serializer (VDate time) = true ->
  if (0 <=? time) && (time <? 2 ^ 32 * 1000)
  then toBuffer serializer (VDate time) = Ok (0x00 :: date_bytes time)
       /\ fromBuffer serializer (0x00 :: date_bytes time) 0 = Ok (VDate time)
  else toBuffer serializer (VDate time) = Throw RangeError.
Proof.
  intros Hun. apply unclaimed_first_match in Hun.
  assert (forall fuel, toBufferInternal (S fuel) serializer (VDate time)
                       = toBufferInternalObjectDate (Some time)) as Henc.
  { intros fuel. cbn [toBufferInternal].
    rewrite toBufferInternalObject_unclaimed by exact Hun. reflexivity. }
  destruct ((0 <=? time) && (time <? 2 ^ 32 * 1000)) eqn:Hr.
  - assert (0 <= time < 2 ^ 32 * 1000) as Hrange by lia. split.
    + apply toBuffer_of_writes. cbn [Nat.add]. rewrite Henc.
      apply writes_toBufferInternalObjectDate. exact Hrange.
    + rewrite <- (app_nil_r (date_bytes time)).
      apply fromBuffer_of_reads. apply reads_date_value. exact Hrange.
  - apply toBuffer_of_throws. cbn [Nat.add]. rewrite Henc.
    apply throws_toBufferInternalObjectDate. lia.
Qed.

Lemma date_range_checked_witness :
  (toBuffer constructor (VDate 1451651696001)
   = Ok [0x00; 0x44; 0x56; 0x86; 0x72; 0x70; 0x00; 0x01]
   /\ fromBuffer constructor [0x00; 0x44; 0x56; 0x86; 0x72; 0x70; 0x00; 0x01] 0
      = Ok (VDate 1451651696001))
  /\ toBuffer constructor (VDate (-1)) = Throw RangeError
  /\ toBuffer constructor (VDate (2 ^ 32 * 1000)) = Throw RangeError.
Proof.
  split; [|split].
  - apply (date_range_checked constructor 1451651696001). reflexivity.
  - apply (date_range_checked constructor (-1)). reflexivity.
  - apply (date_range_checked constructor (2 ^ 32 * 1000)). reflexivity.
Defined.

(** ** Number tags *)

Lemma writes_double_tag (x : Number.t) :
  writes (BufferWriter.uint8 0x64 ;; BufferWriter.double x)
         (0x64 :: NodeBuffer.writeDoubleBE x).
Proof.
  apply (writes_seq _ _ [0x64]); [apply writes_uint8; lia | apply writes_double].
Qed.

Lemma writes_toBufferInternalNumber (thing : Number.t) :
  Number.ok thing = true ->
  writes (toBufferInternalNumber thing) (number_bytes thing).
Proof.
  intros Hok. destruct thing as [|s|s m e].
  - apply (writes_ext _ (BufferWriter.uint8 0x64 ;; BufferWriter.double Number.NaN));
      [intros w; reflexivity | apply writes_double_tag].
  - apply (writes_ext _ (BufferWriter.uint8 0x64 ;; BufferWriter.double (Number.Infinity s)));
      [intros w; destruct s; vm_compute; reflexivity | apply writes_double_tag].
  - set (x := Number.Finite s m e) in *.
    unfold toBufferInternalNumber, number_bytes, integer_value.
    destruct (Number.is_integer x) eqn:Hint.
    + destruct (abs_integer x) as [Hai Hao].
      rewrite floor_integer by exact Hint.
      unfold x at 1 2. rewrite eqb_refl_finite. fold x.
      rewrite (ltb_integer x 0) by (try assumption; lia).
      rewrite !(leb_integer x) by (try assumption; lia).
      rewrite !(leb_integer (Number.abs x)) by (try congruence; lia).
      rewrite to_Z_abs by exact Hok.
      set (z := Number.to_Z x).
      destruct (Z.ltb_spec z 0) as [Hneg | Hpos].
      * rewrite Z.abs_neq by lia.
        destruct (Z.leb_spec (- z) 0xFF).
        { apply (writes_seq _ _ [0x2D] [- z]); apply writes_uint8; lia. }
        destruct (Z.leb_spec (- z) 0xFFFF).
        { apply (writes_seq _ _ [0x69]); [apply writes_uint8 | apply writes_uint16]; lia. }
        destruct (Z.leb_spec (- z) 0xFFFFFFFF).
        { apply (writes_seq _ _ [0x49]); [apply writes_uint8 | apply writes_uint32]; lia. }
        apply writes_double_tag.
      * destruct (Z.leb_spec z 0xFF).
        { apply (writes_seq _ _ [0x2B] [z]); apply writes_uint8; lia. }
        destruct (Z.leb_spec z 0xFFFF).
        { apply (writes_seq _ _ [0x70]); [apply writes_uint8 | apply writes_uint16]; lia. }
        destruct (Z.leb_spec z 0xFFFFFFFF).
        { apply (writes_seq _ _ [0x50]); [apply writes_uint8 | apply writes_uint32]; lia. }
        apply writes_double_tag.
    + unfold x at 1 2. rewrite floor_fraction by assumption.
      apply writes_double_tag.
Qed.

(** ** Leaf values read back *)

Lemma reads_number_value (s : BufferSerializer) (fuel : nat) (x : Number.t) :
  Number.ok x = true -> negative_zero x = false ->
  reads (fromBufferInternal (S fuel) s) (number_bytes x) (VNumber x).
Proof.
  intros Hok Hnz.
  assert (reads (fromBufferInternal (S fuel) s)
                (0x64 :: NodeBuffer.writeDoubleBE x) (VNumber x)) as Hdouble.
  { cbn [fromBufferInternal]. apply reads_tag. cbv beta iota.
    apply (reads_then_ret BufferReader.double VNumber). apply reads_double. exact Hok. }
  unfold number_bytes, integer_value.
  destruct (Number.is_integer x) eqn:Hint; [|exact Hdouble].
  destruct x as [| |sg m e]; try discriminate.
  set (x := Number.Finite sg m e) in *. set (z := Number.to_Z x).
  destruct (to_Z_sign sg m e Hok) as [Hsn Hsp]. fold x z in Hsn, Hsp.
  destruct (abs_integer x) as [Hai Hao].
  pose proof (to_Z_abs x Hok) as Habs. fold z in Habs.
  assert (Z.abs z < 2 ^ 53 -> z < 0 ->
          VNumber (Number.neg (Number.of_Z (- z))) = VNumber x) as Hnegative.
  { intros Hb Hlt. f_equal.
    replace (- z) with (Number.to_Z (Number.abs x)) by lia.
    rewrite of_Z_to_Z; try congruence; try lia.
    - apply neg_abs. apply Hsn. exact Hlt.
    - reflexivity. }
  assert (Z.abs z < 2 ^ 53 -> VNumber (Number.of_Z z) = VNumber x) as Hpositive.
  { intros Hb. f_equal. apply of_Z_to_Z; assumption. }
  destruct (Z.ltb_spec z 0) as [Hneg | Hpos].
  - destruct (Z.leb_spec (- z) 0xFF).
    { cbn [fromBufferInternal]. apply reads_tag. cbv beta iota.
      rewrite <- Hnegative by lia.
      apply (reads_then_ret BufferReader.uint8
               (fun v => VNumber (Number.neg (Number.of_Z v)))).
      apply reads_uint8. }
    destruct (Z.leb_spec (- z) 0xFFFF).
    { cbn [fromBufferInternal]. apply reads_tag. cbv beta iota.
      rewrite <- Hnegative by lia.
      apply (reads_then_ret BufferReader.uint16
               (fun v => VNumber (Number.neg (Number.of_Z v)))).
      apply reads_uint16. lia. }
    destruct (Z.leb_spec (- z) 0xFFFFFFFF); [|exact Hdouble].
    cbn [fromBufferInternal]. apply reads_tag. cbv beta iota.
    rewrite <- Hnegative by lia.
    apply (reads_then_ret BufferReader.uint32
             (fun v => VNumber (Number.neg (Number.of_Z v)))).
    apply reads_uint32. lia.
  - destruct (Z.leb_spec z 0xFF).
    { cbn [fromBufferInternal]. apply reads_tag. cbv beta iota.
      rewrite <- Hpositive by lia.
      apply (reads_then_ret BufferReader.uint8 (fun v => VNumber (Number.of_Z v))).
      apply reads_uint8. }
    destruct (Z.leb_spec z 0xFFFF).
    { cbn [fromBufferInternal]. apply reads_tag. cbv beta iota.
      rewrite <- Hpositive by lia.
      apply (reads_then_ret BufferReader.uint16 (fun v => VNumber (Number.of_Z v))).
      apply reads_uint16. lia. }
    destruct (Z.leb_spec z 0xFFFFFFFF); [|exact Hdouble].
    cbn [fromBufferInternal]. apply reads_tag. cbv beta iota.
    rewrite <- Hpositive by lia.
    apply (reads_then_ret BufferReader.uint32 (fun v => VNumber (Number.of_Z v))).
    apply reads_uint32. lia.
Qed.

Lemma latin1_text_spec (t : jsstring) :
  latin1_text t = true ->
  map (fun c => c mod 256) t = t /\ Z.of_nat (List.length t) < 0x1FFFFFFF.
Proof.
  unfold latin1_text. intros H. apply andb_prop in H as [Hl Hn]. split; [|lia].
  clear Hn. induction t as [|c r IH]; [reflexivity|].
  cbn [forallb map] in *. apply andb_prop in Hl as [Hc Hr].
  rewrite IH by exact Hr. unfold is_latin1 in Hc. rewrite Z.mod_small by lia.
  reflexivity.
Qed.

Lemma writes_toBufferInternalObjectBuffer (b : Buffer) :
  Z.of_nat (List.length b) < 0x1FFFFFFF ->
  writes (toBufferInternalObjectBuffer b) (buffer_bytes b).
Proof.
  intros H. unfold toBufferInternalObjectBuffer, buffer_bytes.
  apply (writes_seq _ _ [0x42]); [apply writes_uint8; lia|].
  apply writes_seq; [apply writes_size; lia | apply writes_buffer].
Qed.

Lemma reads_buffer_value (s : BufferSerializer) (fuel : nat) (b : Buffer) :
  Z.of_nat (List.length b) < 0x1FFFFFFF ->
  reads (fromBufferInternal (S fuel) s) (buffer_bytes b) (VBuffer b).
Proof.
  intros H. unfold buffer_bytes. cbn [fromBufferInternal].
  apply reads_tag. cbv beta iota.
  eapply reads_bind; [apply reads_size; lia|].
  apply (reads_then_ret (BufferReader.buffer (Z.of_nat (List.length b))) VBuffer).
  apply reads_buffer.
Qed.




(** ** Keys written and read back *)

Lemma of_Z_integer (z : Z) :
  Z.abs z < 2 ^ 53 ->
  Number.ok (Number.of_Z z) = true
  /\ Number.is_integer (Number.of_Z z) = true
  /\ Number.to_Z (Number.of_Z z) = z
  /\ (0 <= z -> negative_zero (Number.of_Z z) = false).
Proof.
  intros Hz. destruct (of_Z_exact z Hz) as (m & e & -> & Hsc & Hok).
  pose proof Hok as Hok0. apply ok_spec in Hok0 as (Hm & He & _).
  pose proof (pow2_pos (e + 1074) ltac:(lia)) as Hk.
  pose proof (pow2_pos 1074 ltac:(lia)) as HP.
  assert (Number.is_integer (Number.Finite (z <? 0) m e) = true) as Hint.
  { unfold Number.is_integer. destruct (Z.leb_spec 0 e); [reflexivity|].
    cbn [orb]. apply Z.eqb_eq.
    unfold Number.scaled in Hsc. rewrite (pow2_split e) in Hsc by lia.
    pose proof (pow2_pos (- e) ltac:(lia)) as Hd.
    assert (Number.signed (z <? 0) m = z * 2 ^ (- e)) as Hs by nia.
    unfold Number.signed in Hs. destruct (z <? 0).
    - replace m with ((- z) * 2 ^ (- e)) by lia. apply Z.mod_mul. lia.
    - rewrite Hs. apply Z.mod_mul. lia. }
  split; [exact Hok|]. split; [exact Hint|]. split.
  - pose proof (scaled_integer _ _ _ Hok Hint) as Hsi. rewrite Hsc in Hsi. nia.
  - intros Hnn. destruct (Z.ltb_spec z 0); [lia | reflexivity].
Qed.

Lemma tagged_number_bytes (x : Number.t) : tagged (number_bytes x).
Proof.
  unfold number_bytes.
  destruct (integer_value x) as [z|];
    repeat match goal with |- tagged (if ?c then _ else _) => destruct c end;
    (eexists; eexists; split; [reflexivity | lia]).
Qed.

Lemma tagged_string_bytes (t : jsstring) : tagged (string_bytes t).
Proof. eexists; eexists; split; [reflexivity | lia]. Qed.

Lemma tagged_key_bytes (k : jsstring) : tagged (key_bytes k).
Proof.
  unfold key_bytes. destruct (looks_like_index k);
    [apply tagged_number_bytes | apply tagged_string_bytes].
Qed.

Lemma key_ok_spec (k : jsstring) :
  key_ok k = true ->
  latin1_text k = true
  /\ (looks_like_index k = true -> 0 <= parse_decimal k < 2 ^ 53).
Proof.
  unfold key_ok. intros H. apply andb_prop in H as [Hl Hn]. split; [exact Hl|].
  intros Hi. rewrite Hi in Hn. split; [|lia].
  apply parse_nonneg. apply looks_like_index_spec in Hi. apply Hi.
Qed.

Lemma writes_key (s : BufferSerializer) (fuel : nat) (k : jsstring) :
  key_ok k = true ->
  writes (toBufferInternalKey (toBufferInternal (S fuel) s) k) (key_bytes k).
Proof.
  intros H. apply key_ok_spec in H as [Hl Hn].
  unfold toBufferInternalKey, key_bytes.
  destruct (looks_like_index k) eqn:Hi.
  - cbn [toBufferInternal]. apply writes_toBufferInternalNumber.
    apply of_Z_integer. specialize (Hn eq_refl). lia.
  - cbn [toBufferInternal]. apply writes_toBufferInternalString.
    apply latin1_text_spec. exact Hl.
Qed.

Lemma reads_key (s : BufferSerializer) (fuel : nat) (k : jsstring) :
  key_ok k = true ->
  exists key, reads (fromBufferInternal (S fuel) s) (key_bytes k) key
              /\ ToPropertyKey key = Some k.
Proof.
  intros H. apply key_ok_spec in H as [Hl Hn]. unfold key_bytes.
  destruct (looks_like_index k) eqn:Hi.
  - specialize (Hn eq_refl).
    destruct (of_Z_integer (parse_decimal k) ltac:(lia)) as (Hok & Hint & Hto & Hnz).
    exists (VNumber (Number.of_Z (parse_decimal k))). split.
    + apply reads_number_value; [exact Hok | apply Hnz; lia].
    + cbn [ToPropertyKey]. unfold Number.toString.
      destruct (Number.of_Z (parse_decimal k)) as [| |sg m e] eqn:E; try discriminate.
      rewrite Hint. pose proof (to_Z_abs _ Hok) as Ha. rewrite Hto in Ha.
      rewrite Ha, Z.abs_eq by lia. cbn [andb].
      destruct (Z.leb_spec (parse_decimal k) (2 ^ 53)); [|lia].
      rewrite decimal_parse by exact Hi.
      destruct sg; [|reflexivity].
      destruct (to_Z_sign true m e Hok) as [_ Hp]. rewrite Hto in Hp.
      destruct (Z.eqb_spec (parse_decimal k) 0) as [Hz | Hnz0]; [reflexivity|].
      specialize (Hp ltac:(lia)). discriminate.
  - exists (VString k). split; [|reflexivity].
    destruct (latin1_text_spec k Hl) as [Hm Hlen].
    rewrite <- Hm at 2. apply reads_string_value. exact Hlen.
Qed.

(** ** Property order *)

Lemma has_key_In (props : properties) (k : jsstring) :
  has_key props k = true <-> In k (Object_keys props).
Proof.
  induction props as [|[k' x] r IH]; cbn [has_key Object_keys map fst In].
  - split; [discriminate | contradiction].
  - rewrite orb_true_iff, jsstring_eqb_eq, IH. reflexivity.
Qed.

Lemma ordered_named (l : list jsstring) (lo : Z) :
  ordered_keys lo true l = true -> forall k, In k l -> array_index k = None.
Proof.
  induction l as [|k' r IH]; intros H k Hin; [contradiction|].
  cbn [ordered_keys] in H. destruct (array_index k') as [j|] eqn:E; [discriminate|].
  destruct Hin as [<- | Hin]; [exact E | apply IH; assumption].
Qed.

Lemma ordered_before_index (l : list jsstring) (k : jsstring) (i : Z) :
  array_index k = Some i ->
  forall lo named, ordered_keys lo named (l ++ [k]) = true ->
    lo <= i /\ forall k', In k' l -> exists j, array_index k' = Some j /\ j < i.
Proof.
  intros Hk. induction l as [|k0 r IH]; intros lo named H.
  - cbn [app ordered_keys] in H. rewrite Hk in H. split; [lia | contradiction].
  - cbn [app ordered_keys] in H. destruct (array_index k0) as [j|] eqn:E.
    + apply andb_prop in H as [H1 H2]. apply andb_prop in H1 as [_ Hlo].
      destruct (IH _ _ H2) as [Hj Hall]. split; [lia|].
      intros k' [<- | Hin]; [exists j; split; [exact E | lia] | apply Hall; exact Hin].
    + pose proof (ordered_named _ _ H k ltac:(apply in_or_app; right; now left)).
      congruence.
Qed.

Lemma insert_index_append (acc : properties) (i : Z) (k : jsstring) (v : value) :
  (forall k', In k' (Object_keys acc) -> exists j, array_index k' = Some j /\ j < i) ->
  insert_index acc i k v = acc ++ [(k, v)].
Proof.
  induction acc as [|[k0 x] r IH]; intros H; [reflexivity|].
  cbn [insert_index app].
  destruct (H k0 ltac:(now left)) as (j & -> & Hj).
  destruct (Z.ltb_spec j i); [|lia]. f_equal. apply IH.
  intros k' Hin. apply H. now right.
Qed.

Lemma set_property_append (acc : properties) (k : jsstring) (v : value) :
  ~ In k (Object_keys acc) ->
  own_key_order (Object_keys acc ++ [k]) = true ->
  set_property acc k v = acc ++ [(k, v)].
Proof.
  intros Hnew Hord. unfold set_property.
  destruct (has_key acc k) eqn:Hk; [apply has_key_In in Hk; contradiction|].
  destruct (array_index k) as [i|] eqn:E; [|reflexivity].
  apply insert_index_append.
  apply (ordered_before_index _ _ _ E 0 false Hord).
Qed.

Lemma ordered_prefix (l1 l2 : list jsstring) :
  forall lo named, ordered_keys lo named (l1 ++ l2) = true ->
                   ordered_keys lo named l1 = true.
Proof.
  induction l1 as [|k r IH]; intros lo named H; [reflexivity|].
  cbn [app ordered_keys] in *. destruct (array_index k) as [j|].
  - apply andb_prop in H as [H1 H2]. rewrite H1. cbn [andb]. apply (IH _ _ H2).
  - apply (IH _ _ H).
Qed.

Lemma ordered_indices (n : nat) (start : nat) :
  Z.of_nat (start + n) <= 2 ^ 32 - 1 ->
  ordered_keys (Z.of_nat start) false (map index_key (seq start n)) = true.
Proof.
  revert start. induction n as [|n IH]; intros start H; [reflexivity|].
  cbn [seq map ordered_keys]. rewrite array_index_index_key by lia.
  cbn [negb andb]. destruct (Z.leb_spec (Z.of_nat start) (Z.of_nat start)); [|lia].
  cbn [andb]. replace (Z.of_nat start + 1) with (Z.of_nat (S start)) by lia.
  apply IH. lia.
Qed.

Lemma implied_length_snoc (keys : list jsstring) (k : jsstring) :
  implied_length (keys ++ [k])
  = match array_index k with
    | Some i => Nat.max (implied_length keys) (S (Z.to_nat i))
    | None => implied_length keys
    end.
Proof. unfold implied_length. rewrite fold_left_app. reflexivity. Qed.

(** ** Loops *)

Lemma forEach_map {A B} (g : A -> B) (l : list A) (body : B -> BufferWriter.action) :
  forEach (map g l) body = forEach l (fun x => body (g x)).
Proof.
  induction l as [|x r IH]; [reflexivity|]. cbn [map forEach]. rewrite IH. reflexivity.
Qed.

Lemma forEach_writes {A} (l : list A) (chunks : list Buffer)
    (body : A -> BufferWriter.action) :
  Forall2 (fun x b => writes (body x) b) l chunks ->
  writes (forEach l body) (List.concat chunks).
Proof.
  induction 1 as [|x b l chunks Hx _ IH]; [apply writes_done|].
  cbn [forEach List.concat]. apply writes_seq; assumption.
Qed.

Lemma tagged_head (b : Buffer) :
  tagged b -> exists t rest, b = t :: rest /\ (t =? 0x21) = false.
Proof.
  intros (t & rest & -> & Ht). exists t, rest. split; [reflexivity|].
  apply Z.eqb_neq. exact Ht.
Qed.

Lemma tagged_length (b : Buffer) : tagged b -> (1 <= List.length b)%nat.
Proof. intros (t & rest & -> & _). cbn. lia. Qed.

(** A loop that runs until the terminator reads the members' bytes one
    after the other and then the terminator itself. *)
Lemma untilEnd_reads {A B X} (state : list X -> A)
    (body : A -> BufferReader.action A) (f : A -> B) :
  forall todo chunks done n,
    steps state body done todo chunks ->
    (List.length todo < n)%nat ->
    reads (let* r := untilEnd n body (state done) in
           let* _ := BufferReader.skip in
           BufferReader.ret (f r))
          (List.concat chunks ++ [0x21]) (f (state (done ++ todo))).
Proof.
  induction todo as [|x todo IH]; intros chunks done n Hsteps Hn.
  - destruct chunks; [|contradiction]. destruct n as [|n]; [cbn in Hn; lia|].
    rewrite app_nil_r. intros pre post. cbn [List.concat app untilEnd].
    unfold BufferReader.bind at 1 2.
    rewrite peek_middle. cbn [Z.eqb Pos.eqb]. unfold BufferReader.ret at 1.
    unfold BufferReader.bind, BufferReader.skip, BufferReader.ret.
    change 1 with (Z.of_nat 1). rewrite advance_new. reflexivity.
  - destruct chunks as [|b chunks]; [contradiction|].
    destruct Hsteps as (Htag & Hread & Hrest).
    destruct n as [|n]; [cbn in Hn; lia|]. cbn [List.length] in Hn.
    specialize (IH chunks (done ++ [x]) n Hrest ltac:(lia)).
    rewrite <- app_assoc in IH. cbn [app] in IH.
    destruct (tagged_head b Htag) as (t & rest & Eb & Ht).
    intros pre post. cbn [List.concat untilEnd].
    unfold BufferReader.bind at 1 2.
    rewrite <- !app_assoc.
    rewrite (peek_head pre b _ t) by (rewrite Eb; reflexivity).
    rewrite Ht. unfold BufferReader.bind at 1.
    rewrite (Hread pre (List.concat chunks ++ [33] ++ post)).
    specialize (IH (pre ++ b) post).
    rewrite <- !app_assoc, length_app in IH.
    unfold BufferReader.bind at 1 in IH.
    rewrite IH. rewrite !length_app. cbn [List.length].
    do 3 f_equal. lia.
Qed.

(** ** Encodings of the leaf values *)

Ltac fuel_succ fuel H :=
  destruct fuel as [|fuel]; [cbn in H; lia|].

Lemma encoding_defined (s : BufferSerializer) (v : value) (bytes : Buffer) :
  encoding s v bytes -> is_undefined v = false.
Proof.
  intros (_ & Hw & _). destruct v; try reflexivity. exfalso.
  destruct (Hw 2%nat ltac:(cbn; lia) BufferWriter.new) as (w & E & _).
  discriminate E.
Qed.

Lemma encoding_null (s : BufferSerializer) : encoding s VNull [0x6E].
Proof.
  split; [eexists; eexists; split; [reflexivity | lia]|]. split.
  - intros fuel H. fuel_succ fuel H. apply (writes_uint8 0x6E). lia.
  - intros fuel H. fuel_succ fuel H. cbn [fromBufferInternal].
    apply reads_tag. cbv beta iota. apply reads_ret.
Qed.

Lemma encoding_boolean (s : BufferSerializer) (b : bool) :
  encoding s (VBoolean b) [if b then 0x74 else 0x66].
Proof.
  split; [eexists; eexists; split; [reflexivity | destruct b; lia]|]. split.
  - intros fuel H. fuel_succ fuel H. cbn [toBufferInternal].
    destruct b; apply writes_uint8; lia.
  - intros fuel H. fuel_succ fuel H. cbn [fromBufferInternal].
    destruct b; apply reads_tag; cbv beta iota; apply reads_ret.
Qed.

Lemma encoding_number (s : BufferSerializer) (n : Number.t) :
  Number.ok n = true -> negative_zero n = false ->
  encoding s (VNumber n) (number_bytes n).
Proof.
  intros Hok Hnz. split; [apply tagged_number_bytes|]. split.
  - intros fuel H. fuel_succ fuel H. apply (writes_toBufferInternalNumber n Hok).
  - intros fuel H. pose proof (tagged_length _ (tagged_number_bytes n)).
    fuel_succ fuel H. apply reads_number_value; assumption.
Qed.


Lemma toBufferInternal_unclaimed (s : BufferSerializer) (fuel : nat) (v : value) :
  object_kind v = true -> unclaimed s v = true ->
  toBufferInternal (S fuel) s v
  = toBufferInternalObject (toBufferInternal fuel s) [] v.
Proof.
  intros Hk Hun. apply unclaimed_first_match in Hun.
  destruct v; try discriminate; cbn [toBufferInternal];
    apply toBufferInternalObject_unclaimed; exact Hun.
Qed.

Lemma encoding_buffer (s : BufferSerializer) (b : Buffer) :
  unclaimed s (VBuffer b) = true -> Z.of_nat (List.length b) < 0x1FFFFFFF ->
  encoding s (VBuffer b) (buffer_bytes b).
Proof.
  intros Hun Hlen. split; [eexists; eexists; split; [reflexivity | lia]|]. split.
  - intros fuel H. fuel_succ fuel H.
    rewrite toBufferInternal_unclaimed by (reflexivity || exact Hun).
    apply writes_toBufferInternalObjectBuffer. exact Hlen.
  - intros fuel H. fuel_succ fuel H. apply reads_buffer_value. exact Hlen.
Qed.




(** ** Encoding of an extension value *)

Lemma findHelper_find (self : BufferReader.action value) (hs : list helper)
    (wanted : jsstring) (h : helper) :
  find (fun h' => jsstring_eqb (name h') wanted) hs = Some h ->
  findHelper self hs wanted = fromBufferFn h self.
Proof.
  induction hs as [|h0 r IH]; [discriminate|]. cbn [find findHelper].
  destruct (jsstring_eqb (name h0) wanted); [intros [= ->]; reflexivity | exact IH].
Qed.


(** ** Dense lists *)

Lemma Object_keys_combine (ks : list jsstring) (vs : list value) :
  List.length ks = List.length vs -> Object_keys (combine ks vs) = ks.
Proof.
  revert vs. induction ks as [|k r IH]; intros [|v vs] H; try discriminate;
    [reflexivity|].
  cbn [combine Object_keys map fst]. f_equal. apply IH. cbn in H. lia.
Qed.

Lemma Object_keys_props_from (a : nat) (l : list value) :
  Object_keys (props_from a l) = map index_key (seq a (List.length l)).
Proof.
  unfold props_from. apply Object_keys_combine. rewrite length_map, length_seq.
  reflexivity.
Qed.

Lemma props_from_cons (a : nat) (x : value) (l : list value) :
  props_from a (x :: l) = (index_key a, x) :: props_from (S a) l.
Proof. reflexivity. Qed.

Lemma props_from_snoc (a : nat) (l : list value) (x : value) :
  props_from a (l ++ [x]) = props_from a l ++ [(index_key (a + List.length l), x)].
Proof.
  revert a. induction l as [|y l IH]; intros a.
  - cbn. rewrite Nat.add_0_r. reflexivity.
  - cbn [app]. rewrite !props_from_cons, IH. cbn [app List.length].
    rewrite Nat.add_succ_r. reflexivity.
Qed.

Lemma get_props_from_later (a : nat) (l : list value) (x : value) (i : nat) :
  (a < i)%nat ->
  get ((index_key a, x) :: props_from (S a) l) (index_key i)
  = get (props_from (S a) l) (index_key i).
Proof.
  intros H. cbn [get]. rewrite jsstring_eqb_neq; [reflexivity|].
  intros E. apply index_key_inj in E. lia.
Qed.

Lemma members_props_from (a : nat) (l : list value) :
  map (fun i => get (props_from a l) (index_key i)) (seq a (List.length l)) = l.
Proof.
  revert a. induction l as [|x l IH]; intros a; [reflexivity|].
  rewrite props_from_cons. cbn [List.length seq map]. f_equal.
  - cbn [get]. rewrite jsstring_eqb_refl. reflexivity.
  - rewrite <- (IH (S a)) at 2. apply map_ext_in. intros i Hi.
    apply in_seq in Hi. apply get_props_from_later. lia.
Qed.

Lemma existsb_map_seq {A} (p : A -> bool) (g : nat -> A) (l : list nat) :
  existsb (fun i => p (g i)) l = existsb p (map g l).
Proof.
  induction l as [|i r IH]; [reflexivity|]. cbn [existsb map]. rewrite IH. reflexivity.
Qed.

Lemma is_dense_dense (l : list value) :
  Forall (fun x => is_undefined x = false) l ->
  is_dense (List.length l) (props_from 0 l) = true.
Proof.
  intros H. unfold is_dense.
  rewrite Object_keys_props_from, length_map, length_seq, Nat.eqb_refl.
  cbn [andb]. rewrite existsb_map_seq, members_props_from.
  replace (existsb is_undefined l) with false; [reflexivity|].
  symmetry. induction H as [|x r Hx _ IH]; [reflexivity|].
  cbn [existsb]. rewrite Hx, IH. reflexivity.
Qed.

Lemma Array_push_dense_state (done : list value) (x : value) :
  Z.of_nat (S (List.length done)) <= 2 ^ 32 - 1 ->
  Array_push (dense_state done) x = dense_state (done ++ [x]).
Proof.
  intros H. unfold Array_push, dense_state. cbn [fst snd].
  rewrite length_app. cbn [List.length]. rewrite Nat.add_1_r. f_equal.
  rewrite props_from_snoc. cbn [Nat.add].
  apply set_property_append.
  - rewrite Object_keys_props_from. intros Hin.
    apply in_map_iff in Hin as (i & E & Hi). apply index_key_inj in E.
    apply in_seq in Hi. lia.
  - rewrite Object_keys_props_from. unfold own_key_order.
    replace (map index_key (seq 0 (List.length done)) ++ [index_key (List.length done)])
      with (map index_key (seq 0 (S (List.length done))))
      by (rewrite seq_S, map_app; reflexivity).
    apply (ordered_indices (S (List.length done)) 0). cbn [Nat.add]. lia.
Qed.

Lemma steps_dense (s : BufferSerializer) (fuel : nat) :
  forall todo chunks done,
    Forall2 (encoding s) todo chunks ->
    Forall (fun b => (List.length b <= fuel)%nat) chunks ->
    Z.of_nat (List.length (done ++ todo)) <= 2 ^ 32 - 1 ->
    steps dense_state
          (fun result => let* v := fromBufferInternal fuel s in
                         BufferReader.ret (Array_push result v))
          done todo chunks.
Proof.
  induction todo as [|x todo IH]; intros chunks done H2 Hf Hlen.
  - inversion H2. exact I.
  - inversion H2 as [|x' b todo' chunks' Hx Hrest]; subst.
    inversion Hf as [|b' chunks'' Hb Hf']; subst.
    rewrite length_app in Hlen. cbn [List.length] in Hlen.
    cbn [steps]. split; [apply Hx|]. split.
    + rewrite <- Array_push_dense_state by lia.
      apply (reads_then_ret (fromBufferInternal fuel s) (Array_push (dense_state done))).
      apply Hx. exact Hb.
    + apply IH; try assumption.
      rewrite <- app_assoc, length_app. cbn [app List.length]. lia.
Qed.

Lemma concat_length_bound (chunks : list Buffer) :
  Forall tagged chunks ->
  (List.length chunks <= List.length (List.concat chunks))%nat
  /\ Forall (fun b => (List.length b <= List.length (List.concat chunks))%nat) chunks.
Proof.
  induction 1 as [|b r Hb _ [IH1 IH2]]; [split; [cbn; lia | constructor]|].
  pose proof (tagged_length b Hb). cbn [List.concat List.length].
  rewrite length_app. split; [lia|]. constructor; [lia|].
  eapply Forall_impl; [|exact IH2]. cbn. intros; lia.
Qed.

Lemma Forall2_encoding_tagged (s : BufferSerializer) (l : list value)
    (chunks : list Buffer) :
  Forall2 (encoding s) l chunks ->
  Forall tagged chunks /\ List.length l = List.length chunks.
Proof.
  induction 1 as [|x b l chunks Hx _ [IH1 IH2]]; [split; [constructor | reflexivity]|].
  split; [constructor; [apply Hx | exact IH1] | cbn; lia].
Qed.

Lemma depth_members_props_from (a : nat) (l : list value) (x : value) :
  In x l -> (depth x <= depth_members (props_from a l))%nat.
Proof.
  revert a. induction l as [|y l IH]; intros a Hin; [contradiction|].
  rewrite props_from_cons. cbn [depth_members]. destruct Hin as [-> | Hin].
  - lia.
  - specialize (IH (S a) Hin). lia.
Qed.

Lemma Forall2_weaken_in {A B} (P Q : A -> B -> Prop) (l : list A) (m : list B) :
  Forall2 P l m -> (forall x y, In x l -> P x y -> Q x y) -> Forall2 Q l m.
Proof.
  induction 1 as [|x y l m Hxy _ IH]; intros Himp; constructor.
  - apply Himp; [now left | exact Hxy].
  - apply IH. intros x' y' Hin. apply Himp. now right.
Qed.

Lemma encoding_dense (s : BufferSerializer) (l : list value) (chunks : list Buffer) :
  Z.of_nat (List.length l) <= 2 ^ 32 - 1 ->
  Forall2 (encoding s) l chunks ->
  encoding s (dense l) (0x61 :: List.concat chunks ++ [0x21]).
Proof.
  intros Hlen H2.
  destruct (Forall2_encoding_tagged s l chunks H2) as [Htag Hcount].
  destruct (concat_length_bound chunks Htag) as [Hn Hsizes].
  split; [eexists; eexists; split; [reflexivity | lia]|]. split.
  - intros fuel H. fuel_succ fuel H. unfold dense. fold (props_from 0 l).
    cbn [toBufferInternal]. unfold toBufferInternalArray.
    fold (is_dense (List.length l) (props_from 0 l)).
    rewrite is_dense_dense.
    + apply (writes_seq _ _ [0x61]); [apply writes_string|].
      apply writes_seq; [|apply writes_string].
      rewrite <- (forEach_map (fun i => get (props_from 0 l) (index_key i))
                              (seq 0 (List.length l)) (toBufferInternal fuel s)).
      rewrite members_props_from. apply forEach_writes.
      unfold dense in H. fold (props_from 0 l) in H. rewrite depth_VArray in H.
      apply (Forall2_weaken_in _ _ _ _ H2). intros x b Hin Hx. apply Hx.
      pose proof (depth_members_props_from 0 l x Hin). lia.
    + clear - H2. induction H2 as [|x b l chunks Hx _ IH]; constructor;
        [exact (encoding_defined s x b Hx) | exact IH].
  - intros fuel H. fuel_succ fuel H. cbn [List.length] in H.
    rewrite length_app in H. cbn [List.length] in H.
    cbn [fromBufferInternal]. apply reads_tag. cbv beta iota.
    unfold fromBufferInternalArrayDense.
    apply (untilEnd_reads dense_state _ (fun result => VArray (fst result) (snd result))
             l chunks [] fuel).
    + apply steps_dense; [exact H2 | | exact Hlen].
      eapply Forall_impl; [|exact Hsizes]. cbn. intros; lia.
    + lia.
Qed.

(** ** Key and value streams *)

Lemma get_NoDup (props : properties) (k : jsstring) (x : value) :
  NoDup (Object_keys props) -> In (k, x) props -> get props k = x.
Proof.
  induction props as [|[k0 x0] r IH]; intros Hnd Hin; [contradiction|].
  cbn [Object_keys map fst] in Hnd. inversion Hnd as [|? ? Hnotin Hnd']; subst.
  cbn [get]. destruct Hin as [[= -> ->] | Hin].
  - rewrite jsstring_eqb_refl. reflexivity.
  - rewrite jsstring_eqb_neq; [apply IH; assumption|].
    intros ->. apply Hnotin. apply (in_map fst _ _ Hin).
Qed.

Lemma depth_members_In (props : properties) (k : jsstring) (x : value) :
  In (k, x) props -> (depth x <= depth_members props)%nat.
Proof.
  induction props as [|[k0 x0] r IH]; intros Hin; [contradiction|].
  cbn [depth_members]. destruct Hin as [[= -> ->] | Hin]; [lia|].
  specialize (IH Hin). lia.
Qed.

Lemma tagged_app (a b : Buffer) : tagged a -> tagged (a ++ b).
Proof.
  intros (t & rest & -> & Ht). exists t, (rest ++ b). split; [reflexivity | exact Ht].
Qed.

Lemma pair_chunks_tagged (props : properties) (chunks : list Buffer) :
  List.length props = List.length chunks ->
  Forall tagged (pair_chunks props chunks)
  /\ List.length (pair_chunks props chunks) = List.length props.
Proof.
  revert chunks. induction props as [|[k x] r IH]; intros [|b chunks] H;
    try discriminate; [split; [constructor | reflexivity]|].
  cbn [pair_chunks List.length]. destruct (IH chunks ltac:(cbn in H; lia)) as [I1 I2].
  split; [constructor; [apply tagged_app, tagged_key_bytes | exact I1] | lia].
Qed.

Lemma pair_chunks_sizes (props : properties) (chunks : list Buffer) (n : nat) :
  Forall (fun c => (List.length c <= n)%nat) (pair_chunks props chunks) ->
  List.length props = List.length chunks ->
  Forall (fun b => (List.length b <= n)%nat) chunks.
Proof.
  revert chunks. induction props as [|[k x] r IH]; intros [|b chunks] Hf H;
    try discriminate; [constructor|].
  cbn [pair_chunks] in Hf. inversion Hf as [|? ? Hc Hf']; subst.
  rewrite length_app in Hc. constructor; [lia|].
  apply IH; [exact Hf' | cbn in H; lia].
Qed.

(** The loop over the keys of a sparse array or an object writes the
    pairs. *)
Lemma writes_pairs (s : BufferSerializer) (fuel : nat) (props : properties)
    (chunks : list Buffer) (reserved : jsstring) :
  keys_ok reserved props ->
  Forall2 (encoding s) (map snd props) chunks ->
  (S (depth_members props) < S fuel)%nat ->
  writes (forEach (Object_keys props)
            (fun key => toBufferInternalKey (toBufferInternal (S fuel) s) key ;;
                        toBufferInternal (S fuel) s (get props key)))
         (List.concat (pair_chunks props chunks)).
Proof.
  intros (Hnd & _ & Hkeys) H2 Hfuel. apply forEach_writes.
  assert (forall sub subchunks,
            incl sub props ->
            Forall2 (encoding s) (map snd sub) subchunks ->
            Forall2 (fun k c =>
                       writes (toBufferInternalKey (toBufferInternal (S fuel) s) k ;;
                               toBufferInternal (S fuel) s (get props k)) c)
                    (Object_keys sub) (pair_chunks sub subchunks)) as Hsub.
  { induction sub as [|[k x] r IH]; intros subchunks Hincl Hs2.
    - inversion Hs2. constructor.
    - cbn [map snd] in Hs2. inversion Hs2 as [|? b ? chunks' Hx Hrest]; subst.
      cbn [Object_keys map fst pair_chunks]. constructor.
      + assert (In (k, x) props) as Hin by (apply Hincl; now left).
        apply writes_seq.
        * apply writes_key. rewrite Forall_forall in Hkeys.
          apply (Hkeys k). apply (in_map fst _ _ Hin).
        * rewrite (get_NoDup props k x Hnd Hin). apply Hx.
          pose proof (depth_members_In props k x Hin). lia.
      + apply IH; [|exact Hrest]. intros kv Hkv. apply Hincl. now right. }
  apply Hsub; [apply incl_refl | exact H2].
Qed.

(** Reading one pair and assigning it. *)
Lemma reads_pair {A} (s : BufferSerializer) (fuel : nat) (k : jsstring)
    (x : value) (b : Buffer) (set : value -> value -> BufferReader.action A)
    (next : A) :
  key_ok k = true -> encoding s x b -> (List.length b <= S fuel)%nat ->
  (forall key, ToPropertyKey key = Some k -> set key x = BufferReader.ret next) ->
  reads (let* key := fromBufferInternal (S fuel) s in
         let* v := fromBufferInternal (S fuel) s in
         set key v)
        (key_bytes k ++ b) next.
Proof.
  intros Hk Hx Hb Hset. destruct (reads_key s fuel k Hk) as (key & Hread & Hprop).
  eapply reads_bind; [exact Hread|].
  rewrite <- (app_nil_r b). eapply reads_bind; [apply Hx; exact Hb|].
  rewrite (Hset key Hprop). apply reads_ret.
Qed.

Lemma Object_keys_app (a b : properties) :
  Object_keys (a ++ b) = Object_keys a ++ Object_keys b.
Proof. unfold Object_keys. apply map_app. Qed.

Lemma keys_step (reserved : jsstring) (done : properties) (k : jsstring)
    (x : value) (todo : properties) :
  keys_ok reserved (done ++ (k, x) :: todo) ->
  key_ok k = true /\ k <> reserved
  /\ ~ In k (Object_keys done)
  /\ own_key_order (Object_keys done ++ [k]) = true.
Proof.
  intros (Hnd & Hord & Hkeys).
  rewrite Object_keys_app in *. cbn [Object_keys map fst] in *.
  rewrite Forall_forall in Hkeys.
  destruct (Hkeys k ltac:(apply in_or_app; right; now left)) as [Hok Hres].
  repeat split; try assumption.
  - apply NoDup_remove_2 in Hnd. intros Hin. apply Hnd. apply in_or_app. now left.
  - change (k :: map fst todo) with ([k] ++ map fst todo) in Hord.
    rewrite app_assoc in Hord. apply (ordered_prefix _ _ _ _ Hord).
Qed.

Lemma Array_set_sparse_state (done : properties) (k : jsstring) (key x : value) :
  ToPropertyKey key = Some k -> k <> str "length" -> k <> str "__proto__" ->
  ~ In k (Object_keys done) ->
  own_key_order (Object_keys done ++ [k]) = true ->
  Array_set (sparse_state done) key x
  = BufferReader.ret (sparse_state (done ++ [(k, x)])).
Proof.
  intros Hkey Hres Hres' Hnew Hord. unfold Array_set. rewrite Hkey.
  rewrite (jsstring_eqb_neq _ _ Hres), (jsstring_eqb_neq _ _ Hres').
  cbn [orb]. unfold sparse_state. cbn [fst snd].
  rewrite set_property_append by assumption.
  rewrite Object_keys_app. cbn [Object_keys map fst].
  rewrite implied_length_snoc. reflexivity.
Qed.

Lemma Object_set_state (done : properties) (k : jsstring) (key x : value) :
  ToPropertyKey key = Some k -> k <> str "__proto__" ->
  ~ In k (Object_keys done) ->
  own_key_order (Object_keys done ++ [k]) = true ->
  Object_set done key x = BufferReader.ret (done ++ [(k, x)]).
Proof.
  intros Hkey Hres Hnew Hord. unfold Object_set. rewrite Hkey.
  rewrite jsstring_eqb_neq by exact Hres.
  rewrite set_property_append by assumption. reflexivity.
Qed.

Lemma steps_sparse (s : BufferSerializer) (fuel : nat) :
  forall todo chunks done,
    keys_ok (str "length") (done ++ todo) ->
    keys_ok (str "__proto__") (done ++ todo) ->
    Forall2 (encoding s) (map snd todo) chunks ->
    Forall (fun b => (List.length b <= S fuel)%nat) chunks ->
    steps sparse_state
          (fun result => let* key := fromBufferInternal (S fuel) s in
                         let* v := fromBufferInternal (S fuel) s in
                         Array_set result key v)
          done todo (pair_chunks todo chunks).
Proof.
  induction todo as [|[k x] todo IH]; intros chunks done Hkeys Hkeys' H2 Hf.
  - inversion H2. exact I.
  - cbn [map snd] in H2. inversion H2 as [|? b ? chunks' Hx Hrest]; subst.
    inversion Hf as [|? ? Hb Hf']; subst.
    destruct (keys_step _ _ _ _ _ Hkeys) as (Hok & Hres & Hnew & Hord).
    destruct (keys_step _ _ _ _ _ Hkeys') as (_ & Hres' & _ & _).
    cbn [pair_chunks steps]. split; [apply tagged_app, tagged_key_bytes|]. split.
    + apply (reads_pair s fuel k x b); try assumption.
      intros key Hkey. apply Array_set_sparse_state; assumption.
    + apply IH; try assumption; rewrite <- app_assoc; assumption.
Qed.

Lemma steps_object (s : BufferSerializer) (fuel : nat) :
  forall todo chunks done,
    keys_ok (str "__proto__") (done ++ todo) ->
    Forall2 (encoding s) (map snd todo) chunks ->
    Forall (fun b => (List.length b <= S fuel)%nat) chunks ->
    steps (fun done : properties => done)
          (fun result => let* key := fromBufferInternal (S fuel) s in
                         let* v := fromBufferInternal (S fuel) s in
                         Object_set result key v)
          done todo (pair_chunks todo chunks).
Proof.
  induction todo as [|[k x] todo IH]; intros chunks done Hkeys H2 Hf.
  - inversion H2. exact I.
  - cbn [map snd] in H2. inversion H2 as [|? b ? chunks' Hx Hrest]; subst.
    inversion Hf as [|? ? Hb Hf']; subst.
    destruct (keys_step _ _ _ _ _ Hkeys) as (Hok & Hres & Hnew & Hord).
    cbn [pair_chunks steps]. split; [apply tagged_app, tagged_key_bytes|]. split.
    + apply (reads_pair s fuel k x b); try assumption.
      intros key Hkey. apply Object_set_state; assumption.
    + apply IH; try assumption. rewrite <- app_assoc. exact Hkeys.
Qed.

Lemma pairs_fuel (props : properties) (chunks : list Buffer) (fuel : nat) :
  Forall2 (fun (_ : value) (b : Buffer) => tagged b) (map snd props) chunks ->
  (List.length (List.concat (pair_chunks props chunks) ++ [0x21%Z]) <= fuel)%nat ->
  exists fuel', fuel = S fuel'
    /\ (List.length props < fuel)%nat
    /\ Forall (fun b => (List.length b <= fuel)%nat) chunks.
Proof.
  intros H2 Hlen. rewrite length_app in Hlen. cbn [List.length] in Hlen.
  assert (List.length props = List.length chunks) as Hcount.
  { apply Forall2_length in H2. rewrite length_map in H2. exact H2. }
  destruct (pair_chunks_tagged props chunks Hcount) as [Htag Hn].
  destruct (concat_length_bound _ Htag) as [Hc Hsizes]. rewrite Hn in Hc.
  destruct fuel as [|fuel']; [lia|]. exists fuel'. split; [reflexivity|].
  split; [lia|]. apply (pair_chunks_sizes props); [|exact Hcount].
  eapply Forall_impl; [|exact Hsizes]. cbn. intros; lia.
Qed.

Lemma Forall2_tagged (s : BufferSerializer) (l : list value) (chunks : list Buffer) :
  Forall2 (encoding s) l chunks ->
  Forall2 (fun (_ : value) (b : Buffer) => tagged b) l chunks.
Proof.
  intros H. apply (Forall2_weaken_in _ _ _ _ H). intros x b _ Hx. apply Hx.
Qed.

Lemma encoding_sparse (s : BufferSerializer) (length : nat) (props : properties)
    (chunks : list Buffer) :
  is_dense length props = false ->
  keys_ok (str "length") props ->
  keys_ok (str "__proto__") props ->
  length = implied_length (Object_keys props) ->
  Forall2 (encoding s) (map snd props) chunks ->
  encoding s (VArray length props)
           (0x41 :: List.concat (pair_chunks props chunks) ++ [0x21]).
Proof.
  intros Hsparse Hkeys Hkeys' Hlen H2.
  split; [eexists; eexists; split; [reflexivity | lia]|]. split.
  - intros fuel H. fuel_succ fuel H. rewrite depth_VArray in H.
    fuel_succ fuel H.
    cbn [toBufferInternal]. unfold toBufferInternalArray.
    fold (is_dense length props). rewrite Hsparse.
    apply (writes_seq _ _ [0x41]); [apply writes_string|].
    apply writes_seq; [|apply writes_string].
    apply (writes_pairs s fuel props chunks (str "length")); try assumption. lia.
  - intros fuel H. fuel_succ fuel H. cbn [List.length] in H.
    destruct (pairs_fuel props chunks fuel (Forall2_tagged _ _ _ H2) ltac:(lia))
      as (fuel' & -> & Hrounds & Hsizes).
    cbn [fromBufferInternal]. apply reads_tag. cbv beta iota.
    unfold fromBufferInternalArraySparse.
    replace (VArray length props)
      with ((fun result : nat * properties => VArray (fst result) (snd result))
              (sparse_state ([] ++ props)))
      by (cbn [app sparse_state fst snd]; rewrite Hlen; reflexivity).
    apply (untilEnd_reads sparse_state _
             (fun result => VArray (fst result) (snd result))
             props (pair_chunks props chunks) [] (S fuel')).
    + apply steps_sparse; assumption.
    + exact Hrounds.
Qed.

Lemma encoding_object (s : BufferSerializer) (props : properties)
    (chunks : list Buffer) :
  unclaimed s (VObject "Object" props) = true ->
  keys_ok (str "__proto__") props ->
  Forall2 (encoding s) (map snd props) chunks ->
  encoding s (VObject "Object" props)
           (0x4F :: List.concat (pair_chunks props chunks) ++ [0x21]).
Proof.
  intros Hun Hkeys H2.
  split; [eexists; eexists; split; [reflexivity | lia]|]. split.
  - intros fuel H. fuel_succ fuel H. rewrite depth_VObject in H.
    fuel_succ fuel H.
    rewrite toBufferInternal_unclaimed by (reflexivity || exact Hun).
    cbn [toBufferInternalObject]. unfold toBufferInternalObjectGeneric.
    apply (writes_seq _ _ [0x4F]); [apply writes_string|].
    apply writes_seq; [|apply writes_string].
    apply (writes_pairs s fuel props chunks (str "__proto__")); try assumption. lia.
  - intros fuel H. fuel_succ fuel H. cbn [List.length] in H.
    destruct (pairs_fuel props chunks fuel (Forall2_tagged _ _ _ H2) ltac:(lia))
      as (fuel' & -> & Hrounds & Hsizes).
    cbn [fromBufferInternal]. apply reads_tag. cbv beta iota.
    unfold fromBufferInternalObjectGeneric.
    apply (untilEnd_reads (fun done : properties => done) _
             (fun result => VObject "Object" result)
             props (pair_chunks props chunks) [] (S fuel')).
    + apply steps_object; assumption.
    + exact Hrounds.
Qed.

(** ** Round trip *)








(** ** What [fromBuffer] returns *)




(** ** The width of a number *)

Lemma reads_functional {A} (m : BufferReader.action A) (bytes : Buffer) (a b : A) :
  reads m bytes a -> reads m bytes b -> a = b.
Proof.
  intros Ha Hb. specialize (Ha [] []). specialize (Hb [] []).
  rewrite Ha in Hb. injection Hb as ->. reflexivity.
Qed.

Lemma neg_of_Z (v : Z) : Number.neg (Number.of_Z v) = negated v.
Proof.
  unfold negated, minus_zero. destruct (Z.eqb_spec v 0) as [->|Hv]; [reflexivity|].
  unfold Number.of_Z.
  destruct (Z.eqb_spec v 0); [contradiction|].
  destruct (Z.eqb_spec (- v) 0); [lia|].
  rewrite Z.abs_opp. cbv zeta.
  destruct (Z.log2 (Z.abs v) <=? 52).
  - cbn [Number.neg]. f_equal. lia.
  - destruct (971 <? _); cbn [Number.neg]; f_equal; lia.
Qed.

(** What each integer code decodes to. *)
Lemma reads_integer_code (s : BufferSerializer) (fuel : nat)
    (code : Z) (width : nat) (negative : bool) (v : Z) :
  In (code, width, negative) integer_codes ->
  0 <= v < 256 ^ Z.of_nat width ->
  reads (fromBufferInternal (S fuel) s) (code :: big_endian width v)
        (VNumber (if negative then negated v else Number.of_Z v)).
Proof.
  intros Hin Hv. cbn [integer_codes In] in Hin.
  assert (forall b, 0 <= b < 256 -> big_endian 1 b = [b]) as B1.
  { intros b Hb. cbn [big_endian app]. rewrite Z.mod_small by lia. reflexivity. }
  destruct Hin as [E|[E|[E|[E|[E|[E|[]]]]]]]; injection E as <- <- <-;
    cbn [fromBufferInternal]; apply reads_tag; cbv beta iota;
    rewrite <- ?neg_of_Z.
  - rewrite B1 by (change (256 ^ Z.of_nat 1) with 256 in Hv; lia).
    apply (reads_then_ret BufferReader.uint8 (fun v => VNumber (Number.of_Z v))).
    apply reads_uint8.
  - rewrite B1 by (change (256 ^ Z.of_nat 1) with 256 in Hv; lia).
    apply (reads_then_ret BufferReader.uint8
             (fun v => VNumber (Number.neg (Number.of_Z v)))).
    apply reads_uint8.
  - apply (reads_then_ret BufferReader.uint16 (fun v => VNumber (Number.of_Z v))).
    apply reads_uint16. change (256 ^ Z.of_nat 2) with 65536 in Hv. lia.
  - apply (reads_then_ret BufferReader.uint16
             (fun v => VNumber (Number.neg (Number.of_Z v)))).
    apply reads_uint16. change (256 ^ Z.of_nat 2) with 65536 in Hv. lia.
  - apply (reads_then_ret BufferReader.uint32 (fun v => VNumber (Number.of_Z v))).
    apply reads_uint32. change (256 ^ Z.of_nat 4) with 4294967296 in Hv. lia.
  - apply (reads_then_ret BufferReader.uint32
             (fun v => VNumber (Number.neg (Number.of_Z v)))).
    apply reads_uint32. change (256 ^ Z.of_nat 4) with 4294967296 in Hv. lia.
Qed.

(** The record of an integer is no longer than its magnitude needs. *)
Lemma number_bytes_of_Z_length (z : Z) (width : nat) :
  In width [1%nat; 2%nat; 4%nat] ->
  Z.abs z < 256 ^ Z.of_nat width ->
  (List.length (number_bytes (Number.of_Z z)) <= S width)%nat.
Proof.
  intros Hw Hz.
  assert ((width = 1%nat /\ Z.abs z < 256) \/ (width = 2%nat /\ Z.abs z < 65536)
          \/ (width = 4%nat /\ Z.abs z < 4294967296)) as Hb.
  { cbn [In] in Hw. destruct Hw as [<-|[<-|[<-|[]]]].
    - left. split; [reflexivity | exact Hz].
    - right. left. split; [reflexivity | exact Hz].
    - right. right. split; [reflexivity | exact Hz]. }
  clear Hw Hz.
  destruct (of_Z_integer z ltac:(lia)) as (_ & Hint & Hto & _).
  unfold number_bytes, integer_value. rewrite Hint, Hto.
  destruct (Z.ltb_spec z 0);
    repeat match goal with
           | |- context [if ?a <=? ?b then _ else _] => destruct (Z.leb_spec a b)
           end;
    cbn [List.length]; rewrite ?big_endian_length; lia.
Qed.

Lemma number_bytes_length (x : Number.t) :
  (List.length (number_bytes x) <= 9)%nat.
Proof.
  unfold number_bytes.
  destruct (integer_value x) as [z|]; [|cbn; lia].
  repeat match goal with
         | |- context [if ?c then _ else _] => destruct c
         end;
    cbn [List.length]; rewrite ?big_endian_length; try lia;
    change (List.length (NodeBuffer.writeDoubleBE x)) with 8%nat; lia.
Qed.

Lemma negative_zero_spec (x : Number.t) :
  Number.ok x = true -> negative_zero x = true -> x = minus_zero.
Proof.
  destruct x as [| |[|] [| |] e]; try discriminate.
  intros Hok _. unfold Number.ok in Hok. unfold minus_zero. f_equal. lia.
Qed.

(** C7, refuted as stated: negative zero has no fractional part, and the
    tag chosen for it is not a lossless one.  It is written with the
    positive 8-bit tag and payload 0, which decodes to zero, while the
    negative 8-bit tag with payload 0 decodes to negative zero. *)
Lemma negative_zero_loses_its_sign :
  Number.is_integer minus_zero = true
  /\ toBuffer constructor (VNumber minus_zero) = Ok [0x00; 0x2B; 0x00]
  /\ fromBuffer constructor [0x00; 0x2B; 0x00] 0 = Ok (VNumber (Number.of_Z 0))
  /\ VNumber (Number.of_Z 0) <> VNumber minus_zero
  /\ fromBuffer constructor [0x00; 0x2D; 0x00] 0 = Ok (VNumber minus_zero).
Proof.
  split; [reflexivity|].
  split; [vm_compute; reflexivity|].
  split; [vm_compute; reflexivity|].
  split; [discriminate|].
  vm_compute. reflexivity.
Qed.

(** C7, as the code has it: a number is written as [number_bytes] lays it
    out.  A number without fractional part and of magnitude at most
    [0xFF], [0xFFFF] or [0xFFFFFFFF] takes the 8-, 16- or 32-bit tag of its
    sign followed by its magnitude; any other number (with a fractional
    part, beyond 32 bits, infinite or not a number) takes the double tag
    and its eight IEEE-754 bytes.  The record decodes to the number, except
    for negative zero, whose record decodes to zero.  For every other
    number the record is the shortest there is: no record is longer than
    the nine bytes of a double, and a record of an integer code that
    decodes to the number is at least as long as the one written.  So 62
    is written 2B 3E, -300 is 69 01 2C, -203040 is 49 00 03 19 20 and 1.25
    is 64 followed by 3F F4 00 00 00 00 00 00. *)
Theorem number_width_selection (serializer : BufferSerializer) (fuel : nat)
    (thing : Number.t) :
  Number.ok thing = true ->
  writes (toBufferInternal (S fuel) serializer (VNumber thing)) (number_bytes thing)
  /\ reads (fromBufferInternal (S fuel) serializer) (number_bytes thing)
           (VNumber (if negative_zero thing then Number.of_Z 0 else thing))
  /\ (List.length (number_bytes thing) <= 9)%nat
  /\ (negative_zero thing = false ->
      forall code width negative v,
        In (code, width, negative) integer_codes ->
        0 <= v < 256 ^ Z.of_nat width ->
        reads (fromBufferInternal (S fuel) serializer)
              (code :: big_endian width v) (VNumber thing) ->
        (List.length (number_bytes thing) <= S width)%nat)
  /\ List.length (NodeBuffer.writeDoubleBE thing) = 8%nat
  /\ toBuffer serializer (VNumber (Number.of_Z 62)) = Ok [0x00; 0x2B; 0x3E]
  /\ toBuffer serializer (VNumber (Number.of_Z (-300))) = Ok [0x00; 0x69; 0x01; 0x2C]
  /\ toBuffer serializer (VNumber (Number.of_Z (-203040)))
     = Ok [0x00; 0x49; 0x00; 0x03; 0x19; 0x20]
  /\ toBuffer serializer (VNumber (Number.Finite false (5 * 2 ^ 50) (-52)))
     = Ok [0x00; 0x64; 0x3F; 0xF4; 0x00; 0x00; 0x00; 0x00; 0x00; 0x00].
Proof.
  intros Hok.
  split; [apply (writes_toBufferInternalNumber thing Hok)|].
  split.
  { destruct (negative_zero thing) eqn:Hnz.
    - rewrite (negative_zero_spec thing Hok Hnz).
      change (number_bytes minus_zero) with (0x2B :: big_endian 1 0).
      apply (reads_integer_code serializer fuel 0x2B 1 false 0);
        [now left | change (256 ^ Z.of_nat 1) with 256; lia].
    - apply reads_number_value; assumption. }
  split; [apply number_bytes_length|].
  split.
  { intros Hnz code width negative v Hin Hv Hread.
    pose proof (reads_integer_code serializer fuel code width negative v Hin Hv)
      as Hcode.
    pose proof (reads_functional _ _ _ _ Hread Hcode) as E. injection E as ->.
    assert (In width [1%nat; 2%nat; 4%nat]) as Hw.
    { cbn [integer_codes In] in Hin |- *.
      destruct Hin as [E|[E|[E|[E|[E|[E|[]]]]]]]; injection E as _ <- _; tauto. }
    destruct negative.
    - unfold negated in *. destruct (Z.eqb_spec v 0) as [Hv0|Hv0];
        [discriminate Hnz|].
      apply number_bytes_of_Z_length; [exact Hw | lia].
    - apply number_bytes_of_Z_length; [exact Hw | lia]. }
  split; [reflexivity|].
  repeat split; vm_compute; reflexivity.
Qed.

Lemma number_width_selection_witness :
  (writes (toBufferInternal 1 constructor (VNumber (Number.of_Z 70000)))
          [0x50; 0x00; 0x01; 0x11; 0x70]
   /\ reads (fromBufferInternal 1 constructor) [0x50; 0x00; 0x01; 0x11; 0x70]
            (VNumber (Number.of_Z 70000)))
  /\ (writes (toBufferInternal 1 constructor (VNumber (Number.of_Z (- (2 ^ 32)))))
             [0x64; 0xC1; 0xF0; 0x00; 0x00; 0x00; 0x00; 0x00; 0x00]
      /\ reads (fromBufferInternal 1 constructor)
               [0x64; 0xC1; 0xF0; 0x00; 0x00; 0x00; 0x00; 0x00; 0x00]
               (VNumber (Number.of_Z (- (2 ^ 32)))))
  /\ reads (fromBufferInternal 1 constructor) [0x2B; 0x00] (VNumber (Number.of_Z 0)).
Proof.
  destruct (number_width_selection constructor 0 (Number.of_Z 70000))
    as (W1 & R1 & _); [reflexivity|].
  destruct (number_width_selection constructor 0 (Number.of_Z (- (2 ^ 32))))
    as (W2 & R2 & _); [reflexivity|].
  destruct (number_width_selection constructor 0 minus_zero)
    as (_ & R3 & _); [reflexivity|].
  split; [split; [exact W1 | exact R1]|].
  split; [split; [exact W2 | exact R2] | exact R3].
Defined.

(** * Further properties of the writer and the reader *)

(** ** Fixed-width fields *)

Lemma throws_uint8 (v : Z) :
  NodeBuffer.in_range v 0xFF = false -> throws (BufferWriter.uint8 v) RangeError.
Proof.
  intros H w. unfold BufferWriter.uint8, NodeBuffer.writeUInt8. rewrite H. reflexivity.
Qed.

Lemma throws_uint16 (v : Z) :
  NodeBuffer.in_range v 0xFFFF = false -> throws (BufferWriter.uint16 v) RangeError.
Proof.
  intros H w. unfold BufferWriter.uint16, NodeBuffer.writeUInt16BE. rewrite H. reflexivity.
Qed.

Lemma in_range_spec (v max : Z) :
  NodeBuffer.in_range v max = true <-> 0 <= v <= max.
Proof. unfold NodeBuffer.in_range. lia. Qed.

(** X1: the unsigned integer fields.  A value the width can hold is written as
    its big-endian bytes, as many as the width, and the reader's method of
    the same width returns it from them; any other value is refused by the
    writer with a range error. *)
Theorem uint_fields_round_trip (v : Z) :
  (if NodeBuffer.in_range v 0xFF
   then writes (BufferWriter.uint8 v) [v] /\ reads BufferReader.uint8 [v] v
   else throws (BufferWriter.uint8 v) RangeError)
  /\ (if NodeBuffer.in_range v 0xFFFF
      then writes (BufferWriter.uint16 v) [v / 256; v mod 256]
           /\ reads BufferReader.uint16 [v / 256; v mod 256] v
      else throws (BufferWriter.uint16 v) RangeError)
  /\ (if NodeBuffer.in_range v 0xFFFFFFFF
      then writes (BufferWriter.uint32 v)
                  [v / 2 ^ 24; v / 2 ^ 16 mod 256; v / 2 ^ 8 mod 256; v mod 256]
           /\ reads BufferReader.uint32
                    [v / 2 ^ 24; v / 2 ^ 16 mod 256; v / 2 ^ 8 mod 256; v mod 256] v
      else throws (BufferWriter.uint32 v) RangeError).
Proof.
  split; [|split].
  - destruct (NodeBuffer.in_range v 0xFF) eqn:E.
    + apply in_range_spec in E. split; [apply writes_uint8; exact E | apply reads_uint8].
    + apply throws_uint8. exact E.
  - destruct (NodeBuffer.in_range v 0xFFFF) eqn:E.
    + apply in_range_spec in E.
      assert (big_endian 2 v = [v / 256; v mod 256]) as B.
      { cbn [big_endian app]. f_equal. apply Z.mod_small.
        split; [apply Z.div_pos | apply Z.div_lt_upper_bound]; lia. }
      rewrite <- B. split; [apply writes_uint16 | apply reads_uint16]; exact E.
    + apply throws_uint16. exact E.
  - destruct (NodeBuffer.in_range v 0xFFFFFFFF) eqn:E.
    + apply in_range_spec in E.
      assert (big_endian 4 v
              = [v / 2 ^ 24; v / 2 ^ 16 mod 256; v / 2 ^ 8 mod 256; v mod 256]) as B.
      { cbn [big_endian app]. rewrite !Z.div_div by lia.
        change (256 * 256) with (2 ^ 16). change (256 * 2 ^ 16) with (2 ^ 24).
        change 256 with (2 ^ 8) at 3.
        f_equal. apply Z.mod_small.
        split; [apply Z.div_pos | apply Z.div_lt_upper_bound]; lia. }
      rewrite <- B. split; [apply writes_uint32 | apply reads_uint32]; exact E.
    + apply throws_uint32. unfold NodeBuffer.in_range in E. lia.
Qed.

(** X2: the double field: every number is written as the eight bytes of its
    binary64 encoding and read back from them as the same number, the sign
    of zero and the infinities included. *)
Theorem double_field_round_trip (x : Number.t) :
  Number.ok x = true ->
  writes (BufferWriter.double x) (NodeBuffer.writeDoubleBE x)
  /\ List.length (NodeBuffer.writeDoubleBE x) = 8%nat
  /\ reads BufferReader.double (NodeBuffer.writeDoubleBE x) x.
Proof.
  intros H. split; [apply writes_double|]. split; [reflexivity|].
  apply reads_double. exact H.
Qed.

Lemma double_field_round_trip_witness :
  writes (BufferWriter.double (Number.Finite true 0 (-1074)))
         [0x80; 0; 0; 0; 0; 0; 0; 0]
  /\ reads BufferReader.double [0x80; 0; 0; 0; 0; 0; 0; 0]
           (Number.Finite true 0 (-1074)).
Proof.
  destruct (double_field_round_trip (Number.Finite true 0 (-1074)))
    as (Hw & _ & Hr).
  - reflexivity.
  - split; [exact Hw | exact Hr].
Defined.

(** ** The reader at the end of its buffer *)

Lemma readUInt_short (width : nat) (buff : Buffer) (off : nat) :
  (List.length buff < off + width)%nat ->
  NodeBuffer.readUInt width buff off = Throw RangeError.
Proof.
  intros H. unfold NodeBuffer.readUInt.
  destruct (Nat.leb_spec (off + width) (List.length buff)); [lia | reflexivity].
Qed.

Lemma slice_past_end (buff : Buffer) (off stop : nat) :
  (List.length buff <= off)%nat -> NodeBuffer.slice buff off stop = [].
Proof.
  intros H. unfold NodeBuffer.slice. rewrite skipn_all2 by exact H.
  apply firstn_nil.
Qed.

Lemma reader_short_uint8 (buff : Buffer) (off : nat) :
  (List.length buff < off + 1)%nat ->
  BufferReader.uint8 (BufferReader.new buff off) = Throw RangeError.
Proof.
  intros H. unfold BufferReader.uint8, NodeBuffer.readUInt8.
  cbn [BufferReader.new BufferReader.readBuffer BufferReader.offset].
  rewrite readUInt_short by exact H. reflexivity.
Qed.

(** X3: with fewer bytes left than a field is wide, the integer and double
    methods throw a range error.  With nothing left, [peek] and [size]
    throw "Unexpected end of stream", while [buffer] and [string] do not
    throw at all: they return an empty result and still move the cursor by
    the length asked for. *)
Theorem reader_past_the_end (buff : Buffer) (off : nat) :
  ((List.length buff < off + 1)%nat ->
   BufferReader.uint8 (BufferReader.new buff off) = Throw RangeError)
  /\ ((List.length buff < off + 2)%nat ->
      BufferReader.uint16 (BufferReader.new buff off) = Throw RangeError)
  /\ ((List.length buff < off + 4)%nat ->
      BufferReader.uint32 (BufferReader.new buff off) = Throw RangeError)
  /\ ((List.length buff < off + 8)%nat ->
      BufferReader.double (BufferReader.new buff off) = Throw RangeError)
  /\ ((List.length buff <= off)%nat ->
      BufferReader.peek (BufferReader.new buff off) = Throw UnexpectedEndOfStream
      /\ BufferReader.size (BufferReader.new buff off) = Throw UnexpectedEndOfStream
      /\ forall n : nat,
           BufferReader.buffer (Z.of_nat n) (BufferReader.new buff off)
           = Ok ([], BufferReader.new buff (off + n))
           /\ BufferReader.string (Z.of_nat n) (BufferReader.new buff off)
              = Ok ([], BufferReader.new buff (off + n))).
Proof.
  split; [|split; [|split; [|split]]]; intros H.
  - unfold BufferReader.uint8, NodeBuffer.readUInt8.
    cbn [BufferReader.new BufferReader.readBuffer BufferReader.offset].
    rewrite readUInt_short by exact H. reflexivity.
  - unfold BufferReader.uint16, NodeBuffer.readUInt16BE.
    cbn [BufferReader.new BufferReader.readBuffer BufferReader.offset].
    rewrite readUInt_short by exact H. reflexivity.
  - unfold BufferReader.uint32, NodeBuffer.readUInt32BE.
    cbn [BufferReader.new BufferReader.readBuffer BufferReader.offset].
    rewrite readUInt_short by exact H. reflexivity.
  - unfold BufferReader.double, NodeBuffer.readDoubleBE.
    cbn [BufferReader.new BufferReader.readBuffer BufferReader.offset].
    rewrite readUInt_short by exact H. reflexivity.
  - assert (BufferReader.peek (BufferReader.new buff off)
            = Throw UnexpectedEndOfStream) as P.
    { unfold BufferReader.peek, NodeBuffer.index.
      cbn [BufferReader.new BufferReader.readBuffer BufferReader.offset].
      replace (nth_error buff off) with (@None Z); [reflexivity|].
      symmetry. apply nth_error_None. exact H. }
    split; [exact P|]. split.
    + unfold BufferReader.size, BufferReader.bind. rewrite P. reflexivity.
    + intros n. unfold BufferReader.buffer, BufferReader.string.
      cbn [BufferReader.new BufferReader.readBuffer BufferReader.offset].
      rewrite slice_past_end by exact H.
      change (BufferReader.advance {| BufferReader.readBuffer := buff;
                                      BufferReader.offset := off |} (Z.of_nat n))
        with (BufferReader.advance (BufferReader.new buff off) (Z.of_nat n)).
      rewrite advance_new. split; reflexivity.
Qed.

Lemma reader_past_the_end_witness :
  BufferReader.uint16 (BufferReader.new [0x12] 0) = Throw RangeError
  /\ BufferReader.peek (BufferReader.new [0x12] 1) = Throw UnexpectedEndOfStream
  /\ BufferReader.string 5 (BufferReader.new [0x12] 1)
     = Ok ([], BufferReader.new [0x12] 6).
Proof.
  destruct (reader_past_the_end [0x12] 0) as (_ & H16 & _).
  destruct (reader_past_the_end [0x12] 1) as (_ & _ & _ & _ & Hend).
  split; [apply H16; cbn; lia|].
  destruct Hend as (Hp & _ & Hn); [cbn; lia|].
  split; [exact Hp|]. exact (proj2 (Hn 5%nat)).
Defined.

(** ** Sizes *)

Lemma decodeSize_of_reads (bytes post : Buffer) (n : Z) :
  reads BufferReader.size bytes n -> decodeSize (bytes ++ post) = Ok n.
Proof.
  intros H. unfold decodeSize. specialize (H [] post).
  cbn [app List.length] in H. rewrite H. reflexivity.
Qed.

(** X4: encoding then decoding a size is the identity over the whole range the
    writer accepts, [0] to [0x1FFFFFFE]: the writer produces one, two or
    four bytes, and the reader returns the size from them whatever
    follows.  A negative size and a size from [0x1FFFFFFF] on are refused,
    each with its own error. *)
Theorem size_codec_identity (n : Z) :
  if n <? 0 then encodeSize n = Throw SizesMustBePositive
  else if n <? 0x1FFFFFFF then
    exists bytes,
      encodeSize n = Ok bytes
      /\ List.length bytes
         = (if n <? 0x7F then 1%nat else if n <? 0x3FFF then 2%nat else 4%nat)
      /\ forall post, decodeSize (bytes ++ post) = Ok n
  else encodeSize n = Throw (SizeTooLarge n).
Proof.
  destruct (Z.ltb_spec n 0) as [Hneg|Hpos].
  - unfold encodeSize, BufferWriter.size.
    destruct (Z.ltb_spec n 0); [reflexivity | lia].
  - destruct (Z.ltb_spec n 0x1FFFFFFF) as [Hlt|Hge].
    + exists (size_bytes n). split; [|split].
      * unfold encodeSize.
        destruct (writes_size n (conj Hpos Hlt) BufferWriter.new) as (w & E & B).
        rewrite E. cbn [bind]. rewrite B. reflexivity.
      * unfold size_bytes.
        destruct (n <? 0x7F); [reflexivity|].
        destruct (n <? 0x3FFF); apply big_endian_length.
      * intros post. apply decodeSize_of_reads, reads_size. lia.
    + unfold encodeSize, BufferWriter.size.
      destruct (Z.ltb_spec n 0); [lia|].
      destruct (Z.ltb_spec n 0x7F); [lia|].
      destruct (Z.ltb_spec n 0x3FFF); [lia|].
      destruct (Z.ltb_spec n 0x1FFFFFFF); [lia | reflexivity].
Qed.

(** X5: the reader is more liberal than the writer.  It takes the width from
    the leading bits alone, so every size up to [0x3FFF] is also read from
    the two-byte form and every size up to [0x1FFFFFFF] from the four-byte
    form, among them [0x3FFF] in two bytes and [0x1FFFFFFF], neither of
    which the writer produces. *)
Theorem size_reader_accepts_wider_forms (n : Z) :
  (0 <= n <= 0x3FFF ->
   reads BufferReader.size [0x80 + n / 256; n mod 256] n)
  /\ (0 <= n <= 0x1FFFFFFF ->
      reads BufferReader.size
            [0xC0 + n / 2 ^ 24; n / 2 ^ 16 mod 256; n / 2 ^ 8 mod 256; n mod 256] n).
Proof.
  split; intros H pre post.
  - assert (0 <= n / 256 < 64) as Hq
      by (split; [apply Z.div_pos | apply Z.div_lt_upper_bound]; lia).
    assert (big_endian 2 (n + 0x8000) = [0x80 + n / 256; n mod 256]) as E.
    { cbn [big_endian app]. f_equal; [|f_equal].
      - replace (n + 32768) with (n + 128 * 256) by lia.
        rewrite Z.div_add by lia. rewrite Z.mod_small; lia.
      - replace (n + 32768) with (n + 128 * 256) by lia.
        apply Z.mod_add. lia. }
    unfold BufferReader.size, BufferReader.bind at 1.
    rewrite (peek_head _ _ _ (0x80 + n / 256)) by reflexivity.
    rewrite bit_set_0x80, bit_set_0x40.
    replace ((128 + n / 256) / 128) with 1
      by (apply Z.div_unique with (r := n / 256); lia).
    replace ((128 + n / 256) / 64) with 2
      by (apply Z.div_unique with (r := n / 256); lia).
    cbn [Z.odd negb]. rewrite <- E.
    rewrite (reads_then_ret BufferReader.uint16 (fun v => Z.land v 16383) _ _
               (reads_uint16 (n + 32768) ltac:(lia)) pre post).
    do 2 f_equal.
    change 16383 with (Z.ones 14). rewrite Z.land_ones by lia.
    replace (n + 32768) with (n + 2 * 2 ^ 14) by lia.
    rewrite Z.mod_add by lia. rewrite Z.mod_small; lia.
  - set (q := n / 2 ^ 24).
    assert (0 <= q < 32) as Hq
      by (subst q; split; [apply Z.div_pos | apply Z.div_lt_upper_bound]; lia).
    assert (big_endian 4 (n + 0xC0000000)
            = [0xC0 + q; n / 2 ^ 16 mod 256; n / 2 ^ 8 mod 256; n mod 256]) as E.
    { cbn [big_endian app]. rewrite !Z.div_div by lia.
      change (256 * 256) with (2 ^ 16). change (256 * 2 ^ 16) with (2 ^ 24).
      f_equal; [|f_equal; [|f_equal; [|f_equal]]].
      - replace (n + 3221225472) with (n + 192 * 2 ^ 24) by lia.
        rewrite Z.div_add by lia. fold q. rewrite Z.mod_small; lia.
      - replace (n + 3221225472) with (n + 49152 * 2 ^ 16) by lia.
        rewrite Z.div_add by lia.
        replace (n / 2 ^ 16 + 49152) with (n / 2 ^ 16 + 192 * 256) by lia.
        apply Z.mod_add. lia.
      - replace (n + 3221225472) with (n + 12582912 * 256) by lia.
        rewrite Z.div_add by lia.
        replace (n / 256 + 12582912) with (n / 256 + 49152 * 256) by lia.
        change (2 ^ 8) with 256. apply Z.mod_add. lia.
      - replace (n + 3221225472) with (n + 12582912 * 256) by lia.
        apply Z.mod_add. lia. }
    unfold BufferReader.size, BufferReader.bind at 1.
    rewrite (peek_head _ _ _ (0xC0 + q)) by reflexivity.
    rewrite bit_set_0x80, bit_set_0x40, bit_set_0x20.
    replace ((192 + q) / 128) with 1
      by (apply Z.div_unique with (r := 64 + q); lia).
    replace ((192 + q) / 64) with 3
      by (apply Z.div_unique with (r := q); lia).
    replace ((192 + q) / 32) with 6
      by (apply Z.div_unique with (r := q); lia).
    cbn [Z.odd negb]. fold q. rewrite <- E.
    rewrite (reads_then_ret BufferReader.uint32 (fun v => Z.land v 536870911) _ _
               (reads_uint32 (n + 3221225472) ltac:(lia)) pre post).
    do 2 f_equal.
    change 536870911 with (Z.ones 29). rewrite Z.land_ones by lia.
    replace (n + 3221225472) with (n + 6 * 2 ^ 29) by lia.
    rewrite Z.mod_add by lia. rewrite Z.mod_small; lia.
Qed.

Lemma size_reader_accepts_wider_forms_witness :
  reads BufferReader.size [0x80; 0x05] 5
  /\ reads BufferReader.size [0xBF; 0xFF] 0x3FFF
  /\ reads BufferReader.size [0xC0; 0x00; 0x00; 0x05] 5
  /\ reads BufferReader.size [0xDF; 0xFF; 0xFF; 0xFF] 0x1FFFFFFF.
Proof.
  split; [|split; [|split]].
  - apply (proj1 (size_reader_accepts_wider_forms 5)). lia.
  - apply (proj1 (size_reader_accepts_wider_forms 0x3FFF)). lia.
  - apply (proj2 (size_reader_accepts_wider_forms 5)). lia.
  - apply (proj2 (size_reader_accepts_wider_forms 0x1FFFFFFF)). lia.
Defined.

(** X6: what the reader refuses as a size: a leading byte with its three top
    bits set is an invalid size, and a two- or four-byte form cut short by
    the end of the buffer is a range error of the integer read. *)
Theorem size_reader_rejects (b : Z) (rest : Buffer) :
  (0xE0 <= b <= 0xFF -> decodeSize (b :: rest) = Throw (InvalidSize b))
  /\ (0x80 <= b <= 0xBF -> decodeSize [b] = Throw RangeError)
  /\ (0xC0 <= b <= 0xDF -> (List.length rest < 3)%nat ->
      decodeSize (b :: rest) = Throw RangeError).
Proof.
  assert (forall l, BufferReader.peek (BufferReader.new (b :: l) 0)
                    = Ok (b, BufferReader.new (b :: l) 0)) as P
    by (intros l; apply (peek_middle [] l b)).
  split; [|split].
  - intros H. unfold decodeSize, BufferReader.size, BufferReader.bind.
    rewrite P, bit_set_0x80, bit_set_0x40, bit_set_0x20.
    replace (b / 128) with 1 by (apply Z.div_unique with (r := b - 128); lia).
    replace (b / 64) with 3 by (apply Z.div_unique with (r := b - 192); lia).
    replace (b / 32) with 7 by (apply Z.div_unique with (r := b - 224); lia).
    reflexivity.
  - intros H. unfold decodeSize, BufferReader.size, BufferReader.bind.
    rewrite P, bit_set_0x80, bit_set_0x40.
    replace (b / 128) with 1 by (apply Z.div_unique with (r := b - 128); lia).
    replace (b / 64) with 2 by (apply Z.div_unique with (r := b - 128); lia).
    reflexivity.
  - intros H Hlen. unfold decodeSize, BufferReader.size, BufferReader.bind.
    rewrite P, bit_set_0x80, bit_set_0x40, bit_set_0x20.
    replace (b / 128) with 1 by (apply Z.div_unique with (r := b - 128); lia).
    replace (b / 64) with 3 by (apply Z.div_unique with (r := b - 192); lia).
    replace (b / 32) with 6 by (apply Z.div_unique with (r := b - 192); lia).
    cbn [Z.odd negb]. unfold BufferReader.uint32, NodeBuffer.readUInt32BE.
    cbn [BufferReader.new BufferReader.readBuffer BufferReader.offset].
    rewrite readUInt_short by (cbn [List.length]; lia). reflexivity.
Qed.

Lemma size_reader_rejects_witness :
  decodeSize [0xE0; 0x01] = Throw (InvalidSize 0xE0)
  /\ decodeSize [0x81] = Throw RangeError
  /\ decodeSize [0xC1; 0x02; 0x03] = Throw RangeError.
Proof.
  split; [|split].
  - apply (proj1 (size_reader_rejects 0xE0 [0x01])). lia.
  - apply (proj1 (proj2 (size_reader_rejects 0x81 []))). lia.
  - apply (proj2 (proj2 (size_reader_rejects 0xC1 [0x02; 0x03]))); [lia | cbn; lia].
Defined.

(** * Further properties of the encoder *)

(** ** Encoding only appends *)

Lemma onto_Ok (w w1 : BufferWriter.t) :
  onto w (Ok w1)
  = Ok {| BufferWriter.bufferList :=
            BufferWriter.bufferList w ++ BufferWriter.bufferList w1 |}.
Proof. reflexivity. Qed.

Lemma appends_push (buff : Buffer) : appends (BufferWriter.push buff).
Proof. intros w. reflexivity. Qed.

Lemma appends_raise (e : error) : appends (raise e).
Proof. intros w. reflexivity. Qed.

Lemma appends_done : appends done.
Proof.
  intros [l]. unfold done, onto. cbn [bind BufferWriter.bufferList BufferWriter.new].
  rewrite app_nil_r. reflexivity.
Qed.

Lemma appends_uint8 (v : Z) : appends (BufferWriter.uint8 v).
Proof.
  intros w. unfold BufferWriter.uint8, NodeBuffer.writeUInt8.
  destruct (NodeBuffer.in_range v 255); reflexivity.
Qed.

Lemma appends_uint16 (v : Z) : appends (BufferWriter.uint16 v).
Proof.
  intros w. unfold BufferWriter.uint16, NodeBuffer.writeUInt16BE.
  destruct (NodeBuffer.in_range v 65535); reflexivity.
Qed.

Lemma appends_uint32 (v : Z) : appends (BufferWriter.uint32 v).
Proof.
  intros w. unfold BufferWriter.uint32, NodeBuffer.writeUInt32BE.
  destruct (NodeBuffer.in_range v 4294967295); reflexivity.
Qed.

Lemma appends_size (n : Z) : appends (BufferWriter.size n).
Proof.
  unfold BufferWriter.size.
  destruct (n <? 0); [intros w; reflexivity|].
  destruct (n <? 127); [apply appends_uint8|].
  destruct (n <? 16383); [apply appends_uint16|].
  destruct (n <? 536870911); [apply appends_uint32|].
  intros w. reflexivity.
Qed.

Lemma appends_seq (a b : BufferWriter.action) :
  appends a -> appends b -> appends (a ;; b).
Proof.
  intros Ha Hb w. unfold BufferWriter.seq. rewrite (Ha w).
  destruct (a BufferWriter.new) as [w1|e|l]; [|reflexivity|reflexivity].
  cbn [onto bind]. rewrite Hb, (Hb w1).
  destruct (b BufferWriter.new) as [w2|e|l]; [|reflexivity|reflexivity].
  cbn [onto bind BufferWriter.bufferList]. rewrite app_assoc. reflexivity.
Qed.

Lemma appends_forEach {A} (l : list A) (body : A -> BufferWriter.action) :
  (forall x, appends (body x)) -> appends (forEach l body).
Proof.
  intros H. induction l as [|x l IH]; cbn [forEach].
  - apply appends_done.
  - apply appends_seq; [apply H | exact IH].
Qed.

Create HintDb appends.
#[local] Hint Resolve appends_seq appends_push appends_uint8 appends_uint16
  appends_uint32 appends_size appends_raise appends_done : appends.

Lemma appends_number (n : Number.t) : appends (toBufferInternalNumber n).
Proof.
  unfold toBufferInternalNumber, BufferWriter.double.
  repeat match goal with |- appends (if ?c then _ else _) => destruct c end;
    auto with appends.
Qed.

Lemma appends_string (s : jsstring) : appends (toBufferInternalString s).
Proof. unfold toBufferInternalString, BufferWriter.string. auto with appends. Qed.

Lemma appends_boolean (b : bool) : appends (toBufferInternalBoolean b).
Proof. destruct b; apply appends_uint8. Qed.

Lemma appends_buffer (b : Buffer) : appends (toBufferInternalObjectBuffer b).
Proof.
  unfold toBufferInternalObjectBuffer, BufferWriter.buffer. auto with appends.
Qed.

Lemma appends_date (time : option Z) : appends (toBufferInternalObjectDate time).
Proof.
  unfold toBufferInternalObjectDate.
  destruct time as [time|]; [destruct (negb (Z.rem time 1000 =? 0))|];
    auto with appends.
Qed.

Lemma appends_regexp (source : jsstring) (g i m : bool) :
  appends (toBufferInternalObjectRegExp source g i m).
Proof.
  unfold toBufferInternalObjectRegExp, BufferWriter.string. auto 6 with appends.
Qed.

Section AppendsInternal.

Variable self : value -> BufferWriter.action.
Hypothesis self_appends : forall v, appends (self v).

Lemma appends_key (key : jsstring) : appends (toBufferInternalKey self key).
Proof.
  unfold toBufferInternalKey. destruct (looks_like_index key); apply self_appends.
Qed.

Lemma appends_pairs (props : properties) :
  appends (forEach (Object_keys props)
             (fun key => toBufferInternalKey self key ;; self (get props key))).
Proof.
  apply appends_forEach. intros key.
  apply appends_seq; [apply appends_key | apply self_appends].
Qed.

Lemma appends_generic (props : properties) :
  appends (toBufferInternalObjectGeneric self props).
Proof.
  unfold toBufferInternalObjectGeneric, BufferWriter.string.
  apply appends_seq; [apply appends_push|].
  apply appends_seq; [apply appends_pairs | apply appends_push].
Qed.

Lemma appends_array (length : nat) (props : properties) :
  appends (toBufferInternalArray self length props).
Proof.
  unfold toBufferInternalArray, BufferWriter.string.
  destruct (_ && _).
  - apply appends_seq; [apply appends_push|].
    apply appends_seq; [|apply appends_push].
    apply appends_forEach. intros i. apply self_appends.
  - apply appends_seq; [apply appends_push|].
    apply appends_seq; [apply appends_pairs | apply appends_push].
Qed.

Lemma appends_builtin (thing : value) :
  appends (toBufferInternalObject self [] thing).
Proof.
  destruct thing; cbn [toBufferInternalObject];
    try apply (appends_generic []).
  - apply appends_buffer.
  - apply appends_date.
  - apply appends_date.
  - apply appends_regexp.
  - apply appends_generic.
Qed.

Lemma appends_extension (h : helper) (thing : value) :
  appends (toBufferFn h self thing) -> appends (extension_record self h thing).
Proof.
  intros H. unfold extension_record, BufferWriter.string. auto 6 with appends.
Qed.

Lemma appends_object (hs : list helper) (thing : value) :
  Forall (fun h => forall self thing,
                     (forall v, appends (self v)) -> appends (toBufferFn h self thing))
         hs ->
  appends (toBufferInternalObject self hs thing).
Proof.
  induction hs as [|h hs IH]; intros H.
  - apply appends_builtin.
  - cbn [toBufferInternalObject]. inversion H as [|? ? Hh Hrest]; subst.
    destruct (checkFn h thing).
    + apply (appends_extension h thing). apply Hh. exact self_appends.
    + apply IH. exact Hrest.
Qed.

End AppendsInternal.

Lemma appends_toBufferInternal (s : BufferSerializer) :
  helpers_append s ->
  forall fuel thing, appends (toBufferInternal fuel s thing).
Proof.
  intros Hs. induction fuel as [|fuel IH]; intros thing.
  - intros w. reflexivity.
  - destruct thing; cbn [toBufferInternal];
      try (apply appends_object; assumption).
    + apply appends_raise.
    + apply appends_uint8.
    + apply appends_boolean.
    + apply appends_number.
    + apply appends_raise.
    + apply appends_string.
    + apply appends_raise.
    + apply appends_raise.
    + apply appends_array. exact IH.
Qed.

Lemma toBuffer_concat (w w1 : BufferWriter.t) :
  BufferWriter.toBuffer
    {| BufferWriter.bufferList :=
         BufferWriter.bufferList w ++ BufferWriter.bufferList w1 |}
  = BufferWriter.toBuffer w ++ BufferWriter.toBuffer w1.
Proof. unfold BufferWriter.toBuffer. cbn [BufferWriter.bufferList]. apply concat_app. Qed.

(** X7: encoding only appends.  Written into a writer that already holds
    output, a value leaves that output in place and adds exactly what it
    writes into a fresh writer, and it fails there exactly as it fails
    into a fresh one; so the bytes of a value do not depend on what was
    written before it, and [toBuffer] gives the version byte followed by
    what [toBufferInternal] writes.  This holds for any registered helpers
    that themselves only append. *)
Theorem encoding_only_appends (serializer : BufferSerializer) (fuel : nat)
    (thing : value) :
  helpers_append serializer ->
  (forall w,
     toBufferInternal fuel serializer thing w
     = match toBufferInternal fuel serializer thing BufferWriter.new with
       | Ok w1 => Ok {| BufferWriter.bufferList :=
                          BufferWriter.bufferList w ++ BufferWriter.bufferList w1 |}
       | Throw e => Throw e
       | Stuck l => Stuck l
       end)
  /\ (forall w w',
        toBufferInternal fuel serializer thing w = Ok w' ->
        exists bytes,
          BufferWriter.toBuffer w' = BufferWriter.toBuffer w ++ bytes
          /\ forall v, exists v',
               toBufferInternal fuel serializer thing v = Ok v'
               /\ BufferWriter.toBuffer v' = BufferWriter.toBuffer v ++ bytes)
  /\ toBuffer serializer thing
     = match toBufferInternal (2 + depth thing) serializer thing BufferWriter.new with
       | Ok w1 => Ok (0 :: BufferWriter.toBuffer w1)
       | Throw e => Throw e
       | Stuck l => Stuck l
       end.
Proof.
  intros Hs.
  pose proof (appends_toBufferInternal serializer Hs) as A.
  split; [|split].
  - intros w. rewrite (A fuel thing w). unfold onto.
    destruct (toBufferInternal fuel serializer thing BufferWriter.new); reflexivity.
  - intros w w' E. rewrite (A fuel thing w) in E.
    destruct (toBufferInternal fuel serializer thing BufferWriter.new)
      as [w1|e|l] eqn:N; try discriminate.
    cbn [onto bind] in E. injection E as <-.
    exists (BufferWriter.toBuffer w1). split; [apply toBuffer_concat|].
    intros v. rewrite (A fuel thing v), N. cbn [onto bind].
    eexists. split; [reflexivity | apply toBuffer_concat].
  - unfold toBuffer, toBufferWith, BufferWriter.seq.
    change (BufferWriter.uint8 0 BufferWriter.new)
      with (Ok {| BufferWriter.bufferList := [[0]] |} : result BufferWriter.t).
    cbn [bind]. rewrite (A (2 + depth thing)%nat thing).
    destruct (toBufferInternal (2 + depth thing) serializer thing BufferWriter.new);
      reflexivity.
Qed.

Lemma helpers_append_with_Klass : helpers_append with_Klass.
Proof.
  repeat constructor. intros self thing _. apply appends_size.
Qed.

Lemma encoding_only_appends_witness :
  toBufferInternal 2 with_Klass (Klass 2)
    {| BufferWriter.bufferList := [[0xAA; 0xBB]] |}
  = Ok {| BufferWriter.bufferList :=
            [[0xAA; 0xBB]; [0x5A]; [0x05]; [0x4B; 0x6C; 0x61; 0x73; 0x73]; [0x02]] |}
  /\ toBuffer with_Klass (Klass 2)
     = Ok [0x00; 0x5A; 0x05; 0x4B; 0x6C; 0x61; 0x73; 0x73; 0x02].
Proof.
  destruct (encoding_only_appends with_Klass 2 (Klass 2) helpers_append_with_Klass)
    as (H1 & _ & _).
  destruct (encoding_only_appends with_Klass 0 (Klass 2) helpers_append_with_Klass)
    as (_ & _ & H3).
  split.
  - rewrite H1. vm_compute. reflexivity.
  - rewrite H3. vm_compute. reflexivity.
Defined.

(** ** How encoding can end *)

Lemma errors_seq (a b : BufferWriter.action) :
  only_encode_errors a -> only_encode_errors b -> only_encode_errors (a ;; b).
Proof.
  intros Ha Hb w e. unfold BufferWriter.seq. specialize (Ha w).
  destruct (a w) as [w1|e'|l]; cbn [bind]; [apply Hb | | discriminate].
  intros [= <-]. apply Ha. reflexivity.
Qed.

Lemma errors_forEach {A} (l : list A) (body : A -> BufferWriter.action) :
  (forall x, only_encode_errors (body x)) -> only_encode_errors (forEach l body).
Proof.
  intros H. induction l as [|x l IH]; cbn [forEach].
  - intros w e. discriminate.
  - apply errors_seq; [apply H | exact IH].
Qed.

Lemma errors_push (buff : Buffer) : only_encode_errors (BufferWriter.push buff).
Proof. intros w e. discriminate. Qed.

Lemma errors_uint8 (v : Z) : only_encode_errors (BufferWriter.uint8 v).
Proof.
  intros w e. unfold BufferWriter.uint8, NodeBuffer.writeUInt8.
  destruct (NodeBuffer.in_range v 255); cbn [bind]; [discriminate|].
  intros [= <-]. reflexivity.
Qed.

Lemma errors_uint16 (v : Z) : only_encode_errors (BufferWriter.uint16 v).
Proof.
  intros w e. unfold BufferWriter.uint16, NodeBuffer.writeUInt16BE.
  destruct (NodeBuffer.in_range v 65535); cbn [bind]; [discriminate|].
  intros [= <-]. reflexivity.
Qed.

Lemma errors_uint32 (v : Z) : only_encode_errors (BufferWriter.uint32 v).
Proof.
  intros w e. unfold BufferWriter.uint32, NodeBuffer.writeUInt32BE.
  destruct (NodeBuffer.in_range v 4294967295); cbn [bind]; [discriminate|].
  intros [= <-]. reflexivity.
Qed.

(** A length is never negative, so the size of one is never refused as
    such. *)
Lemma errors_size (n : nat) : only_encode_errors (BufferWriter.size (Z.of_nat n)).
Proof.
  unfold BufferWriter.size.
  destruct (Z.ltb_spec (Z.of_nat n) 0); [lia|].
  destruct (Z.of_nat n <? 127); [apply errors_uint8|].
  destruct (Z.of_nat n <? 16383); [apply errors_uint16|].
  destruct (Z.of_nat n <? 536870911); [apply errors_uint32|].
  intros w e [= <-]. reflexivity.
Qed.

Create HintDb encode_errors.
#[local] Hint Resolve errors_seq errors_push errors_uint8 errors_uint16
  errors_uint32 errors_size : encode_errors.

Lemma errors_number (n : Number.t) : only_encode_errors (toBufferInternalNumber n).
Proof.
  unfold toBufferInternalNumber, BufferWriter.double.
  repeat match goal with
         | |- only_encode_errors (if ?c then _ else _) => destruct c
         end; auto with encode_errors.
Qed.

Lemma errors_toBufferInternal (fuel : nat) (thing : value) :
  only_encode_errors (toBufferInternal fuel constructor thing).
Proof.
  revert thing. induction fuel as [|fuel IH]; intros thing.
  - intros w e. discriminate.
  - assert (forall props,
              only_encode_errors
                (forEach (Object_keys props)
                   (fun key => toBufferInternalKey (toBufferInternal fuel constructor) key ;;
                               toBufferInternal fuel constructor (get props key))))
      as Hloop.
    { intros props. apply errors_forEach. intros key. apply errors_seq; [|apply IH].
      unfold toBufferInternalKey. destruct (looks_like_index key); apply IH. }
    destruct thing; cbn [toBufferInternal helpers constructor toBufferInternalObject].
    + intros w e [= <-]. reflexivity.
    + apply errors_uint8.
    + unfold toBufferInternalBoolean. destruct b; apply errors_uint8.
    + apply errors_number.
    + intros w e [= <-]. reflexivity.
    + unfold toBufferInternalString, BufferWriter.string. auto with encode_errors.
    + intros w e [= <-]. reflexivity.
    + intros w e [= <-]. reflexivity.
    + unfold toBufferInternalObjectBuffer, BufferWriter.buffer.
      auto with encode_errors.
    + unfold toBufferInternalObjectDate, getTime.
      destruct (negb (Z.rem time 1000 =? 0)); auto with encode_errors.
    + unfold toBufferInternalObjectDate, getTime. auto with encode_errors.
    + unfold toBufferInternalObjectRegExp, BufferWriter.string.
      auto 6 with encode_errors.
    + unfold toBufferInternalArray, BufferWriter.string.
      destruct (_ && _).
      * apply errors_seq; [apply errors_push|].
        apply errors_seq; [|apply errors_push].
        apply errors_forEach. intros i. apply IH.
      * apply errors_seq; [apply errors_push|].
        apply errors_seq; [apply Hloop | apply errors_push].
    + unfold toBufferInternalObjectGeneric, BufferWriter.string.
      apply errors_seq; [apply errors_push|].
      apply errors_seq; [apply Hloop | apply errors_push].
Qed.

(** X8: with no helper registered, [toBuffer] ends for every value, in one of
    two ways: it returns a buffer, or it throws one of the errors of
    encoding: "Invalid type" for [undefined], a big integer, a symbol or a
    function met anywhere in the value, a range error of an integer field,
    or a size too large.  It never throws "Sizes must be positive" or any
    of the decoder's errors. *)
Theorem toBuffer_outcomes (thing : value) :
  match toBuffer constructor thing with
  | Ok buff => True
  | Throw e => encode_error e = true
  | Stuck l => False
  end.
Proof.
  unfold toBuffer, toBufferWith, BufferWriter.seq.
  change (BufferWriter.uint8 0 BufferWriter.new)
    with (Ok {| BufferWriter.bufferList := [[0]] |} : result BufferWriter.t).
  cbn [bind].
  destruct (toBufferInternal (2 + depth thing) constructor thing
              {| BufferWriter.bufferList := [[0]] |}) as [w|e|l] eqn:E; cbn [bind].
  - exact I.
  - exact (errors_toBufferInternal _ _ _ _ E).
  - exact (encode_steady constructor eq_refl (2 + depth thing) thing
             ltac:(lia) _ _ E).
Qed.

(** ** The head of a record *)

Lemma toBuffer_fresh (s : BufferSerializer) (thing : value) :
  helpers_append s ->
  toBuffer s thing
  = bind (toBufferInternal (2 + depth thing) s thing BufferWriter.new)
         (fun w1 => Ok (0 :: BufferWriter.toBuffer w1)).
Proof.
  intros Hs. unfold toBuffer, toBufferWith, BufferWriter.seq.
  change (BufferWriter.uint8 0 BufferWriter.new)
    with (Ok {| BufferWriter.bufferList := [[0]] |} : result BufferWriter.t).
  cbn [bind]. rewrite (appends_toBufferInternal s Hs (2 + depth thing)%nat thing).
  destruct (toBufferInternal (2 + depth thing) s thing BufferWriter.new);
    reflexivity.
Qed.

Lemma seq_head (a b : BufferWriter.action) (t : Z) (w' : BufferWriter.t) :
  writes a [t] -> appends b -> (a ;; b) BufferWriter.new = Ok w' ->
  exists rest, BufferWriter.toBuffer w' = t :: rest.
Proof.
  intros Ha Hb H. destruct (Ha BufferWriter.new) as (w1 & E1 & B1).
  unfold BufferWriter.seq in H. rewrite E1 in H. cbn [bind] in H.
  rewrite (Hb w1) in H.
  destruct (b BufferWriter.new) as [w2|e|l]; try discriminate.
  cbn [onto bind] in H. injection H as <-.
  exists (BufferWriter.toBuffer w2). rewrite toBuffer_concat, B1. reflexivity.
Qed.

Lemma number_head (n : Number.t) (w' : BufferWriter.t) :
  toBufferInternalNumber n BufferWriter.new = Ok w' ->
  exists t rest, BufferWriter.toBuffer w' = t :: rest
                 /\ In t [0x2B; 0x2D; 0x70; 0x69; 0x50; 0x49; 0x64].
Proof.
  unfold toBufferInternalNumber, BufferWriter.double.
  repeat match goal with
         | |- (if ?c then _ else _) _ = _ -> _ => destruct c
         end;
    intros H;
    match type of H with
    | (BufferWriter.uint8 ?t ;; ?b) _ = _ =>
        assert (appends b) as Hb by auto with appends;
        destruct (seq_head _ b t w' (writes_uint8 t ltac:(lia)) Hb H) as (rest & E);
        exists t, rest; split; [exact E | cbn [In]; tauto]
    end.
Qed.

Lemma builtin_head (self : value -> BufferWriter.action) (thing : value)
    (w' : BufferWriter.t) :
  (forall v, appends (self v)) -> object_kind thing = true ->
  toBufferInternalObject self [] thing BufferWriter.new = Ok w' ->
  exists t rest, BufferWriter.toBuffer w' = t :: rest /\ In t (tags thing).
Proof.
  intros Hself Hk. destruct thing; try discriminate; cbn [toBufferInternalObject tags].
  - unfold toBufferInternalObjectBuffer, BufferWriter.buffer. intros H.
    destruct (seq_head _ _ 0x42 w' (writes_uint8 0x42 ltac:(lia))
                (appends_seq _ _ (appends_size _) (appends_push _)) H) as (rest & E).
    exists 0x42, rest. split; [exact E | now left].
  - unfold toBufferInternalObjectDate, getTime.
    destruct (negb (Z.rem time 1000 =? 0)); intros H.
    + destruct (seq_head _ _ 0x44 w' (writes_uint8 0x44 ltac:(lia))
                  (appends_seq _ _ (appends_uint32 _) (appends_uint16 _)) H)
        as (rest & E).
      exists 0x44, rest. split; [exact E | now left].
    + destruct (seq_head _ _ 0x54 w' (writes_uint8 0x54 ltac:(lia))
                  (appends_uint32 _) H) as (rest & E).
      exists 0x54, rest. split; [exact E | right; now left].
  - unfold toBufferInternalObjectDate, getTime. intros H.
    destruct (seq_head _ _ 0x54 w' (writes_uint8 0x54 ltac:(lia))
                (appends_uint32 _) H) as (rest & E).
    exists 0x54, rest. split; [exact E | now left].
  - intros H.
    destruct (seq_head _ _ 0x52 w' (writes_uint8 0x52 ltac:(lia))
                (appends_seq _ _ (appends_size _)
                   (appends_seq _ _ (appends_push _) (appends_uint8 _))) H)
      as (rest & E).
    exists 0x52, rest. split; [exact E | now left].
  - unfold toBufferInternalObjectGeneric. intros H.
    destruct (seq_head _ _ 0x4F w' (writes_push [0x4F])
                (appends_seq _ _ (appends_pairs self Hself props) (appends_push _)) H)
      as (rest & E).
    exists 0x4F, rest. split; [exact E | now left].
Qed.

(** X9: a record starts with the version byte and a type code that tells the
    kind of the value: the extension code for an object that a helper
    claims, and otherwise a code of the value's own kind.  (For any
    registered helpers that only append.) *)
Theorem record_starts_with_version_and_tag (serializer : BufferSerializer)
    (thing : value) (buff : Buffer) :
  helpers_append serializer ->
  toBuffer serializer thing = Ok buff ->
  exists t rest,
    buff = 0 :: t :: rest
    /\ In t (if object_kind thing && negb (unclaimed serializer thing)
             then [0x5A] else tags thing).
Proof.
  intros Hs H. rewrite (toBuffer_fresh serializer thing Hs) in H.
  destruct (toBufferInternal (2 + depth thing) serializer thing BufferWriter.new)
    as [w1|e|l] eqn:E; try discriminate.
  cbn [bind] in H. injection H as <-.
  cut (exists t rest, BufferWriter.toBuffer w1 = t :: rest
         /\ In t (if object_kind thing && negb (unclaimed serializer thing)
                  then [0x5A] else tags thing)).
  { intros (t & rest & B & Hin). exists t, rest. rewrite B. split; [reflexivity | exact Hin]. }
  pose proof (appends_toBufferInternal serializer Hs (1 + depth thing)%nat) as Hself.
  assert (object_kind thing = true ->
          exists t rest, BufferWriter.toBuffer w1 = t :: rest
            /\ In t (if negb (unclaimed serializer thing) then [0x5A] else tags thing))
    as Hobject.
  { intros Hk.
    assert (toBufferInternalObject (toBufferInternal (1 + depth thing) serializer)
              (helpers serializer) thing BufferWriter.new = Ok w1) as E'
      by (destruct thing; try discriminate; exact E).
    destruct (first_match serializer thing) as [h|] eqn:F.
    - rewrite (toBufferInternalObject_claimed _ _ _ _ F) in E'.
      assert (unclaimed serializer thing = false) as U.
      { destruct (unclaimed serializer thing) eqn:U; [|reflexivity].
        apply unclaimed_first_match in U. congruence. }
      rewrite U. cbn [negb].
      assert (appends (toBufferFn h (toBufferInternal (1 + depth thing) serializer)
                         thing)) as Hh.
      { apply find_some in F. destruct F as (Hin & _).
        unfold helpers_append in Hs. rewrite Forall_forall in Hs.
        apply (Hs h Hin). exact Hself. }
      unfold extension_record in E'.
      destruct (seq_head _ _ 0x5A w1 (writes_uint8 0x5A ltac:(lia))
                  (appends_seq _ _ (appends_size _)
                     (appends_seq _ _ (appends_push _) Hh)) E') as (rest & B).
      exists 0x5A, rest. split; [exact B | now left].
    - rewrite (toBufferInternalObject_unclaimed _ _ _ F) in E'.
      apply unclaimed_first_match in F. rewrite F. cbn [negb].
      apply (builtin_head _ _ _ Hself Hk E'). }
  destruct thing; cbn [object_kind andb]; try (apply Hobject; reflexivity);
    cbn [toBufferInternal Nat.add] in E.
  - discriminate.
  - injection E as <-. exists 0x6E, []. split; [reflexivity | now left].
  - destruct b; injection E as <-.
    + exists 0x74, []. split; [reflexivity | now left].
    + exists 0x66, []. split; [reflexivity | now left].
  - apply (number_head _ _ E).
  - discriminate.
  - unfold toBufferInternalString in E.
    destruct (seq_head _ _ 0x73 w1 (writes_uint8 0x73 ltac:(lia))
                (appends_seq _ _ (appends_size _) (appends_push _)) E) as (rest & B).
    exists 0x73, rest. split; [exact B | now left].
  - discriminate.
  - discriminate.
  - unfold toBufferInternalArray in E. destruct (_ && _) in E.
    + destruct (seq_head _ _ 0x61 w1 (writes_push [0x61])
                  (appends_seq _ _
                     (appends_forEach _ _ (fun i => Hself _)) (appends_push _)) E)
        as (rest & B).
      exists 0x61, rest. split; [exact B | now left].
    + destruct (seq_head _ _ 0x41 w1 (writes_push [0x41])
                  (appends_seq _ _ (appends_pairs _ Hself props) (appends_push _)) E)
        as (rest & B).
      exists 0x41, rest. split; [exact B | right; now left].
Qed.

Lemma record_starts_with_version_and_tag_witness :
  exists t rest,
    [0x00; 0x5A; 0x05; 0x4B; 0x6C; 0x61; 0x73; 0x73; 0x02] = 0 :: t :: rest
    /\ In t [0x5A].
Proof.
  apply (record_starts_with_version_and_tag with_Klass (Klass 2)).
  - repeat constructor. intros self thing _. apply appends_size.
  - vm_compute. reflexivity.
Defined.

(** * Further properties of the decoder *)

Lemma bind_reads {A B} (m : BufferReader.action A) (k : A -> BufferReader.action B)
    (x : Buffer) (a : A) :
  reads m x a ->
  forall pre post,
    BufferReader.bind m k (BufferReader.new (pre ++ x ++ post) (List.length pre))
    = k a (BufferReader.new (pre ++ x ++ post) (List.length pre + List.length x)).
Proof.
  intros H pre post. unfold BufferReader.bind. rewrite (H pre post). reflexivity.
Qed.

(** ** The head of a record *)

Ltac code_cases p n :=
  lazymatch n with
  | O => idtac
  | S ?m => destruct p as [p|p|]; [code_cases p m | code_cases p m | idtac]
  end.

Lemma unknown_code_throws (fuel : nat) (s : BufferSerializer) (code : Z)
    (rest : Buffer) :
  ~ In code type_codes ->
  fromBufferInternal (S fuel) s (BufferReader.new (0 :: code :: rest) 1)
  = Throw (UnknownCode code).
Proof.
  intros H. cbn [fromBufferInternal].
  rewrite (bind_reads BufferReader.uint8 _ [code] code (reads_uint8 code) [0] rest).
  unfold type_codes in H.
  destruct code as [|p|p]; try reflexivity.
  code_cases p 7%nat; try reflexivity; exfalso; apply H; cbn [In]; tauto.
Qed.

(** X10: what [fromBuffer] refuses at the head of a record: a buffer with no
    byte at the offset, or with a byte other than zero there, has an
    invalid version; a buffer that ends right after the version byte makes
    the read of the type code raise a range error; and a type code outside
    the table, the terminator [0x21] among them, is an unknown code. *)
Theorem fromBuffer_rejects_bad_header (serializer : BufferSerializer) :
  (forall buff offset,
     NodeBuffer.index buff offset <> Some 0 ->
     fromBuffer serializer buff offset = Throw InvalidVersion)
  /\ (forall pre,
        fromBuffer serializer (pre ++ [0]) (List.length pre) = Throw RangeError)
  /\ (forall code rest,
        ~ In code type_codes ->
        fromBuffer serializer (0 :: code :: rest) 0 = Throw (UnknownCode code)).
Proof.
  split; [|split].
  - intros buff offset H. unfold fromBuffer.
    destruct (NodeBuffer.index buff offset) as [[|p|p]|]; try reflexivity.
    exfalso. apply H. reflexivity.
  - intros pre. unfold fromBuffer. rewrite index_middle.
    rewrite length_app. cbn [List.length]. rewrite Nat.add_1_r.
    cbn [fromBufferInternal]. unfold BufferReader.bind.
    rewrite reader_short_uint8 by (rewrite length_app; cbn [List.length]; lia).
    reflexivity.
  - intros code rest H. unfold fromBuffer. cbn [NodeBuffer.index nth_error].
    change (List.length (0 :: code :: rest)) with (S (S (List.length rest))).
    change (0 + 1)%nat with 1%nat.
    rewrite unknown_code_throws by exact H. reflexivity.
Qed.

Lemma fromBuffer_rejects_bad_header_witness :
  fromBuffer constructor [] 0 = Throw InvalidVersion
  /\ fromBuffer constructor [0x01; 0x74] 0 = Throw InvalidVersion
  /\ fromBuffer constructor [0x00; 0x21] 0 = Throw (UnknownCode 0x21)
  /\ fromBuffer constructor [0x00; 0x00] 0 = Throw (UnknownCode 0x00).
Proof.
  destruct (fromBuffer_rejects_bad_header constructor) as (Hv & _ & Hc).
  split; [|split; [|split]].
  - apply Hv. discriminate.
  - apply Hv. discriminate.
  - apply Hc. unfold type_codes. cbn [In]. lia.
  - apply Hc. unfold type_codes. cbn [In]. lia.
Defined.

(** ** Integer codes *)

(** X11: the six integer codes are read without any check that the narrowest
    one was used: a payload of the code's width decodes to its value under
    a positive code and to its negation under a negative code, so that
    [50 00 00 00 05] is 5 as much as [2B 05] is, and a negative code with
    payload zero is negative zero. *)
Theorem integer_codes_decode (serializer : BufferSerializer) (fuel : nat) (v : Z) :
  (0 <= v <= 0xFF ->
   reads (fromBufferInternal (S fuel) serializer) [0x2B; v] (VNumber (Number.of_Z v))
   /\ reads (fromBufferInternal (S fuel) serializer) [0x2D; v] (VNumber (negated v)))
  /\ (0 <= v <= 0xFFFF ->
      reads (fromBufferInternal (S fuel) serializer)
            [0x70; v / 256; v mod 256] (VNumber (Number.of_Z v))
      /\ reads (fromBufferInternal (S fuel) serializer)
               [0x69; v / 256; v mod 256] (VNumber (negated v)))
  /\ (0 <= v <= 0xFFFFFFFF ->
      reads (fromBufferInternal (S fuel) serializer)
            [0x50; v / 2 ^ 24; v / 2 ^ 16 mod 256; v / 2 ^ 8 mod 256; v mod 256]
            (VNumber (Number.of_Z v))
      /\ reads (fromBufferInternal (S fuel) serializer)
               [0x49; v / 2 ^ 24; v / 2 ^ 16 mod 256; v / 2 ^ 8 mod 256; v mod 256]
               (VNumber (negated v))).
Proof.
  split; [|split]; intros H.
  - split; cbn [fromBufferInternal]; apply reads_tag; cbv beta iota.
    + apply (reads_then_ret BufferReader.uint8 (fun v => VNumber (Number.of_Z v))).
      apply reads_uint8.
    + rewrite <- neg_of_Z.
      apply (reads_then_ret BufferReader.uint8
               (fun v => VNumber (Number.neg (Number.of_Z v)))).
      apply reads_uint8.
  - assert (big_endian 2 v = [v / 256; v mod 256]) as B.
    { cbn [big_endian app]. f_equal. apply Z.mod_small.
      split; [apply Z.div_pos | apply Z.div_lt_upper_bound]; lia. }
    rewrite <- B.
    split; cbn [fromBufferInternal]; apply reads_tag; cbv beta iota.
    + apply (reads_then_ret BufferReader.uint16 (fun v => VNumber (Number.of_Z v))).
      apply reads_uint16. exact H.
    + rewrite <- neg_of_Z.
      apply (reads_then_ret BufferReader.uint16
               (fun v => VNumber (Number.neg (Number.of_Z v)))).
      apply reads_uint16. exact H.
  - assert (big_endian 4 v
            = [v / 2 ^ 24; v / 2 ^ 16 mod 256; v / 2 ^ 8 mod 256; v mod 256]) as B.
    { cbn [big_endian app]. rewrite !Z.div_div by lia.
      change (256 * 256) with (2 ^ 16). change (256 * 2 ^ 16) with (2 ^ 24).
      change 256 with (2 ^ 8) at 3.
      f_equal. apply Z.mod_small.
      split; [apply Z.div_pos | apply Z.div_lt_upper_bound]; lia. }
    rewrite <- B.
    split; cbn [fromBufferInternal]; apply reads_tag; cbv beta iota.
    + apply (reads_then_ret BufferReader.uint32 (fun v => VNumber (Number.of_Z v))).
      apply reads_uint32. exact H.
    + rewrite <- neg_of_Z.
      apply (reads_then_ret BufferReader.uint32
               (fun v => VNumber (Number.neg (Number.of_Z v)))).
      apply reads_uint32. exact H.
Qed.

Lemma integer_codes_decode_witness :
  reads (fromBufferInternal 1 constructor) [0x2B; 0x05] (VNumber (Number.of_Z 5))
  /\ reads (fromBufferInternal 1 constructor) [0x50; 0x00; 0x00; 0x00; 0x05]
           (VNumber (Number.of_Z 5))
  /\ reads (fromBufferInternal 1 constructor) [0x69; 0x00; 0x00] (VNumber minus_zero).
Proof.
  split; [|split].
  - apply (integer_codes_decode constructor 0 5). lia.
  - apply (integer_codes_decode constructor 0 5). lia.
  - apply (integer_codes_decode constructor 0 0). lia.
Defined.

(** ** Timestamps *)

(** X12: a timestamp record is read without any check of its fields: code T
    gives the seconds times 1000, code D the seconds times 1000 plus the
    16-bit field, whatever it holds.  A millisecond field of 1000 or more
    therefore carries into the seconds, and one timestamp has several
    records; when the carry takes the time to [2^32] seconds or beyond,
    the timestamp decoded cannot be encoded again. *)
Theorem date_records_decode (serializer : BufferSerializer) (fuel : nat)
    (seconds ms : Z) :
  0 <= seconds <= 0xFFFFFFFF -> 0 <= ms <= 0xFFFF ->
  reads (fromBufferInternal (S fuel) serializer)
        (0x54 :: big_endian 4 seconds) (VDate (seconds * 1000))
  /\ reads (fromBufferInternal (S fuel) serializer)
           (0x44 :: big_endian 4 seconds ++ big_endian 2 ms)
           (VDate (seconds * 1000 + ms))
  /\ (2 ^ 32 * 1000 <= seconds * 1000 + ms ->
      unclaimed serializer (VDate (seconds * 1000 + ms)) = true ->
      toBuffer serializer (VDate (seconds * 1000 + ms)) = Throw RangeError).
Proof.
  intros Hs Hm. split; [|split].
  - cbn [fromBufferInternal]. apply reads_tag. cbv beta iota.
    unfold fromBufferInternalObjectDateT.
    apply (reads_then_ret BufferReader.uint32 (fun s => VDate (s * 1000))).
    apply reads_uint32. exact Hs.
  - cbn [fromBufferInternal]. apply reads_tag. cbv beta iota.
    unfold fromBufferInternalObjectDateD.
    eapply reads_bind; [apply reads_uint32; exact Hs|]. cbv zeta.
    apply (reads_then_ret BufferReader.uint16
             (fun ms => VDate (seconds * 1000 + ms))).
    apply reads_uint16. exact Hm.
  - intros Hbig Hun. apply toBuffer_of_throws. cbn [Nat.add depth].
    rewrite toBufferInternal_unclaimed by (reflexivity || exact Hun).
    cbn [toBufferInternalObject].
    apply throws_toBufferInternalObjectDate. right. exact Hbig.
Qed.

Lemma date_records_decode_witness :
  reads (fromBufferInternal 1 constructor) [0x54; 0; 0; 0; 2] (VDate 2000)
  /\ reads (fromBufferInternal 1 constructor) [0x44; 0; 0; 0; 1; 0x03; 0xE8]
           (VDate 2000)
  /\ reads (fromBufferInternal 1 constructor)
           [0x44; 0xFF; 0xFF; 0xFF; 0xFF; 0x03; 0xE8] (VDate (2 ^ 32 * 1000))
  /\ toBuffer constructor (VDate (2 ^ 32 * 1000)) = Throw RangeError.
Proof.
  split; [|split; [|split]].
  - apply (date_records_decode constructor 0 2 0); lia.
  - apply (date_records_decode constructor 0 1 1000); lia.
  - apply (date_records_decode constructor 0 0xFFFFFFFF 1000); lia.
  - apply (date_records_decode constructor 0 0xFFFFFFFF 1000);
      [lia | lia | lia | reflexivity].
Defined.

(** ** Patterns *)




(** ** Payloads cut short *)

Lemma slice_to_end (pre t : Buffer) (n : Z) :
  Z.of_nat (List.length t) <= n ->
  NodeBuffer.slice (pre ++ t) (List.length pre)
                   (Z.to_nat (Z.of_nat (List.length pre) + n)) = t.
Proof.
  intros H. unfold NodeBuffer.slice.
  rewrite skipn_app, skipn_all, Nat.sub_diag. cbn [skipn app].
  apply firstn_all2. lia.
Qed.

(** X14: the declared size of a text or byte-blob payload is not checked
    against what the buffer holds.  A record that ends before its payload
    is complete is decoded without an error, to the shorter text or
    byte-blob that is there. *)
Theorem truncated_payload_not_detected (serializer : BufferSerializer)
    (n : Z) (t : Buffer) :
  Z.of_nat (List.length t) <= n < 0x1FFFFFFF ->
  fromBuffer serializer (0x00 :: 0x73 :: size_bytes n ++ t) 0 = Ok (VString t)
  /\ fromBuffer serializer (0x00 :: 0x42 :: size_bytes n ++ t) 0 = Ok (VBuffer t).
Proof.
  intros H.
  assert (0 <= n < 0x1FFFFFFF) as Hn by lia.
  split; unfold fromBuffer; cbn [NodeBuffer.index nth_error];
    change (0 + 1)%nat with 1%nat;
    match goal with
    | |- context [List.length (0 :: ?c :: ?l)] =>
        change (List.length (0 :: c :: l)) with (S (S (List.length l)))
    end;
    cbn [fromBufferInternal].
  - rewrite (bind_reads BufferReader.uint8 _ [0x73] 0x73 (reads_uint8 0x73)
               [0] (size_bytes n ++ t)).
    cbv beta iota.
    rewrite <- (app_nil_r t) at 1.
    rewrite (bind_reads BufferReader.size _ (size_bytes n) n (reads_size n Hn)
               [0; 0x73] (t ++ [])).
    unfold BufferReader.bind, BufferReader.string, BufferReader.ret.
    cbn [BufferReader.new BufferReader.readBuffer BufferReader.offset bind fst].
    rewrite app_nil_r, app_assoc, <- length_app, slice_to_end by lia.
    reflexivity.
  - rewrite (bind_reads BufferReader.uint8 _ [0x42] 0x42 (reads_uint8 0x42)
               [0] (size_bytes n ++ t)).
    cbv beta iota.
    rewrite <- (app_nil_r t) at 1.
    rewrite (bind_reads BufferReader.size _ (size_bytes n) n (reads_size n Hn)
               [0; 0x42] (t ++ [])).
    unfold BufferReader.bind, BufferReader.buffer, BufferReader.ret.
    cbn [BufferReader.new BufferReader.readBuffer BufferReader.offset bind fst].
    rewrite app_nil_r, app_assoc, <- length_app, slice_to_end by lia.
    reflexivity.
Qed.

Lemma truncated_payload_not_detected_witness :
  fromBuffer constructor [0x00; 0x73; 0x05; 0x61; 0x62] 0 = Ok (VString (str "ab"))
  /\ fromBuffer constructor [0x00; 0x42; 0x05; 0x61; 0x62] 0 = Ok (VBuffer [0x61; 0x62]).
Proof.
  apply (truncated_payload_not_detected constructor 5 [0x61; 0x62]). cbn. lia.
Defined.

(** ** Looking up a helper *)

Lemma findHelper_none (self : BufferReader.action value) (hs : list helper)
    (wanted : jsstring) :
  find (fun h => jsstring_eqb (name h) wanted) hs = None ->
  findHelper self hs wanted = BufferReader.throw (HelperNotDefined wanted).
Proof.
  induction hs as [|h hs IH]; cbn [find findHelper]; [reflexivity|].
  destruct (jsstring_eqb (name h) wanted); [discriminate | exact IH].
Qed.

Lemma findHelper_app (self : BufferReader.action value) (hs more : list helper)
    (wanted : jsstring) :
  findHelper self (hs ++ more) wanted
  = match find (fun h => jsstring_eqb (name h) wanted) hs with
    | Some h => fromBufferFn h self
    | None => findHelper self more wanted
    end.
Proof.
  induction hs as [|h hs IH]; cbn [app find findHelper]; [reflexivity|].
  destruct (jsstring_eqb (name h) wanted); [reflexivity | exact IH].
Qed.

(** X15: a record with the extension code names its helper.  When no helper of
    that name is registered, decoding throws the error that reports the
    name, whatever follows the name in the buffer. *)
Theorem unknown_helper_is_reported (serializer : BufferSerializer)
    (wanted : jsstring) (rest : Buffer) :
  Z.of_nat (List.length wanted) < 0x1FFFFFFF ->
  find (fun h => jsstring_eqb (name h) wanted) (helpers serializer) = None ->
  fromBuffer serializer
    (0x00 :: 0x5A :: size_bytes (Z.of_nat (List.length wanted)) ++ wanted ++ rest) 0
  = Throw (HelperNotDefined wanted).
Proof.
  intros Hlen Hnone. unfold fromBuffer. cbn [NodeBuffer.index nth_error].
  change (0 + 1)%nat with 1%nat.
  match goal with
  | |- context [List.length (0 :: ?c :: ?l)] =>
      change (List.length (0 :: c :: l)) with (S (S (List.length l)))
  end.
  generalize (S (List.length (size_bytes (Z.of_nat (List.length wanted))
                              ++ wanted ++ rest))).
  intros fuel. cbn [fromBufferInternal].
  rewrite (bind_reads BufferReader.uint8 _ [0x5A] 0x5A (reads_uint8 0x5A) [0]
             (size_bytes (Z.of_nat (List.length wanted)) ++ wanted ++ rest)).
  cbv beta iota. unfold fromBufferInternalObjectHelper.
  rewrite (bind_reads BufferReader.size _ _ _
             (reads_size (Z.of_nat (List.length wanted)) ltac:(lia))
             [0; 0x5A] (wanted ++ rest)).
  pose proof (bind_reads _
                (fun w => findHelper (fromBufferInternal fuel serializer)
                                     (helpers serializer) w)
                wanted wanted (reads_string wanted)
                ([0; 0x5A] ++ size_bytes (Z.of_nat (List.length wanted))) rest) as E.
  rewrite <- app_assoc, length_app in E. rewrite E.
  rewrite findHelper_none by exact Hnone. reflexivity.
Qed.

Lemma unknown_helper_is_reported_witness :
  fromBuffer constructor [0x00; 0x5A; 0x01; 0x78] 0 = Throw (HelperNotDefined (str "x"))
  /\ fromBuffer with_Klass [0x00; 0x5A; 0x01; 0x78; 0x02] 0
     = Throw (HelperNotDefined (str "x")).
Proof.
  split.
  - apply (unknown_helper_is_reported constructor (str "x") []); [cbn; lia | reflexivity].
  - apply (unknown_helper_is_reported with_Klass (str "x") [0x02]);
      [cbn; lia | reflexivity].
Defined.

(** X16: on decoding, helpers are looked up by name in registration order, and
    the first helper of the name decodes the record.  A helper registered
    later is reached only under a name that no earlier helper has; one
    registered under a name already taken changes nothing in what is
    decoded. *)
Theorem decode_lookup_order (serializer : BufferSerializer)
    (self : BufferReader.action value) (nm : jsstring) (check : value -> bool)
    (enc : (value -> BufferWriter.action) -> value -> BufferWriter.action)
    (dec : BufferReader.action value -> BufferReader.action value) :
  (forall wanted,
     findHelper self (helpers (register serializer nm check enc dec)) wanted
     = match find (fun h => jsstring_eqb (name h) wanted) (helpers serializer) with
       | Some h => fromBufferFn h self
       | None => if jsstring_eqb nm wanted then dec self
                 else BufferReader.throw (HelperNotDefined wanted)
       end)
  /\ ((exists h, In h (helpers serializer) /\ name h = nm) ->
      forall reader,
        fromBufferInternalObjectHelper self
          (helpers (register serializer nm check enc dec)) reader
        = fromBufferInternalObjectHelper self (helpers serializer) reader).
Proof.
  assert (forall wanted,
            findHelper self (helpers (register serializer nm check enc dec)) wanted
            = match find (fun h => jsstring_eqb (name h) wanted) (helpers serializer) with
              | Some h => fromBufferFn h self
              | None => if jsstring_eqb nm wanted then dec self
                        else BufferReader.throw (HelperNotDefined wanted)
              end) as F.
  { intros wanted. unfold register. cbn [helpers]. rewrite findHelper_app.
    reflexivity. }
  split; [exact F|].
  intros (h & Hin & Hname) reader. unfold fromBufferInternalObjectHelper.
  unfold BufferReader.bind.
  destruct (BufferReader.size reader) as [[n r1]| |]; try reflexivity.
  destruct (BufferReader.string n r1) as [[wanted r2]| |]; try reflexivity.
  rewrite F.
  destruct (find (fun h => jsstring_eqb (name h) wanted) (helpers serializer))
    as [h'|] eqn:E.
  - rewrite (findHelper_find _ _ _ _ E). reflexivity.
  - rewrite (findHelper_none _ _ _ E).
    destruct (jsstring_eqb nm wanted) eqn:N; [|reflexivity].
    apply jsstring_eqb_eq in N. subst wanted.
    pose proof (find_none _ _ E h Hin) as C. cbv beta in C.
    rewrite Hname, jsstring_eqb_refl in C. discriminate.
Qed.

Lemma decode_lookup_order_witness :
  fromBufferInternalObjectHelper (BufferReader.ret VNull)
    (helpers (register with_Klass (str "Klass") (fun _ => true)
                (fun _ _ => done) (fun _ => BufferReader.ret VNull)))
    (BufferReader.new [0x05; 0x4B; 0x6C; 0x61; 0x73; 0x73; 0x02] 0)
  = Ok (Klass 2, BufferReader.new [0x05; 0x4B; 0x6C; 0x61; 0x73; 0x73; 0x02] 7).
Proof.
  rewrite (proj2 (decode_lookup_order with_Klass (BufferReader.ret VNull)
                    (str "Klass") (fun _ => true) (fun _ _ => done)
                    (fun _ => BufferReader.ret VNull))).
  - vm_compute. reflexivity.
  - eexists. split; [left; reflexivity | reflexivity].
Defined.

(** ** Decoding ends *)

Lemma be_nonneg (l : Buffer) :
  forallb is_octet l = true -> 0 <= NodeBuffer.be l.
Proof.
  unfold NodeBuffer.be.
  assert (forall acc, 0 <= acc -> forallb is_octet l = true ->
                      0 <= fold_left (fun acc b => acc * 256 + b) l acc) as G.
  { induction l as [|b l IH]; intros acc Hacc H; cbn [fold_left]; [exact Hacc|].
    cbn [forallb] in H. apply andb_prop in H as [Hb Hl].
    apply IH; [|exact Hl]. unfold is_octet in Hb. lia. }
  apply G. lia.
Qed.

Lemma forallb_firstn {A} (p : A -> bool) (n : nat) (l : list A) :
  forallb p l = true -> forallb p (firstn n l) = true.
Proof.
  revert n. induction l as [|x l IH]; intros [|n] H; try reflexivity.
  cbn [forallb firstn] in *. apply andb_prop in H as [Hx Hl].
  rewrite Hx, IH by exact Hl. reflexivity.
Qed.

Lemma forallb_skipn {A} (p : A -> bool) (n : nat) (l : list A) :
  forallb p l = true -> forallb p (skipn n l) = true.
Proof.
  revert l. induction n as [|n IH]; intros [|x l] H; try reflexivity; [exact H|].
  cbn [forallb skipn] in *. apply andb_prop in H as [_ Hl]. apply IH. exact Hl.
Qed.

Lemma remaining_advance (r : BufferReader.t) (n : Z) :
  0 <= n ->
  (remaining (BufferReader.advance r n) <= remaining r)%nat.
Proof.
  intros H. unfold remaining, BufferReader.advance.
  cbn [BufferReader.readBuffer BufferReader.offset]. lia.
Qed.

Lemma remaining_advance_width (r : BufferReader.t) (width : nat) :
  (BufferReader.offset r + width <= List.length (BufferReader.readBuffer r))%nat ->
  (remaining (BufferReader.advance r (Z.of_nat width)) + width <= remaining r)%nat.
Proof.
  intros H. unfold remaining, BufferReader.advance.
  cbn [BufferReader.readBuffer BufferReader.offset]. lia.
Qed.

Lemma outcome_weaken {A} (k k' : nat) (Q Q' : A -> Prop)
    (m : BufferReader.action A) (r : BufferReader.t) :
  (k' <= k)%nat -> (forall a, Q a -> Q' a) ->
  outcome k Q m r -> outcome k' Q' m r.
Proof.
  intros Hk HQ. unfold outcome. destruct (m r) as [[a r']| |]; auto.
  intros (Hb & Hr & Ha). split; [exact Hb|]. split; [lia | auto].
Qed.

Lemma outcome_ret {A} (Q : A -> Prop) (a : A) (r : BufferReader.t) :
  Q a -> outcome 0 Q (BufferReader.ret a) r.
Proof.
  intros H. unfold outcome, BufferReader.ret. split; [reflexivity|].
  split; [lia | exact H].
Qed.

Lemma outcome_throw {A} (Q : A -> Prop) (e : error) (r : BufferReader.t) :
  decode_error e = true -> outcome 0 Q (@BufferReader.throw A e) r.
Proof. intros H. exact H. Qed.

Lemma outcome_not_modelled {A} (Q : A -> Prop) (r : BufferReader.t) :
  outcome 0 Q (@stuck A NotModelled) r.
Proof. reflexivity. Qed.

Lemma outcome_bind {A B} (j k : nat) (Q : A -> Prop) (Q' : B -> Prop)
    (m : BufferReader.action A) (f : A -> BufferReader.action B)
    (r : BufferReader.t) :
  outcome j Q m r ->
  (forall a r', Q a ->
                BufferReader.readBuffer r' = BufferReader.readBuffer r ->
                (remaining r' + j <= remaining r)%nat ->
                outcome k Q' (f a) r') ->
  outcome (j + k) Q' (BufferReader.bind m f) r.
Proof.
  unfold outcome at 1 3, BufferReader.bind.
  destruct (m r) as [[a r']| |]; auto.
  intros (Hb & Hr & Ha) Hf. specialize (Hf a r' Ha Hb Hr). unfold outcome in Hf.
  destruct (f a r') as [[b r'']| |]; auto.
  destruct Hf as (Hb' & Hr' & Hq). split; [congruence|]. split; [lia | exact Hq].
Qed.

Lemma outcome_uint (width : nat) (read : BufferReader.action Z) (r : BufferReader.t) :
  (forall r,
     read r = match NodeBuffer.readUInt width (BufferReader.readBuffer r)
                      (BufferReader.offset r) with
              | Ok v => Ok (v, BufferReader.advance r (Z.of_nat width))
              | Throw e => Throw e
              | Stuck l => Stuck l
              end) ->
  octets r -> outcome width (fun v => 0 <= v) read r.
Proof.
  intros E Hr. unfold outcome. rewrite E. unfold NodeBuffer.readUInt.
  destruct (Nat.leb_spec (BufferReader.offset r + width)
              (List.length (BufferReader.readBuffer r))) as [Hle|Hgt];
    [|reflexivity].
  split; [reflexivity|]. split; [apply remaining_advance_width; exact Hle|].
  apply be_nonneg. unfold NodeBuffer.slice.
  apply forallb_firstn, forallb_skipn. exact Hr.
Qed.

Lemma outcome_uint8 (r : BufferReader.t) :
  octets r -> outcome 1 (fun v => 0 <= v) BufferReader.uint8 r.
Proof. apply (outcome_uint 1). reflexivity. Qed.

Lemma outcome_uint16 (r : BufferReader.t) :
  octets r -> outcome 2 (fun v => 0 <= v) BufferReader.uint16 r.
Proof. apply (outcome_uint 2). reflexivity. Qed.

Lemma outcome_uint32 (r : BufferReader.t) :
  octets r -> outcome 4 (fun v => 0 <= v) BufferReader.uint32 r.
Proof. apply (outcome_uint 4). reflexivity. Qed.

Lemma outcome_double (r : BufferReader.t) :
  outcome 8 (fun _ => True) BufferReader.double r.
Proof.
  unfold outcome, BufferReader.double, NodeBuffer.readDoubleBE, NodeBuffer.readUInt.
  destruct (Nat.leb_spec (BufferReader.offset r + 8)
              (List.length (BufferReader.readBuffer r))) as [Hle|Hgt];
    [|reflexivity].
  cbn [bind]. split; [reflexivity|]. split; [|exact I].
  apply (remaining_advance_width r 8). exact Hle.
Qed.

Lemma outcome_peek (r : BufferReader.t) :
  outcome 0 (fun _ => True) BufferReader.peek r.
Proof.
  unfold outcome, BufferReader.peek.
  destruct (NodeBuffer.index _ _); [|reflexivity].
  split; [reflexivity|]. split; [lia | exact I].
Qed.

Lemma outcome_skip (r : BufferReader.t) :
  outcome 0 (fun _ => True) BufferReader.skip r.
Proof.
  unfold outcome, BufferReader.skip. split; [reflexivity|].
  split; [|exact I]. rewrite Nat.add_0_r. apply remaining_advance. lia.
Qed.

Lemma outcome_buffer (n : Z) (r : BufferReader.t) :
  0 <= n -> outcome 0 (fun _ => True) (BufferReader.buffer n) r.
Proof.
  intros H. unfold outcome, BufferReader.buffer. split; [reflexivity|].
  split; [|exact I]. rewrite Nat.add_0_r. apply remaining_advance. exact H.
Qed.

Lemma outcome_string (n : Z) (r : BufferReader.t) :
  0 <= n -> outcome 0 (fun _ => True) (BufferReader.string n) r.
Proof.
  intros H. unfold outcome, BufferReader.string. split; [reflexivity|].
  split; [|exact I]. rewrite Nat.add_0_r. apply remaining_advance. exact H.
Qed.

Lemma octets_same (r r' : BufferReader.t) :
  BufferReader.readBuffer r' = BufferReader.readBuffer r -> octets r -> octets r'.
Proof. unfold octets. intros ->. auto. Qed.

Lemma outcome_size (r : BufferReader.t) :
  octets r -> outcome 0 (fun n => 0 <= n) BufferReader.size r.
Proof.
  intros Hr. unfold BufferReader.size.
  apply (outcome_bind 0 0 (fun _ => True)); [apply outcome_peek|].
  intros b r' _ Hb _. pose proof (octets_same r r' Hb Hr) as Hr'.
  destruct (negb (BufferReader.bit_set b 128)).
  { apply (outcome_weaken 1 0 (fun v => 0 <= v)); [lia | auto |].
    apply outcome_uint8. exact Hr'. }
  destruct (negb (BufferReader.bit_set b 64)).
  { apply (outcome_bind 0 0 (fun _ => True)).
    - apply (outcome_weaken 2 0 (fun v => 0 <= v)); [lia | auto |].
      apply outcome_uint16. exact Hr'.
    - intros v r'' _ _ _. apply outcome_ret. apply Z.land_nonneg. right. lia. }
  destruct (negb (BufferReader.bit_set b 32)).
  { apply (outcome_bind 0 0 (fun _ => True)).
    - apply (outcome_weaken 4 0 (fun v => 0 <= v)); [lia | auto |].
      apply outcome_uint32. exact Hr'.
    - intros v r'' _ _ _. apply outcome_ret. apply Z.land_nonneg. right. lia. }
  apply outcome_throw. reflexivity.
Qed.

(** A field read and wrapped: [let* v := m in ret (f v)]. *)
Lemma outcome_map {A B} (k : nat) (Q : A -> Prop) (m : BufferReader.action A)
    (f : A -> B) (r : BufferReader.t) :
  outcome k Q m r ->
  outcome 0 (fun _ => True) (BufferReader.bind m (fun v => BufferReader.ret (f v))) r.
Proof.
  intros H. apply (outcome_bind 0 0 (fun _ => True)).
  - apply (outcome_weaken k 0 Q); [lia | auto | exact H].
  - intros a r' _ _ _. apply outcome_ret. exact I.
Qed.

(** A sized payload: [let* n := size in let* x := read n in ret (f x)]. *)
Lemma outcome_sized {A B} (read : Z -> BufferReader.action A) (f : A -> B)
    (r : BufferReader.t) :
  octets r ->
  (forall n r', 0 <= n -> outcome 0 (fun _ => True) (read n) r') ->
  outcome 0 (fun _ => True)
    (BufferReader.bind BufferReader.size
       (fun n => BufferReader.bind (read n) (fun x => BufferReader.ret (f x)))) r.
Proof.
  intros Hr Hread. apply (outcome_bind 0 0 (fun n => 0 <= n)).
  - apply outcome_size. exact Hr.
  - intros n r' Hn _ _. apply (outcome_map 0 (fun _ => True)). apply Hread. exact Hn.
Qed.

Section Loops.

Variable self : BufferReader.action value.
Variable bound : nat.
Hypothesis self_outcome :
  forall r, octets r -> (remaining r < bound)%nat ->
            outcome 1 (fun _ => True) self r.

Lemma outcome_untilEnd {A} (body : A -> BufferReader.action A) :
  (forall acc r, octets r -> (remaining r < bound)%nat ->
                 outcome 1 (fun _ => True) (body acc) r) ->
  forall n acc r,
    octets r -> (remaining r < n)%nat -> (remaining r < bound)%nat ->
    outcome 0 (fun _ => True) (untilEnd n body acc) r.
Proof.
  intros Hbody. induction n as [|n IH]; intros acc r Hr Hn Hb; [lia|].
  cbn [untilEnd].
  apply (outcome_bind 0 0 (fun _ => True)); [apply outcome_peek|].
  intros b r' _ Hsame Hrem. pose proof (octets_same r r' Hsame Hr) as Hr'.
  destruct (b =? 33); [apply outcome_ret; exact I|].
  apply (outcome_weaken (1 + 0) 0 (fun _ => True)); [lia | auto |].
  apply (outcome_bind 1 0 (fun _ => True)).
  - apply Hbody; [exact Hr' | lia].
  - intros acc' r'' _ Hsame' Hrem'.
    apply IH; [exact (octets_same r' r'' Hsame' Hr') | lia | lia].
Qed.

Lemma outcome_loop {A} (body : A -> BufferReader.action A) (init : A)
    (f : A -> value) (n : nat) (r : BufferReader.t) :
  (forall acc r, octets r -> (remaining r < bound)%nat ->
                 outcome 1 (fun _ => True) (body acc) r) ->
  octets r -> (remaining r < n)%nat -> (remaining r < bound)%nat ->
  outcome 0 (fun _ => True)
    (BufferReader.bind (untilEnd n body init)
       (fun result => BufferReader.bind BufferReader.skip
                        (fun _ => BufferReader.ret (f result)))) r.
Proof.
  intros Hbody Hr Hn Hb. apply (outcome_bind 0 0 (fun _ => True)).
  - apply outcome_untilEnd; assumption.
  - intros result r' _ _ _. apply (outcome_map 0 (fun _ => True)).
    apply outcome_skip.
Qed.

Lemma outcome_pair {A} (set : value -> value -> BufferReader.action A)
    (r : BufferReader.t) :
  (forall key v r', outcome 0 (fun _ => True) (set key v) r') ->
  octets r -> (remaining r < bound)%nat ->
  outcome 1 (fun _ => True)
    (BufferReader.bind self
       (fun key => BufferReader.bind self (fun v => set key v))) r.
Proof.
  intros Hset Hr Hb. apply (outcome_bind 1 0 (fun _ => True)).
  - apply self_outcome; assumption.
  - intros key r' _ Hsame Hrem. pose proof (octets_same r r' Hsame Hr) as Hr'.
    apply (outcome_weaken (1 + 0) 0 (fun _ => True)); [lia | auto |].
    apply (outcome_bind 1 0 (fun _ => True)).
    + apply self_outcome; [exact Hr' | lia].
    + intros v r'' _ _ _. apply Hset.
Qed.

Lemma outcome_dense (n : nat) (r : BufferReader.t) :
  octets r -> (remaining r < n)%nat -> (remaining r < bound)%nat ->
  outcome 0 (fun _ => True) (fromBufferInternalArrayDense self n) r.
Proof.
  intros Hr Hn Hb. unfold fromBufferInternalArrayDense.
  apply (outcome_loop _ _ (fun result => VArray (fst result) (snd result)));
    try assumption.
  intros acc r' Hr' Hb'. apply (outcome_weaken (1 + 0) 1 (fun _ => True)); [lia | auto |].
  apply (outcome_bind 1 0 (fun _ => True)); [apply self_outcome; assumption|].
  intros v r'' _ _ _. apply outcome_ret. exact I.
Qed.

Lemma outcome_sparse (n : nat) (r : BufferReader.t) :
  octets r -> (remaining r < n)%nat -> (remaining r < bound)%nat ->
  outcome 0 (fun _ => True) (fromBufferInternalArraySparse self n) r.
Proof.
  intros Hr Hn Hb. unfold fromBufferInternalArraySparse.
  apply (outcome_loop _ _ (fun result => VArray (fst result) (snd result)));
    try assumption.
  intros acc r' Hr' Hb'. apply outcome_pair; try assumption.
  intros key v r''. unfold Array_set.
  destruct (ToPropertyKey key) as [k|]; [|apply outcome_not_modelled].
  destruct (jsstring_eqb k (str "length") || jsstring_eqb k (str "__proto__"));
    [apply outcome_not_modelled|].
  apply outcome_ret. exact I.
Qed.

Lemma outcome_generic (n : nat) (r : BufferReader.t) :
  octets r -> (remaining r < n)%nat -> (remaining r < bound)%nat ->
  outcome 0 (fun _ => True) (fromBufferInternalObjectGeneric self n) r.
Proof.
  intros Hr Hn Hb. unfold fromBufferInternalObjectGeneric.
  apply (outcome_loop _ _ (fun result => VObject "Object" result));
    try assumption.
  intros acc r' Hr' Hb'. apply outcome_pair; try assumption.
  intros key v r''. unfold Object_set.
  destruct (ToPropertyKey key) as [k|]; [|apply outcome_not_modelled].
  destruct (jsstring_eqb k (str "__proto__")); [apply outcome_not_modelled|].
  apply outcome_ret. exact I.
Qed.

End Loops.

Lemma outcome_dateD (r : BufferReader.t) :
  octets r -> outcome 0 (fun _ => True) fromBufferInternalObjectDateD r.
Proof.
  intros Hr. unfold fromBufferInternalObjectDateD.
  apply (outcome_bind 0 0 (fun _ => True)).
  - apply (outcome_weaken 4 0 (fun v => 0 <= v)); [lia | auto |].
    apply outcome_uint32. exact Hr.
  - intros s r' _ Hsame _. cbv zeta.
    apply (outcome_map 2 (fun v => 0 <= v)). apply outcome_uint16.
    exact (octets_same r r' Hsame Hr).
Qed.

Lemma outcome_regexp (r : BufferReader.t) :
  octets r -> outcome 0 (fun _ => True) fromBufferInternalObjectRegExp r.
Proof.
  intros Hr. unfold fromBufferInternalObjectRegExp.
  apply (outcome_bind 0 0 (fun n => 0 <= n)); [apply outcome_size; exact Hr|].
  intros n r' Hn Hsame _.
  apply (outcome_bind 0 0 (fun _ => True)); [apply outcome_string; exact Hn|].
  intros pattern r'' _ Hsame' _.
  apply (outcome_bind 0 0 (fun _ => True)).
  - apply (outcome_weaken 1 0 (fun v => 0 <= v)); [lia | auto |].
    apply outcome_uint8.
    exact (octets_same r' r'' Hsame' (octets_same r r' Hsame Hr)).
  - intros flags r3 _ _ _. destruct (plain_source pattern).
    + apply outcome_ret. exact I.
    + apply outcome_not_modelled.
Qed.

Lemma outcome_no_helper (self : BufferReader.action value) (r : BufferReader.t) :
  octets r -> outcome 0 (fun _ => True) (fromBufferInternalObjectHelper self []) r.
Proof.
  intros Hr. unfold fromBufferInternalObjectHelper.
  apply (outcome_bind 0 0 (fun n => 0 <= n)); [apply outcome_size; exact Hr|].
  intros n r' Hn _ _.
  apply (outcome_bind 0 0 (fun _ => True)); [apply outcome_string; exact Hn|].
  intros wanted r'' _ _ _. apply outcome_throw. reflexivity.
Qed.

Lemma outcome_fromBufferInternal (fuel : nat) :
  forall r, octets r -> (remaining r < fuel)%nat ->
            outcome 1 (fun _ => True) (fromBufferInternal fuel constructor) r.
Proof.
  induction fuel as [|fuel IH]; intros r Hr Hf; [lia|].
  cbn [fromBufferInternal helpers constructor].
  apply (outcome_bind 1 0 (fun v => 0 <= v)); [apply outcome_uint8; exact Hr|].
  intros code r' _ Hsame Hrem. pose proof (octets_same r r' Hsame Hr) as Hr'.
  assert (remaining r' < fuel)%nat as Hf' by lia.
  pose proof (outcome_uint8 r' Hr') as U8.
  pose proof (outcome_uint16 r' Hr') as U16.
  pose proof (outcome_uint32 r' Hr') as U32.
  pose proof (outcome_double r') as D.
  destruct code as [|p|p]; try (apply outcome_throw; reflexivity).
  code_cases p 7%nat;
    first
      [ apply outcome_throw; reflexivity
      | apply outcome_ret; exact I
      | apply (outcome_map _ _ _ _ _ U8)
      | apply (outcome_map _ _ _ _ _ U16)
      | apply (outcome_map _ _ _ _ _ U32)
      | apply (outcome_map _ _ _ _ _ D)
      | apply (outcome_sized BufferReader.buffer VBuffer r' Hr');
        intros; apply outcome_buffer; assumption
      | apply (outcome_sized BufferReader.string VString r' Hr');
        intros; apply outcome_string; assumption
      | apply outcome_dateD; exact Hr'
      | apply (outcome_map _ _ _ _ _ U32)
      | apply outcome_regexp; exact Hr'
      | apply outcome_no_helper; exact Hr'
      | apply (outcome_dense _ fuel IH); assumption
      | apply (outcome_sparse _ fuel IH); assumption
      | apply (outcome_generic _ fuel IH); assumption ].
Qed.

(** X17: decoding ends on every buffer.  With no helper registered, [fromBuffer]
    on any buffer of octets, from any offset, returns a value or throws
    one of the errors of decoding; the loops that read lists and objects
    cannot run forever, since every round consumes at least one byte, and
    the recursion never goes deeper than the buffer is long.  (The third
    outcome is a property key the embedding does not convert; whether the
    host accepts the source of a pattern is left out as well.) *)
Theorem decoding_ends (buff : Buffer) (offset : nat) :
  forallb is_octet buff = true ->
  match fromBuffer constructor buff offset with
  | Ok v => True
  | Throw e => decode_error e = true
  | Stuck l => l = NotModelled
  end.
Proof.
  intros H. unfold fromBuffer.
  destruct (NodeBuffer.index buff offset) as [[|p|p]|] eqn:E; try reflexivity.
  assert (offset < List.length buff)%nat as Hlt
    by (apply nth_error_Some; unfold NodeBuffer.index in E; congruence).
  pose proof (outcome_fromBufferInternal (List.length buff)
                (BufferReader.new buff (offset + 1)) H) as O.
  unfold outcome in O.
  destruct (fromBufferInternal (List.length buff) constructor
              (BufferReader.new buff (offset + 1))) as [[v r]|e|l];
    cbn [bind].
  - exact I.
  - apply O. unfold remaining. cbn [BufferReader.new BufferReader.readBuffer
                                      BufferReader.offset]. lia.
  - apply O. unfold remaining. cbn [BufferReader.new BufferReader.readBuffer
                                      BufferReader.offset]. lia.
Qed.

Lemma decoding_ends_witness :
  fromBuffer constructor [0x00; 0x61; 0x61; 0x61; 0x61] 0 = Throw UnexpectedEndOfStream
  /\ decode_error UnexpectedEndOfStream = true.
Proof.
  pose proof (decoding_ends [0x00; 0x61; 0x61; 0x61; 0x61] 0 eq_refl) as H.
  split; [vm_compute; reflexivity|].
  vm_compute in H. exact H.
Defined.

(** * Further properties of lists and objects *)

(** ** Records inside a buffer *)

Lemma fromBuffer_at (s : BufferSerializer) (pre bytes post : Buffer) (v : value) :
  reads (fromBufferInternal (List.length (pre ++ (0 :: bytes) ++ post)) s) bytes v ->
  fromBuffer s (pre ++ (0 :: bytes) ++ post) (List.length pre) = Ok v.
Proof.
  unfold fromBuffer.
  generalize (List.length (pre ++ (0 :: bytes) ++ post)) as fuel. intros fuel H.
  change ((0 :: bytes) ++ post) with (0 :: bytes ++ post).
  rewrite index_middle.
  specialize (H (pre ++ [0]) post).
  rewrite <- app_assoc, length_app in H. cbn [app List.length] in H.
  rewrite H. reflexivity.
Qed.

Lemma encoding_record (s : BufferSerializer) (v : value) (bytes : Buffer) :
  encoding s v bytes ->
  toBuffer s v = Ok (0 :: bytes)
  /\ forall pre post,
       fromBuffer s (pre ++ (0 :: bytes) ++ post) (List.length pre) = Ok v.
Proof.
  intros (_ & Hw & Hr). split.
  - apply toBuffer_of_writes. apply Hw. lia.
  - intros pre post. apply fromBuffer_at. apply Hr.
    rewrite !length_app. cbn [List.length]. rewrite ?length_app. lia.
Qed.



(** ** A byte-blob *)

(** X19: a byte-blob no helper claims is written as code B, its length as a
    size, and its bytes unchanged; the record decodes to the same bytes,
    from any offset and whatever follows. *)
Theorem byte_blob_record (serializer : BufferSerializer) (blob : Buffer) :
  unclaimed serializer (VBuffer blob) = true ->
  Z.of_nat (List.length blob) < 0x1FFFFFFF ->
  toBuffer serializer (VBuffer blob)
  = Ok (0x00 :: 0x42 :: size_bytes (Z.of_nat (List.length blob)) ++ blob)
  /\ forall pre post,
       fromBuffer serializer
         (pre ++ (0x00 :: 0x42 :: size_bytes (Z.of_nat (List.length blob)) ++ blob)
              ++ post) (List.length pre)
       = Ok (VBuffer blob).
Proof.
  intros Hu Hlen.
  apply (encoding_record serializer (VBuffer blob) (buffer_bytes blob)).
  apply encoding_buffer; assumption.
Qed.

Lemma byte_blob_record_witness :
  toBuffer constructor (VBuffer [0x74; 0x65; 0x73; 0x74])
  = Ok [0x00; 0x42; 0x04; 0x74; 0x65; 0x73; 0x74]
  /\ fromBuffer constructor [0xFF; 0x00; 0x42; 0x04; 0x74; 0x65; 0x73; 0x74; 0xFF] 1
     = Ok (VBuffer [0x74; 0x65; 0x73; 0x74]).
Proof.
  destruct (byte_blob_record constructor [0x74; 0x65; 0x73; 0x74]) as (W & R).
  - reflexivity.
  - cbn. lia.
  - split; [exact W | exact (R [0xFF] [0xFF])].
Defined.

(** ** An object a helper claims *)

(** X27: an object that a helper claims is written as the extension code,
    the size of the helper's name, the name, and what the helper's
    [toBufferFn] writes, for every budget of recursion beyond the one the
    helper needs; the helper may hand the serializer values nested deeper
    than the object itself.  ([toBuffer] runs at the budget of the
    object's own nesting, so it gives the record when the helper needs no
    more than that.)  The record decodes to the object, from any offset,
    provided the name is Latin-1 text shorter than [0x1FFFFFFF], the first
    helper registered under that name is the same helper, and its
    [fromBufferFn] reads back what its [toBufferFn] wrote. *)
Theorem extension_record_round_trip (serializer : BufferSerializer)
    (v : value) (h : helper) (payload : Buffer) (budget : nat) :
  object_kind v = true ->
  first_match serializer v = Some h ->
  latin1_text (name h) = true ->
  find (fun h' => jsstring_eqb (name h') (name h)) (helpers serializer) = Some h ->
  (forall fuel, (budget <= fuel)%nat ->
                writes (toBufferFn h (toBufferInternal fuel serializer) v) payload) ->
  (forall fuel, (List.length payload <= fuel)%nat ->
                reads (fromBufferFn h (fromBufferInternal fuel serializer)) payload v) ->
  let record := 0x00 :: 0x5A :: size_bytes (Z.of_nat (List.length (name h)))
                     ++ name h ++ payload in
  (forall fuel, (budget < fuel)%nat -> toBufferWith fuel serializer v = Ok record)
  /\ ((budget <= S (depth v))%nat -> toBuffer serializer v = Ok record)
  /\ forall pre post,
       fromBuffer serializer (pre ++ record ++ post) (List.length pre) = Ok v.
Proof.
  intros Hk Hf Hl Hn Hw Hr record.
  destruct (latin1_text_spec _ Hl) as [Hm Hlen].
  assert (forall fuel, (budget < fuel)%nat ->
            toBufferWith fuel serializer v = Ok record) as Hwith.
  { intros fuel Hfuel. destruct fuel as [|fuel]; [lia|].
    unfold toBufferWith.
    assert (toBufferInternal (S fuel) serializer v
            = extension_record (toBufferInternal fuel serializer) h v) as E.
    { destruct v; try discriminate; cbn [toBufferInternal];
        apply toBufferInternalObject_claimed; exact Hf. }
    assert (writes (BufferWriter.uint8 0 ;; toBufferInternal (S fuel) serializer v)
                   ([0] ++ [0x5A] ++ size_bytes (Z.of_nat (List.length (name h)))
                        ++ name h ++ payload)) as W.
    { apply writes_seq; [apply writes_uint8; lia|]. rewrite E.
      unfold extension_record.
      apply writes_seq; [apply writes_uint8; lia|].
      apply writes_seq; [apply writes_size; lia|].
      apply writes_seq.
      - rewrite <- Hm at 2. rewrite <- from_binary_mod. apply writes_string.
      - apply Hw. lia. }
    destruct (W BufferWriter.new) as (w & Ew & Bw).
    rewrite Ew. cbn [bind]. rewrite Bw. reflexivity. }
  split; [exact Hwith|]. split.
  - intros Hb. unfold toBuffer. apply Hwith. lia.
  - intros pre post. apply fromBuffer_at.
    match goal with
    | |- reads (fromBufferInternal ?n _) _ _ => remember n as fuel eqn:Efuel
    end.
    assert (S (S (List.length payload)) <= fuel)%nat as Hfuel.
    { rewrite Efuel, !length_app. cbn [List.length]. rewrite !length_app. lia. }
    clear Efuel. destruct fuel as [|fuel]; [lia|].
    cbn [fromBufferInternal].
    apply reads_tag. cbv beta iota. unfold fromBufferInternalObjectHelper.
    eapply reads_bind; [apply reads_size; lia|].
    eapply reads_bind; [apply reads_string|].
    unfold NodeBuffer.toString_binary. rewrite (findHelper_find _ _ _ h Hn).
    apply Hr. lia.
Qed.

Lemma extension_record_round_trip_witness :
  toBuffer with_Klass (Klass 2)
  = Ok [0x00; 0x5A; 0x05; 0x4B; 0x6C; 0x61; 0x73; 0x73; 0x02]
  /\ toBufferWith 5 boxed (Klass 2)
     = Ok [0x00; 0x5A; 0x03; 0x42; 0x6F; 0x78; 0x61; 0x61; 0x2B; 0x02; 0x21; 0x21]
  /\ fromBuffer boxed
       [0xFF; 0x00; 0x5A; 0x03; 0x42; 0x6F; 0x78; 0x61; 0x61; 0x2B; 0x02; 0x21; 0x21;
        0xFF] 1
     = Ok (Klass 2).
Proof.
  destruct (extension_record_round_trip with_Klass (Klass 2)
              (hd accepts_all (helpers with_Klass)) [0x02] 0) as (_ & W & _).
  { reflexivity. }
  { reflexivity. }
  { reflexivity. }
  { reflexivity. }
  { intros fuel _. apply (writes_size 2). lia. }
  { intros fuel _. apply (reads_then_ret BufferReader.size Klass [0x02] 2).
    apply (reads_size 2). lia. }
  assert (encoding boxed (dense [dense [VNumber (Number.of_Z 2)]])
                   (0x61 :: List.concat [0x61 :: List.concat [[0x2B; 0x02]] ++ [0x21]]
                         ++ [0x21])) as (_ & Ew & Er).
  { apply encoding_dense; [cbn; lia|].
    apply Forall2_cons; [|apply Forall2_nil].
    apply encoding_dense; [cbn; lia|].
    apply Forall2_cons; [|apply Forall2_nil].
    apply (encoding_number boxed (Number.of_Z 2)); reflexivity. }
  destruct (extension_record_round_trip boxed (Klass 2)
              (hd accepts_all (helpers boxed))
              [0x61; 0x61; 0x2B; 0x02; 0x21; 0x21] 4) as (B & _ & R).
  { reflexivity. }
  { reflexivity. }
  { reflexivity. }
  { reflexivity. }
  { intros fuel Hfuel. apply Ew. cbn. lia. }
  { intros fuel Hfuel.
    apply (reads_then_ret (fromBufferInternal fuel boxed)
             (fun l => Klass (unbox l)) [0x61; 0x61; 0x2B; 0x02; 0x21; 0x21]
             (dense [dense [VNumber (Number.of_Z 2)]])).
    apply Er. exact Hfuel. }
  split; [apply W; cbn; lia|]. split; [apply (B 5%nat); lia|].
  exact (R [0xFF] [0xFF]).
Defined.

(** ** The records of containers *)

(** X20: the record of a container is made of the records of its members.  A
    list in dense form is code a, the members' bytes in order, and the
    terminator; a list in sparse form and a plain object are their code,
    for every own property its key's bytes followed by its value's bytes,
    and the terminator.  Each decodes to the container again: the array
    literal of at most [2^32 - 1] members; the sparse list whose length is
    one past its last index and that has no own key named [length] or
    [__proto__]; the plain object with no own key named [__proto__]; the
    keys being distinct, in own-key order and such as come back in place
    (Latin-1 text, an index-like one below [2^53]). *)
Theorem container_records_concatenate (serializer : BufferSerializer) :
  (forall l chunks,
     Z.of_nat (List.length l) <= 2 ^ 32 - 1 ->
     Forall2 (encoding serializer) l chunks ->
     toBuffer serializer (dense l)
     = Ok (0x00 :: 0x61 :: List.concat chunks ++ [0x21])
     /\ fromBuffer serializer (0x00 :: 0x61 :: List.concat chunks ++ [0x21]) 0
        = Ok (dense l))
  /\ (forall length props chunks,
        is_dense length props = false ->
        keys_ok (str "length") props ->
        keys_ok (str "__proto__") props ->
        length = implied_length (Object_keys props) ->
        Forall2 (encoding serializer) (map snd props) chunks ->
        toBuffer serializer (VArray length props)
        = Ok (0x00 :: 0x41 :: List.concat (pair_chunks props chunks) ++ [0x21])
        /\ fromBuffer serializer
             (0x00 :: 0x41 :: List.concat (pair_chunks props chunks) ++ [0x21]) 0
           = Ok (VArray length props))
  /\ (forall props chunks,
        unclaimed serializer (VObject "Object" props) = true ->
        keys_ok (str "__proto__") props ->
        Forall2 (encoding serializer) (map snd props) chunks ->
        toBuffer serializer (VObject "Object" props)
        = Ok (0x00 :: 0x4F :: List.concat (pair_chunks props chunks) ++ [0x21])
        /\ fromBuffer serializer
             (0x00 :: 0x4F :: List.concat (pair_chunks props chunks) ++ [0x21]) 0
           = Ok (VObject "Object" props)).
Proof.
  assert (forall v bytes, encoding serializer v bytes ->
            toBuffer serializer v = Ok (0 :: bytes)
            /\ fromBuffer serializer (0 :: bytes) 0 = Ok v) as R.
  { intros v bytes E. destruct (encoding_record serializer v bytes E) as (W & D).
    split; [exact W|]. specialize (D [] []). rewrite app_nil_r in D. exact D. }
  split; [|split].
  - intros l chunks Hlen H2. apply R. apply encoding_dense; assumption.
  - intros length props chunks Hd Hk Hk' Hl H2. apply R.
    apply encoding_sparse; assumption.
  - intros props chunks Hu Hk H2. apply R. apply encoding_object; assumption.
Qed.

Lemma container_records_concatenate_witness :
  toBuffer constructor
    (VObject "Object" [(str "7", VNull); (str "obj", VBoolean true)])
  = Ok ([0x00; 0x4F] ++ ([0x2B; 0x07] ++ [0x6E])
                     ++ ([0x73; 0x03; 0x6F; 0x62; 0x6A] ++ [0x74]) ++ [0x21]).
Proof.
  destruct (container_records_concatenate constructor) as (_ & _ & H).
  destruct (H [(str "7", VNull); (str "obj", VBoolean true)] [[0x6E]; [0x74]])
    as (W & _).
  - reflexivity.
  - split; [|split].
    + apply NoDup_cons; [cbn; intros [E|[]]; discriminate E|].
      apply NoDup_cons; [intros [] | apply NoDup_nil].
    + reflexivity.
    + repeat (apply Forall_cons; [split; [reflexivity | discriminate]|]).
      apply Forall_nil.
  - apply Forall2_cons; [apply encoding_null|].
    apply Forall2_cons; [apply (encoding_boolean _ true) | apply Forall2_nil].
  - exact W.
Defined.

(** ** When the dense form is chosen *)

(** X21: [toBufferInternalArray] writes the dense form, code a, exactly for
    an array whose own keys are the indices below its length, each with a
    value other than [undefined], and the sparse form, code A, for every
    other array.  Its test, as many keys as the length and no [undefined]
    at an index, leaves no room for a key of any other kind; so the dense
    form, which writes the values at the indices only, never drops a
    property. *)
Theorem dense_form_has_only_indices (self : value -> BufferWriter.action)
    (length : nat) (props : properties) (w' : BufferWriter.t) :
  (forall v, appends (self v)) ->
  NoDup (Object_keys props) ->
  toBufferInternalArray self length props BufferWriter.new = Ok w' ->
  let indices_only :=
    (forall key,
       In key (Object_keys props) <-> exists i, (i < length)%nat /\ key = index_key i)
    /\ forall i, (i < length)%nat -> get props (index_key i) <> VUndefined in
  exists rest,
    (indices_only
     /\ BufferWriter.toBuffer w' = 0x61 :: rest
     /\ toBufferInternalArray self length props
        = (BufferWriter.string (str "a") ;;
           forEach (seq 0 length) (fun i => self (get props (index_key i))) ;;
           BufferWriter.string (str "!")))
    \/ (~ indices_only /\ BufferWriter.toBuffer w' = 0x41 :: rest).
Proof.
  intros Hself Hnd E indices_only.
  assert (is_dense length props = true -> indices_only) as Hdense.
  { unfold is_dense. intros H. apply andb_prop in H as [Hcount Hdef].
    apply Nat.eqb_eq in Hcount. apply negb_true_iff in Hdef.
    assert (forall i, (i < length)%nat -> get props (index_key i) <> VUndefined)
      as Hget.
    { intros i Hi Hu.
      assert (existsb (fun i => is_undefined (get props (index_key i)))
                      (seq 0 length) = true) as C.
      { apply existsb_exists. exists i. split; [apply in_seq; lia|].
        rewrite Hu. reflexivity. }
      congruence. }
    split; [|exact Hget].
    intros key. split.
    - apply dense_check_keys; assumption.
    - intros (i & Hi & ->).
      destruct (in_dec (list_eq_dec Z.eq_dec) (index_key i) (Object_keys props))
        as [Hin|Hout]; [exact Hin|].
      exfalso. apply (Hget i Hi). apply get_absent. exact Hout. }
  assert (indices_only -> is_dense length props = true) as Hback.
  { intros [Hkeys Hdef]. unfold is_dense. apply andb_true_intro. split.
    - apply Nat.eqb_eq.
      assert (NoDup (map index_key (seq 0 length))) as Hni.
      { apply Injective_map_NoDup; [|apply seq_NoDup].
        intros i j. apply index_key_inj. }
      assert (List.length (map index_key (seq 0 length)) = length) as Hl
        by (rewrite length_map, length_seq; reflexivity).
      apply Nat.le_antisymm.
      + rewrite <- Hl. apply NoDup_incl_length; [exact Hnd|].
        intros k Hk. apply Hkeys in Hk as (i & Hi & ->).
        apply in_map, in_seq. lia.
      + rewrite <- Hl. apply NoDup_incl_length; [exact Hni|].
        intros k Hk. apply in_map_iff in Hk as (i & <- & Hi).
        apply Hkeys. exists i. split; [apply in_seq in Hi; lia | reflexivity].
    - apply negb_true_iff. apply not_true_is_false. intros C.
      apply existsb_exists in C as (i & Hi & Hu). apply in_seq in Hi.
      apply (Hdef i ltac:(lia)).
      destruct (get props (index_key i)); try discriminate Hu. reflexivity. }
  unfold toBufferInternalArray in E |- *. fold (is_dense length props) in E |- *.
  destruct (is_dense length props) eqn:D.
  - destruct (seq_head _ _ 0x61 w' (writes_push [0x61])
                (appends_seq _ _
                   (appends_forEach _ _ (fun i => Hself _)) (appends_push _)) E)
      as (rest & B).
    exists rest. left. split; [apply Hdense; reflexivity|].
    split; [exact B | reflexivity].
  - destruct (seq_head _ _ 0x41 w' (writes_push [0x41])
                (appends_seq _ _ (appends_pairs _ Hself props) (appends_push _)) E)
      as (rest & B).
    exists rest. right. split; [|exact B].
    intros H. apply Hback in H. discriminate H.
Qed.

Lemma dense_form_has_only_indices_witness :
  exists rest,
    BufferWriter.toBuffer
      {| BufferWriter.bufferList := [[0x41]; [0x2B]; [0x00]; [0x6E];
                                     [0x73]; [0x01]; [0x78]; [0x74]; [0x21]] |}
    = 0x41 :: rest.
Proof.
  destruct (dense_form_has_only_indices (toBufferInternal 1 constructor) 2
              [(str "0", VNull); (str "x", VBoolean true)]
              {| BufferWriter.bufferList := [[0x41]; [0x2B]; [0x00]; [0x6E];
                                             [0x73]; [0x01]; [0x78]; [0x74]; [0x21]] |})
    as (rest & [(H & _) | (_ & B)]).
  - apply appends_toBufferInternal. apply Forall_nil.
  - apply NoDup_cons; [cbn; intros [E|[]]; discriminate E|].
    apply NoDup_cons; [intros [] | apply NoDup_nil].
  - vm_compute. reflexivity.
  - exfalso. destruct H as [Hkeys _].
    destruct (proj1 (Hkeys (str "x")) ltac:(right; now left)) as (i & Hi & E).
    destruct i as [|[|i]]; [discriminate E | discriminate E | lia].
  - exists rest. exact B.
Defined.

(** ** Containers cut short *)

Lemma peek_at_end (pre : Buffer) :
  BufferReader.peek (BufferReader.new (pre ++ []) (List.length pre))
  = Throw UnexpectedEndOfStream.
Proof.
  unfold BufferReader.peek, NodeBuffer.index.
  cbn [BufferReader.new BufferReader.readBuffer BufferReader.offset].
  replace (nth_error (pre ++ []) (List.length pre)) with (@None Z); [reflexivity|].
  symmetry. apply nth_error_None. rewrite app_nil_r. lia.
Qed.

Lemma untilEnd_unterminated {A X} (state : list X -> A)
    (body : A -> BufferReader.action A) :
  forall todo chunks done n pre,
    steps state body done todo chunks ->
    (List.length todo < n)%nat ->
    untilEnd n body (state done)
      (BufferReader.new (pre ++ List.concat chunks) (List.length pre))
    = Throw UnexpectedEndOfStream.
Proof.
  induction todo as [|x todo IH]; intros chunks done n pre Hsteps Hn.
  - destruct chunks; [|contradiction]. destruct n as [|n]; [cbn in Hn; lia|].
    cbn [List.concat untilEnd]. unfold BufferReader.bind.
    rewrite peek_at_end. reflexivity.
  - destruct chunks as [|b chunks]; [contradiction|].
    destruct Hsteps as (Htag & Hread & Hrest).
    destruct n as [|n]; [cbn in Hn; lia|]. cbn [List.length] in Hn.
    specialize (IH chunks (done ++ [x]) n (pre ++ b) Hrest ltac:(lia)).
    destruct (tagged_head b Htag) as (t & rest & Eb & Ht).
    cbn [List.concat untilEnd]. unfold BufferReader.bind at 1.
    rewrite (peek_head pre b _ t) by (rewrite Eb; reflexivity).
    rewrite Ht. unfold BufferReader.bind at 1.
    rewrite (Hread pre (List.concat chunks)).
    rewrite <- app_assoc, length_app in IH. exact IH.
Qed.

(** X22: a list or object whose terminator is missing is not accepted: when
    the buffer ends after the last complete member, decoding throws
    "Unexpected end of stream". *)
Theorem unterminated_container_is_rejected (serializer : BufferSerializer) :
  (forall l chunks,
     Z.of_nat (List.length l) <= 2 ^ 32 - 1 ->
     Forall2 (encoding serializer) l chunks ->
     fromBuffer serializer (0x00 :: 0x61 :: List.concat chunks) 0
     = Throw UnexpectedEndOfStream)
  /\ (forall props chunks,
        keys_ok (str "__proto__") props ->
        Forall2 (encoding serializer) (map snd props) chunks ->
        fromBuffer serializer (0x00 :: 0x4F :: List.concat (pair_chunks props chunks)) 0
        = Throw UnexpectedEndOfStream).
Proof.
  split.
  - intros l chunks Hlen H2.
    destruct (Forall2_encoding_tagged serializer l chunks H2) as [Htag Hcount].
    destruct (concat_length_bound chunks Htag) as [Hn Hsizes].
    unfold fromBuffer. cbn [NodeBuffer.index nth_error].
    change (0 + 1)%nat with 1%nat.
    change (List.length (0 :: 0x61 :: List.concat chunks))
      with (S (S (List.length (List.concat chunks)))).
    generalize (eq_refl (S (List.length (List.concat chunks)))).
    generalize (S (List.length (List.concat chunks))) at 2 3 as fuel.
    intros fuel Hfuel. cbn [fromBufferInternal].
    rewrite (bind_reads BufferReader.uint8 _ [0x61] 0x61 (reads_uint8 0x61)
               [0] (List.concat chunks)).
    cbv beta iota. unfold fromBufferInternalArrayDense.
    unfold BufferReader.bind at 1.
    rewrite (untilEnd_unterminated dense_state _ l chunks [] fuel [0; 0x61]).
    + reflexivity.
    + apply steps_dense; [exact H2 | | exact Hlen].
      eapply Forall_impl; [|exact Hsizes]. cbn. intros; lia.
    + lia.
  - intros props chunks Hk H2.
    assert (List.length props = List.length chunks) as Hcount.
    { apply Forall2_length in H2. rewrite length_map in H2. exact H2. }
    destruct (pair_chunks_tagged props chunks Hcount) as [Htag Hlen].
    destruct (concat_length_bound _ Htag) as [Hn Hsizes].
    unfold fromBuffer. cbn [NodeBuffer.index nth_error].
    change (0 + 1)%nat with 1%nat.
    change (List.length (0 :: 0x4F :: List.concat (pair_chunks props chunks)))
      with (S (S (List.length (List.concat (pair_chunks props chunks))))).
    remember (List.length (List.concat (pair_chunks props chunks))) as fuel eqn:Hfuel.
    set (F := S fuel). cbn [fromBufferInternal].
    rewrite (bind_reads BufferReader.uint8 _ [0x4F] 0x4F (reads_uint8 0x4F)
               [0] (List.concat (pair_chunks props chunks))).
    cbv beta iota. unfold fromBufferInternalObjectGeneric.
    unfold BufferReader.bind at 1. subst F.
    rewrite (untilEnd_unterminated (fun done : properties => done) _
               props (pair_chunks props chunks) [] (S fuel) [0; 0x4F]).
    + reflexivity.
    + apply steps_object; [exact Hk | exact H2 |].
      apply (pair_chunks_sizes props chunks (S fuel)); [|exact Hcount].
      eapply Forall_impl; [|exact Hsizes]. cbn. intros; lia.
    + lia.
Qed.

Lemma unterminated_container_is_rejected_witness :
  fromBuffer constructor [0x00; 0x61; 0x2B; 0x01; 0x74] 0
  = Throw UnexpectedEndOfStream.
Proof.
  destruct (unterminated_container_is_rejected constructor) as (H & _).
  apply (H [VNumber (Number.of_Z 1); VBoolean true] [[0x2B; 0x01]; [0x74]]).
  - cbn. lia.
  - apply Forall2_cons;
      [apply (encoding_number constructor (Number.of_Z 1)); reflexivity|].
    apply Forall2_cons; [apply (encoding_boolean constructor true) | apply Forall2_nil].
Defined.

(** ** Distinct values, distinct records *)



(** ** What the record of a container does not keep *)

Lemma reads_pairs_record {A} (s : BufferSerializer)
    (state : properties -> A) (set : A -> value -> value -> BufferReader.action A)
    (f : A -> value) (props : properties) (chunks : list Buffer) (fuel : nat)
    (loop : BufferReader.action value -> nat -> BufferReader.action value) :
  (forall self rounds,
     loop self rounds
     = (let* result := untilEnd rounds
                         (fun result => let* key := self in
                                        let* v := self in set result key v)
                         (state []) in
        let* _ := BufferReader.skip in
        BufferReader.ret (f result))) ->
  (forall fuel',
     Forall (fun b => (List.length b <= S fuel')%nat) chunks ->
     steps state
           (fun result => let* key := fromBufferInternal (S fuel') s in
                          let* v := fromBufferInternal (S fuel') s in
                          set result key v)
           [] props (pair_chunks props chunks)) ->
  Forall2 (encoding s) (map snd props) chunks ->
  (List.length (List.concat (pair_chunks props chunks) ++ [0x21%Z]) <= fuel)%nat ->
  reads (loop (fromBufferInternal fuel s) fuel)
        (List.concat (pair_chunks props chunks) ++ [0x21]) (f (state props)).
Proof.
  intros Hloop Hsteps H2 Hfuel.
  destruct (pairs_fuel props chunks fuel (Forall2_tagged _ _ _ H2) Hfuel)
    as (fuel' & -> & Hrounds & Hsizes).
  rewrite Hloop.
  apply (untilEnd_reads state _ f props (pair_chunks props chunks) [] (S fuel')).
  - apply Hsteps. exact Hsizes.
  - exact Hrounds.
Qed.

(** X23: the record of a list in sparse form holds the list's own properties
    and not its length, and the record of an object that no helper claims
    holds the object's own properties and not its class.  Decoding
    therefore gives a list whose length is one more than its largest
    index (zero with no index), whatever the length was, and a plain
    object, whatever the class was.  (For own keys that are distinct, in
    own-key order and come back in place, none of them named [__proto__]
    and, in a list, none named [length]; and members that have an
    encoding.) *)
Theorem containers_keep_their_properties_only (serializer : BufferSerializer)
    (props : properties) (chunks : list Buffer) :
  Forall2 (encoding serializer) (map snd props) chunks ->
  (forall length,
     is_dense length props = false ->
     keys_ok (str "length") props ->
     keys_ok (str "__proto__") props ->
     toBuffer serializer (VArray length props)
     = Ok (0x00 :: 0x41 :: List.concat (pair_chunks props chunks) ++ [0x21])
     /\ fromBuffer serializer
          (0x00 :: 0x41 :: List.concat (pair_chunks props chunks) ++ [0x21]) 0
        = Ok (VArray (implied_length (Object_keys props)) props))
  /\ (forall class,
        unclaimed serializer (VObject class props) = true ->
        keys_ok (str "__proto__") props ->
        toBuffer serializer (VObject class props)
        = Ok (0x00 :: 0x4F :: List.concat (pair_chunks props chunks) ++ [0x21])
        /\ fromBuffer serializer
             (0x00 :: 0x4F :: List.concat (pair_chunks props chunks) ++ [0x21]) 0
           = Ok (VObject "Object" props)).
Proof.
  intros H2. split.
  - intros length Hsparse Hkeys Hkeys'. split.
    + apply toBuffer_of_writes. rewrite depth_VArray.
      cbn [Nat.add toBufferInternal]. unfold toBufferInternalArray.
      fold (is_dense length props). rewrite Hsparse.
      apply (writes_seq _ _ [0x41]); [apply writes_string|].
      apply writes_seq; [|apply writes_string].
      apply (writes_pairs serializer (S (depth_members props)) props chunks
               (str "length")); try assumption. lia.
    + rewrite <- (app_nil_r (List.concat (pair_chunks props chunks) ++ [0x21])).
      change (0 :: 0x41 :: (List.concat (pair_chunks props chunks) ++ [0x21]) ++ [])
        with (0 :: (0x41 :: List.concat (pair_chunks props chunks) ++ [0x21]) ++ []).
      apply fromBuffer_of_reads. rewrite app_nil_r.
      cbn [List.length fromBufferInternal]. apply reads_tag. cbv beta iota.
      apply (reads_pairs_record serializer sparse_state Array_set
               (fun result => VArray (fst result) (snd result)) props chunks
               (S (List.length (List.concat (pair_chunks props chunks) ++ [0x21])))
               fromBufferInternalArraySparse).
      * reflexivity.
      * intros fuel' Hsizes. apply steps_sparse; assumption.
      * exact H2.
      * lia.
  - intros class Hun Hkeys. split.
    + apply toBuffer_of_writes. rewrite depth_VObject.
      cbn [Nat.add].
      rewrite toBufferInternal_unclaimed by (reflexivity || exact Hun).
      cbn [toBufferInternalObject]. unfold toBufferInternalObjectGeneric.
      apply (writes_seq _ _ [0x4F]); [apply writes_string|].
      apply writes_seq; [|apply writes_string].
      apply (writes_pairs serializer (S (depth_members props)) props chunks
               (str "__proto__")); try assumption. lia.
    + rewrite <- (app_nil_r (List.concat (pair_chunks props chunks) ++ [0x21])).
      change (0 :: 0x4F :: (List.concat (pair_chunks props chunks) ++ [0x21]) ++ [])
        with (0 :: (0x4F :: List.concat (pair_chunks props chunks) ++ [0x21]) ++ []).
      apply fromBuffer_of_reads. rewrite app_nil_r.
      cbn [List.length fromBufferInternal]. apply reads_tag. cbv beta iota.
      apply (reads_pairs_record serializer (fun done : properties => done)
               Object_set (fun result => VObject "Object" result) props chunks
               (S (List.length (List.concat (pair_chunks props chunks) ++ [0x21])))
               fromBufferInternalObjectGeneric).
      * reflexivity.
      * intros fuel' Hsizes. apply steps_object; assumption.
      * exact H2.
      * lia.
Qed.

Lemma containers_keep_their_properties_only_witness :
  (toBuffer constructor (VArray 5 [(str "1", VNull)])
   = Ok [0x00; 0x41; 0x2B; 0x01; 0x6E; 0x21]
   /\ fromBuffer constructor [0x00; 0x41; 0x2B; 0x01; 0x6E; 0x21] 0
      = Ok (VArray 2 [(str "1", VNull)]))
  /\ (toBuffer constructor (VObject "Point" [(str "1", VNull)])
      = Ok [0x00; 0x4F; 0x2B; 0x01; 0x6E; 0x21]
      /\ fromBuffer constructor [0x00; 0x4F; 0x2B; 0x01; 0x6E; 0x21] 0
         = Ok (VObject "Object" [(str "1", VNull)])).
Proof.
  assert (forall reserved, reserved <> str "1" ->
                           keys_ok reserved [(str "1", VNull)]) as K.
  { intros reserved Hr. split; [|split].
    - apply NoDup_cons; [intros [] | apply NoDup_nil].
    - reflexivity.
    - apply Forall_cons; [|apply Forall_nil]. split; [reflexivity | intros E; apply Hr; symmetry; exact E]. }
  destruct (containers_keep_their_properties_only constructor
              [(str "1", VNull)] [[0x6E]]) as (Ha & Ho).
  - apply Forall2_cons; [apply encoding_null | apply Forall2_nil].
  - split.
    + apply (Ha 5%nat); [reflexivity | apply K; discriminate
                        | apply K; discriminate].
    + apply (Ho "Point"%string); [reflexivity | apply K; discriminate].
Defined.

(** ** Keys that look like indices *)

Lemma parse_upper (s : jsstring) :
  forallb is_digit s = true -> parse_decimal s < 10 ^ Z.of_nat (List.length s).
Proof.
  induction s as [|d s IH] using rev_ind; intros H; [cbn; lia|].
  rewrite forallb_app in H. apply andb_prop in H as [Hs Hd].
  cbn [forallb] in Hd. rewrite andb_true_r in Hd. apply is_digit_spec in Hd.
  specialize (IH Hs). rewrite parse_snoc, length_app. cbn [List.length].
  rewrite Nat2Z.inj_add. change (Z.of_nat 1) with 1.
  rewrite Z.pow_add_r by lia. lia.
Qed.

Lemma digits_needed (s : jsstring) (n : nat) (bound : Z) :
  forallb is_digit s = true -> 10 ^ Z.of_nat n <= bound ->
  bound <= parse_decimal s -> (n < List.length s)%nat.
Proof.
  intros Hs Hn Hb. pose proof (parse_upper s Hs) as Hu.
  destruct (Nat.lt_ge_cases n (List.length s)) as [Hlt|Hge]; [exact Hlt|].
  exfalso.
  assert (10 ^ Z.of_nat (List.length s) <= 10 ^ Z.of_nat n)
    by (apply Z.pow_le_mono_r; lia).
  lia.
Qed.

Lemma size_bytes_length (n : Z) : (1 <= List.length (size_bytes n))%nat.
Proof.
  unfold size_bytes. destruct (n <? 127); [cbn; lia|].
  destruct (n <? 16383); rewrite big_endian_length; lia.
Qed.

(** X24: a key that looks like an index is written as a number, not as text.
    Below [2^53] nothing is lost by it: the number read back converts to
    the same key.  And the source's remark that this saves bytes is right:
    the number takes fewer bytes than the text of the key would, for every
    such key. *)
Theorem index_keys_take_fewer_bytes (serializer : BufferSerializer) (fuel : nat)
    (key : jsstring) :
  looks_like_index key = true ->
  parse_decimal key < 2 ^ 53 ->
  Z.of_nat (List.length key) < 0x1FFFFFFF ->
  let number := number_bytes (Number.of_Z (parse_decimal key)) in
  writes (toBufferInternalKey (toBufferInternal (S fuel) serializer) key) number
  /\ (exists read,
        reads (fromBufferInternal (S fuel) serializer) number read
        /\ ToPropertyKey read = Some key)
  /\ writes (toBufferInternal (S fuel) serializer (VString key)) (string_bytes key)
  /\ (List.length number < List.length (string_bytes key))%nat.
Proof.
  intros Hlook Hbound Hlen number.
  pose proof Hlook as Hspec. apply looks_like_index_spec in Hspec.
  destruct Hspec as (Hne & Hdig & Hlead).
  pose proof (parse_nonneg key Hdig) as Hpos.
  assert (key_ok key = true) as Hok.
  { unfold key_ok, latin1_text. rewrite Hlook.
    apply andb_true_intro. split; [|lia].
    apply andb_true_intro. split; [|lia].
    apply forallb_forall. intros c Hc.
    rewrite forallb_forall in Hdig. specialize (Hdig c Hc).
    apply is_digit_spec in Hdig. unfold is_latin1. lia. }
  pose proof (writes_key serializer fuel key Hok) as W.
  pose proof (reads_key serializer fuel key Hok) as R.
  unfold key_bytes in W, R. rewrite Hlook in W, R.
  split; [exact W|]. split; [exact R|]. split.
  { cbn [toBufferInternal]. apply writes_toBufferInternalString. exact Hlen. }
  subst number. set (z := parse_decimal key) in *.
  destruct (of_Z_integer z ltac:(lia)) as (_ & Hint & Hto & _).
  unfold number_bytes, integer_value. rewrite Hint, Hto.
  assert (2 + List.length key <= List.length (string_bytes key))%nat as Htext.
  { unfold string_bytes. cbn [List.length]. rewrite length_app, length_map.
    pose proof (size_bytes_length (Z.of_nat (List.length key))). lia. }
  assert (1 <= List.length key)%nat as H1
    by (destruct key; [contradiction | cbn; lia]).
  destruct (Z.ltb_spec z 0); [lia|].
  destruct (Z.leb_spec z 0xFF); [cbn [List.length]; lia|].
  pose proof (digits_needed key 2 256 Hdig ltac:(cbn; lia) ltac:(lia)) as H3.
  destruct (Z.leb_spec z 0xFFFF);
    [cbn [List.length]; rewrite big_endian_length; lia|].
  pose proof (digits_needed key 4 65536 Hdig ltac:(cbn; lia) ltac:(lia)) as H5.
  destruct (Z.leb_spec z 0xFFFFFFFF);
    [cbn [List.length]; rewrite big_endian_length; lia|].
  pose proof (digits_needed key 9 4294967296 Hdig ltac:(cbn; lia) ltac:(lia)) as H10.
  cbn [List.length]. rewrite writeDoubleBE_big_endian, big_endian_length. lia.
Qed.

Lemma index_keys_take_fewer_bytes_witness :
  writes (toBufferInternalKey (toBufferInternal 1 constructor) (str "65536"))
         [0x50; 0x00; 0x01; 0x00; 0x00]
  /\ writes (toBufferInternal 1 constructor (VString (str "65536")))
            [0x73; 0x05; 0x36; 0x35; 0x35; 0x33; 0x36].
Proof.
  destruct (index_keys_take_fewer_bytes constructor 0 (str "65536"))
    as (W & _ & T & _).
  - reflexivity.
  - vm_compute. reflexivity.
  - vm_compute. reflexivity.
  - split; [exact W | exact T].
Defined.
